(** * bw2data.parameters: dependency-aware parameter recalculation

    A shallow embedding of [src/bw2data/parameters.py].  The six tables of
    [parameters.db] and the collaborators the module talks to (the
    [databases] metadata, the activity store, the clock) form one explicit
    [Store]; every method becomes a computation [Py A] that threads the
    store and may raise a Python exception.  The formula evaluator
    ([asteval], [bw2parameters.ParameterSet]) and the order in which SQLite
    scans the group table are interfaces. *)

From stdpp Require Import base gmap strings list fin_maps fin_sets sorting.

(** ** Values owned by collaborators *)

(** [Amount] stands for the floats of the [amount] columns, [Extra] for the
    pickled [data] bag.  The bag is carried verbatim and is taken not to
    shadow a column ([name], [formula], [amount], ...) in the [dict]
    property: the bulk entry points pop these keys off before they fill it. *)
Class Values := {
  Amount : Type;
  Extra : Type;
  zero : Amount;
}.

Section rows.
Context `{Values}.

(** ** Rows of the six peewee models *)

Record ProjectParameter := {
  pp_name : string;
  pp_formula : option string;
  pp_amount : option Amount;
  pp_data : Extra;
}.

Record DatabaseParameter := {
  dp_database : string;
  dp_name : string;
  dp_formula : option string;
  dp_amount : option Amount;
  dp_data : Extra;
}.

Record ActivityParameter := {
  ap_group : string;
  ap_database : string;
  ap_code : string;
  ap_name : string;
  ap_formula : option string;
  ap_amount : option Amount;
  ap_data : Extra;
}.

Record ParameterizedExchange := {
  pe_group : string;
  pe_exchange : Z;
  pe_formula : string;
}.

(** [Group.name] is unique, so the table is a map from the name to the
    other columns. *)
Record Group := {
  fresh : bool;
  updated : nat;
  order : list string;
}.

(** The result of the [dict] property once [name] is popped off. *)
Record ParamDict := {
  pd_database : option string;
  pd_code : option string;
  pd_formula : option string;
  pd_amount : option Amount;
  pd_data : Extra;
}.

(** ** Collaborators: activities and their exchanges *)

Record Exchange := {
  exc_id : Z;
  exc_formula : option string;
  exc_amount : option Amount;
}.

(** One entry of the [parameters] list embedded in an activity. *)
Record EmbeddedParameter := {
  ep_variable : string;
  ep_formula : option string;
  ep_amount : option Amount;
  ep_data : Extra;
}.

Record Activity := {
  act_database : string;
  act_code : string;
  act_parameters : option (list EmbeddedParameter);
  act_exchanges : list Exchange;
}.

(** ** The store *)

Record Store := {
  projectparameter : list ProjectParameter;
  databaseparameter : list DatabaseParameter;
  activityparameter : list ActivityParameter;
  parameterizedexchange : list ParameterizedExchange;
  group_table : gmap string Group;
  groupdependency : gset (string * string);
  (* outside parameters.db *)
  databases : list string;
  dirty : gset string;
  activities : list Activity;
  now : nat;
}.

Definition set_projectparameter (v : list ProjectParameter) (σ : Store) : Store :=
  {| projectparameter := v; databaseparameter := databaseparameter σ;
     activityparameter := activityparameter σ;
     parameterizedexchange := parameterizedexchange σ;
     group_table := group_table σ; groupdependency := groupdependency σ;
     databases := databases σ; dirty := dirty σ; activities := activities σ;
     now := now σ |}.

Definition set_databaseparameter (v : list DatabaseParameter) (σ : Store) : Store :=
  {| projectparameter := projectparameter σ; databaseparameter := v;
     activityparameter := activityparameter σ;
     parameterizedexchange := parameterizedexchange σ;
     group_table := group_table σ; groupdependency := groupdependency σ;
     databases := databases σ; dirty := dirty σ; activities := activities σ;
     now := now σ |}.

Definition set_activityparameter (v : list ActivityParameter) (σ : Store) : Store :=
  {| projectparameter := projectparameter σ;
     databaseparameter := databaseparameter σ; activityparameter := v;
     parameterizedexchange := parameterizedexchange σ;
     group_table := group_table σ; groupdependency := groupdependency σ;
     databases := databases σ; dirty := dirty σ; activities := activities σ;
     now := now σ |}.

Definition set_group_table (v : gmap string Group) (σ : Store) : Store :=
  {| projectparameter := projectparameter σ;
     databaseparameter := databaseparameter σ;
     activityparameter := activityparameter σ;
     parameterizedexchange := parameterizedexchange σ;
     group_table := v; groupdependency := groupdependency σ;
     databases := databases σ; dirty := dirty σ; activities := activities σ;
     now := now σ |}.

Definition set_groupdependency (v : gset (string * string)) (σ : Store) : Store :=
  {| projectparameter := projectparameter σ;
     databaseparameter := databaseparameter σ;
     activityparameter := activityparameter σ;
     parameterizedexchange := parameterizedexchange σ;
     group_table := group_table σ; groupdependency := v;
     databases := databases σ; dirty := dirty σ; activities := activities σ;
     now := now σ |}.

Definition set_dirty (v : gset string) (σ : Store) : Store :=
  {| projectparameter := projectparameter σ;
     databaseparameter := databaseparameter σ;
     activityparameter := activityparameter σ;
     parameterizedexchange := parameterizedexchange σ;
     group_table := group_table σ; groupdependency := groupdependency σ;
     databases := databases σ; dirty := v; activities := activities σ;
     now := now σ |}.

Definition set_activities (v : list Activity) (σ : Store) : Store :=
  {| projectparameter := projectparameter σ;
     databaseparameter := databaseparameter σ;
     activityparameter := activityparameter σ;
     parameterizedexchange := parameterizedexchange σ;
     group_table := group_table σ; groupdependency := groupdependency σ;
     databases := databases σ; dirty := dirty σ; activities := v;
     now := now σ |}.

(** What a failed [db.atomic()] block restores: the tables of
    [parameters.db] as they were at [σ0]; what was written elsewhere stays. *)
Definition rollback (σ0 σ : Store) : Store :=
  {| projectparameter := projectparameter σ0;
     databaseparameter := databaseparameter σ0;
     activityparameter := activityparameter σ0;
     parameterizedexchange := parameterizedexchange σ0;
     group_table := group_table σ0; groupdependency := groupdependency σ0;
     databases := databases σ; dirty := dirty σ; activities := activities σ;
     now := now σ |}.

(** ** Exceptions and the computation monad *)

Inductive Exception :=
  | DoesNotExist (model : string)
  | IntegrityError (msg : string)
  | MissingName (missing : gset string)
  | AssertionError (msg : string)
  | ValueError (msg : string)
  | NameError (name : string)
  | TypeError (msg : string)
  | KeyError (key : string)
  | SyntaxError (formula : string)
  | EvaluatorError (msg : string)
  | NotImplementedError.

Inductive Result (A : Type) :=
  | Ok (a : A) (σ : Store)
  | Raise (e : Exception) (σ : Store)
  | OutOfFuel.
Global Arguments Ok {A} a σ.
Global Arguments Raise {A} e σ.
Global Arguments OutOfFuel {A}.

Definition Py (A : Type) : Type := Store → Result A.

Definition ret {A} (a : A) : Py A := λ σ, Ok a σ.
Definition bind {A B} (m : Py A) (k : A → Py B) : Py B :=
  λ σ, match m σ with
       | Ok a σ' => k a σ'
       | Raise e σ' => Raise e σ'
       | OutOfFuel => OutOfFuel
       end.
Definition raise {A} (e : Exception) : Py A := λ σ, Raise e σ.
Definition get : Py Store := λ σ, Ok σ σ.
Definition modify (f : Store → Store) : Py unit := λ σ, Ok tt (f σ).

(** [with parameters.db.atomic(): body] *)
Definition atomic {A} (body : Py A) : Py A :=
  λ σ, match body σ with
       | Raise e σ' => Raise e (rollback σ σ')
       | r => r
       end.

(** [for x in xs: body x] *)
Fixpoint for_ {A} (xs : list A) (body : A → Py unit) : Py unit :=
  match xs with
  | [] => ret tt
  | x :: xs' => bind (body x) (λ _, for_ xs' body)
  end.

End rows.

Notation "'let!' x ':=' m 'in' k" := (bind m (λ x, k))
  (at level 10, x name, m at level 100, k at level 200,
   format "'[v' 'let!'  x  ':='  m  'in' '/' k ']'").
Notation "m1 ';;;' m2" := (bind m1 (λ _, m2))
  (at level 100, m2 at level 200, right associativity).

(** ** The evaluator interface

    [symtable] is [set(asteval.Interpreter().symtable)], [NameFinder f] the
    names [asteval.NameFinder] collects from the parse of [f] ([None] when
    [f] does not parse), and [evaluate_and_set_amount_field data glo] is
    [ParameterSet(data, glo).evaluate_and_set_amount_field()], returning
    the dictionaries it has written the amounts into. *)
Class Evaluator `{Values} := {
  symtable : gset string;
  NameFinder : string → option (gset string);
  evaluate_and_set_amount_field :
    gmap string ParamDict → option (gmap string (option Amount)) →
    string + gmap string ParamDict;
}.

(** ** The order of a table scan

    A [SELECT] over [group_table] hands out the rows in the order of their
    row ids, that is, in the order in which they were inserted.  The table
    is modelled as a map from the unique name, which does not record that
    order: [scan] stands for it, and all that is known of it is that it
    lists every row once. *)
Class TableScan := {
  scan : gmap string Group → list string;
  scan_rows : ∀ tab, scan tab ≡ₚ (map_to_list tab).*1;
}.

Section model.
Context `{Evaluator} `{TableScan}.

(** A read-only query that may raise. *)
Definition liftq {A} (q : Store → Exception + A) : Py A :=
  λ σ, match q σ with inl e => Raise e σ | inr a => Ok a σ end.

(** [dict(pairs)]: a later pair replaces an earlier one with the same key. *)
Definition dict {V} (pairs : list (string * V)) : gmap string V :=
  list_to_map (reverse pairs).

(** [{k: v for k, v in result.items() if k in only}] when [only] is given. *)
Definition restrict {V} (only : option (gset string)) (result : gmap string V)
  : gmap string V :=
  match only with
  | None => result
  | Some names => filter (λ kv, kv.1 ∈ names) result
  end.

(** ** Group *)

Definition set_fresh (b : bool) (g : Group) : Group :=
  {| fresh := b; updated := updated g; order := order g |}.
Definition set_updated (t : nat) (g : Group) : Group :=
  {| fresh := fresh g; updated := t; order := order g |}.
Definition set_order (o : list string) (g : Group) : Group :=
  {| fresh := fresh g; updated := updated g; order := o |}.

(** [set(databases).union(set(['project']))] *)
Definition reserved (σ : Store) : gset string :=
  list_to_set (databases σ) ∪ {["project"]}.

Definition Group_purge_order (σ : Store) (g : Group) : Group :=
  set_order (filter (λ x, x ∉ reserved σ) (order g)) g.

(** [Group.save]: purge the order, then write every column of the row. *)
Definition Group_save (name : string) (g : Group) : Py unit :=
  modify (λ σ,
    set_group_table (<[name := Group_purge_order σ g]> (group_table σ)) σ).

Definition Group_get (name : string) : Py Group :=
  λ σ, match group_table σ !! name with
       | Some g => Ok g σ
       | None => Raise (DoesNotExist "Group") σ
       end.

(** [Group.get_or_create(name=name)[0]]; a new row takes the defaults
    [fresh=True], [updated=now], [order=[]]. *)
Definition Group_get_or_create (name : string) : Py Group :=
  λ σ, match group_table σ !! name with
       | Some g => Ok g σ
       | None =>
           let g := {| fresh := true; updated := now σ; order := [] |} in
           (Group_save name g ;;; ret (Group_purge_order σ g)) σ
       end.

Definition Group_expire (name : string) (g : Group) : Py unit :=
  Group_save name (set_fresh false g).

Definition Group_freshen (name : string) (g : Group) : Py unit :=
  Group_save name (set_fresh true g).

(** [AUTOUPDATE_TRIGGER]:
    [UPDATE group_table SET updated = datetime('now') WHERE name = name]. *)
Definition autoupdate (name : string) (σ : Store) : Store :=
  set_group_table (alter (set_updated (now σ)) name (group_table σ)) σ.

(** ** GroupDependency *)

(** One row [INSERT]ed into [groupdependency]: the [gd_circular_INSERT]
    trigger runs before the row is written, then the [CHECK] constraint and
    the unique index on [(group, depends)]. *)
Definition GroupDependency_insert (group depends : string) : Py unit :=
  λ σ,
    if bool_decide ((depends, group) ∈ groupdependency σ) then
      Raise (IntegrityError "Circular dependency") σ
    else if bool_decide (group = depends) then
      Raise (IntegrityError "CHECK constraint failed: groupdependency") σ
    else if bool_decide ((group, depends) ∈ groupdependency σ) then
      Raise (IntegrityError "UNIQUE constraint failed: groupdependency") σ
    else Ok tt (set_groupdependency ({[(group, depends)]} ∪ groupdependency σ) σ).

(** [GroupDependency.insert_many(rows).execute()]: one statement, so a row
    that is refused takes the rows before it back out. *)
Definition GroupDependency_insert_many (rows : list (string * string)) : Py unit :=
  atomic (for_ rows (λ r, GroupDependency_insert r.1 r.2)).

(** [GroupDependency.save] of a new row. *)
Definition GroupDependency_save (group depends : string) : Py unit :=
  let! σ := get in
  if bool_decide (group = "project") then
    raise (ValueError "`project` group can't have dependencies")
  else if bool_decide (group ∈ databases σ) && negb (bool_decide (depends = "project")) then
    raise (ValueError "Database groups can only depend on `project`")
  else GroupDependency_insert group depends.

Definition GroupDependency_get_or_create (group depends : string) : Py unit :=
  let! σ := get in
  if bool_decide ((group, depends) ∈ groupdependency σ) then ret tt
  else GroupDependency_save group depends.

(** [GroupDependency.delete().where(pred).execute()] *)
Definition GroupDependency_delete (pred : string * string → bool) : Py unit :=
  modify (λ σ,
    set_groupdependency (filter (λ e, pred e = false) (groupdependency σ)) σ).

(** ** ParameterBase *)

(** [Group.update(fresh=False).where(Group.name << (SELECT "group" FROM
    groupdependency WHERE depends = group))] *)
Definition ParameterBase_expire_downstream (group : string) : Py unit :=
  modify (λ σ,
    set_group_table
      (map_imap (λ name g,
         Some (if bool_decide ((name, group) ∈ groupdependency σ)
               then set_fresh false g else g))
         (group_table σ)) σ).

(** [get_new_symbols(data, context)]; [data] is traversed in order and the
    first formula that does not parse raises. *)
Fixpoint found_names (data : list ParamDict) : Exception + gset string :=
  match data with
  | [] => inr ∅
  | ds :: rest =>
      match pd_formula ds with
      | None => found_names rest
      | Some f =>
          match NameFinder f with
          | None => inl (SyntaxError f)
          | Some names =>
              match found_names rest with
              | inl e => inl e
              | inr found => inr (names ∪ found)
              end
          end
      end
  end.

Definition get_new_symbols (data : list ParamDict) (context : gset string)
  : Exception + gset string :=
  match found_names data with
  | inl e => inl e
  | inr found => inr (found ∖ (symtable ∪ context))
  end.

(** [ParameterSet(data, glo).evaluate_and_set_amount_field()] *)
Definition ParameterSet_evaluate (data : gmap string ParamDict)
    (glo : option (gmap string (option Amount))) : Py (gmap string ParamDict) :=
  match evaluate_and_set_amount_field data glo with
  | inl msg => raise (EvaluatorError msg)
  | inr data' => ret data'
  end.

(** [for key, value in data.items(): update key value['amount']] *)
Definition for_items (data : gmap string ParamDict)
    (update : string → Amount → Py unit) : Py unit :=
  for_ (map_to_list data) (λ kv,
    match pd_amount kv.2 with
    | None => raise (KeyError "amount")
    | Some a => update kv.1 a
    end).

(** ** ProjectParameter *)

Definition ProjectParameter_dict (o : ProjectParameter) : string * ParamDict :=
  (pp_name o,
   {| pd_database := None; pd_code := None; pd_formula := pp_formula o;
      pd_amount := pp_amount o; pd_data := pp_data o |}).

Definition ProjectParameter_load (σ : Store) : gmap string ParamDict :=
  dict (ProjectParameter_dict <$> projectparameter σ).

Definition ProjectParameter_static (σ : Store) (only : option (gset string))
  : gmap string (option Amount) :=
  restrict only (dict ((λ o, (pp_name o, pp_amount o)) <$> projectparameter σ)).

Definition ProjectParameter_expired (σ : Store) : bool :=
  match group_table σ !! "project" with
  | Some g => negb (fresh g)
  | None => false
  end.

(** [ProjectParameter.update(amount=a).where(name == key).execute()],
    with the update trigger of the table. *)
Definition ProjectParameter_update_amount (key : string) (a : Amount) : Py unit :=
  modify (λ σ,
    let hit := λ o, bool_decide (pp_name o = key) in
    let rows := (λ o, if hit o then
                   {| pp_name := pp_name o; pp_formula := pp_formula o;
                      pp_amount := Some a; pp_data := pp_data o |}
                 else o) <$> projectparameter σ in
    let σ' := set_projectparameter rows σ in
    if existsb hit (projectparameter σ) then autoupdate "project" σ' else σ').

Definition ProjectParameter_recalculate : Py unit :=
  let! σ := get in
  if negb (ProjectParameter_expired σ) then ret tt else
  let data := ProjectParameter_load σ in
  if bool_decide (size data = 0) then ret tt else
  let! data := ParameterSet_evaluate data None in
  atomic (
    for_items data ProjectParameter_update_amount ;;;
    let! g := Group_get_or_create "project" in
    Group_freshen "project" g ;;;
    ParameterBase_expire_downstream "project").

(** ** DatabaseParameter *)

Definition DatabaseParameter_dict (o : DatabaseParameter) : string * ParamDict :=
  (dp_name o,
   {| pd_database := Some (dp_database o); pd_code := None;
      pd_formula := dp_formula o; pd_amount := dp_amount o;
      pd_data := dp_data o |}).

Definition DatabaseParameter_select (σ : Store) (database : string)
  : list DatabaseParameter :=
  filter (λ o, dp_database o = database) (databaseparameter σ).

Definition DatabaseParameter_load (σ : Store) (database : string)
  : gmap string ParamDict :=
  dict (DatabaseParameter_dict <$> DatabaseParameter_select σ database).

Definition DatabaseParameter_expired (σ : Store) (database : string) : bool :=
  match group_table σ !! database with
  | Some g => negb (fresh g)
  | None => false
  end.

Definition DatabaseParameter_static (σ : Store) (database : string)
    (only : option (gset string)) : gmap string (option Amount) :=
  restrict only
    (dict ((λ o, (dp_name o, dp_amount o)) <$> DatabaseParameter_select σ database)).

(** [DatabaseParameter.update(amount=a).where(name == key, database ==
    database).execute()], with the update trigger ([OLD.database]). *)
Definition DatabaseParameter_update_amount (database key : string) (a : Amount)
  : Py unit :=
  modify (λ σ,
    let hit := λ o, bool_decide (dp_name o = key) &&
                    bool_decide (dp_database o = database) in
    let rows := (λ o, if hit o then
                   {| dp_database := dp_database o; dp_name := dp_name o;
                      dp_formula := dp_formula o; dp_amount := Some a;
                      dp_data := dp_data o |}
                 else o) <$> databaseparameter σ in
    let σ' := set_databaseparameter rows σ in
    if existsb hit (databaseparameter σ) then autoupdate database σ' else σ').

Definition DatabaseParameter_recalculate (database : string) : Py unit :=
  let! σ := get in
  (if ProjectParameter_expired σ then ProjectParameter_recalculate else ret tt) ;;;
  (* Can we avoid doing anything? *)
  let! σ := get in
  if negb (DatabaseParameter_expired σ database) then ret tt else
  let data := DatabaseParameter_load σ database in
  if bool_decide (size data = 0) then ret tt else
  (* Parse all formulas, find missing variables *)
  let! new_symbols := liftq (λ _, get_new_symbols (map_to_list data).*2 (dom data)) in
  let found_symbols : gset string := list_to_set (pp_name <$> projectparameter σ) in
  let missing := new_symbols ∖ found_symbols in
  if negb (bool_decide (missing = ∅)) then raise (MissingName missing) else
  (* Add or delete `project` dependency if needed *)
  let! glo :=
    (if negb (bool_decide (new_symbols = ∅)) then
       GroupDependency_get_or_create database "project" ;;;
       let! σ := get in
       ret (Some (ProjectParameter_static σ (Some new_symbols)))
     else
       GroupDependency_delete (λ e, bool_decide (e.1 = database) &&
                                    bool_decide (e.2 = "project")) ;;;
       ret None) in
  (* Update database parameter values *)
  let! data := ParameterSet_evaluate data glo in
  atomic (
    for_items data (DatabaseParameter_update_amount database) ;;;
    let! g := Group_get database in
    Group_freshen database g ;;;
    ParameterBase_expire_downstream database).

(** ** ActivityParameter *)

Inductive Kind := kind_project | kind_database | kind_activity.

Global Instance Kind_eq_dec : EqDecision Kind.
Proof. solve_decision. Defined.

(** One row of a dependency chain: [{'kind': .., 'group': .., 'names': ..}]. *)
Record ChainEntry := {
  ce_kind : Kind;
  ce_group : string;
  ce_names : gset string;
}.

Definition ActivityParameter_dict (o : ActivityParameter) : string * ParamDict :=
  (ap_name o,
   {| pd_database := Some (ap_database o); pd_code := Some (ap_code o);
      pd_formula := ap_formula o; pd_amount := ap_amount o;
      pd_data := ap_data o |}).

Definition ActivityParameter_select (σ : Store) (group : string)
  : list ActivityParameter :=
  filter (λ o, ap_group o = group) (activityparameter σ).

Definition ActivityParameter_load (σ : Store) (group : string)
  : gmap string ParamDict :=
  dict (ActivityParameter_dict <$> ActivityParameter_select σ group).

(** [ActivityParameter.static(group, only)] with [full=False]; the
    [full=True] variant is [ActivityParameter_static_full] below. *)
Definition ActivityParameter_static (σ : Store) (group : string)
    (only : option (gset string)) : gmap string (option Amount) :=
  restrict only
    (dict ((λ o, (ap_name o, ap_amount o)) <$> ActivityParameter_select σ group)).

Definition ActivityParameter_expired (σ : Store) (group : string) : bool :=
  match group_table σ !! group with
  | Some g => negb (fresh g)
  | None => false
  end.

(** [ActivityParameter.get(group=group)]: the first row of the group. *)
Definition ActivityParameter_get (σ : Store) (group : string)
  : Exception + ActivityParameter :=
  match ActivityParameter_select σ group with
  | o :: _ => inr o
  | [] => inl (DoesNotExist "ActivityParameter")
  end.

(** One search step of [dependency_chain]: the names of [needed] that
    [found] defines leave [needed]; a chain row is appended when there are
    any. *)
Definition take_names (k : Kind) (g : string)
    (found : gmap string (option Amount))
    (st : gset string * list ChainEntry) : gset string * list ChainEntry :=
  let names := dom found in
  (st.1 ∖ names,
   if bool_decide (names = ∅) then st.2
   else (st.2 ++ [{| ce_kind := k; ce_group := g; ce_names := names |}])%list).

(** [for new_group in Group.get(name=group).order: ...] *)
Fixpoint search_order (σ : Store) (order : list string)
    (st : gset string * list ChainEntry) : gset string * list ChainEntry :=
  match order with
  | [] => st
  | new_group :: rest =>
      search_order σ rest
        (take_names kind_activity new_group
           (ActivityParameter_static σ new_group (Some st.1)) st)
  end.

Definition ActivityParameter_dependency_chain (σ : Store) (group : string)
  : Exception + list ChainEntry :=
  let data := ActivityParameter_load σ group in
  if bool_decide (size data = 0) then inr [] else
  (* Parse all formulas, find missing variables *)
  match get_new_symbols (map_to_list data).*2 (dom data) with
  | inl e => inl e
  | inr needed =>
      if bool_decide (needed = ∅) then inr [] else
      (* Iteratively search through other activity params,
         then db params, then project params *)
      match group_table σ !! group with
      | None => inl (DoesNotExist "Group")
      | Some g =>
          let st := search_order σ (order g) (needed, []) in
          match
            (if bool_decide (st.1 = ∅) then inr st else
             match ActivityParameter_get σ group with
             | inl e => inl e
             | inr o =>
                 let database := ap_database o in
                 inr (take_names kind_database database
                        (DatabaseParameter_static σ database (Some st.1)) st)
             end)
          with
          | inl e => inl e
          | inr st =>
              let st :=
                if bool_decide (st.1 = ∅) then st else
                take_names kind_project "project"
                  (ProjectParameter_static σ (Some st.1)) st in
              if bool_decide (st.1 = ∅) then inr st.2
              else inl (MissingName st.1)
          end
      end
  end.

(** [mapping[row['kind']].static(row['group'], only=row['names'])] *)
Definition static_of (σ : Store) (row : ChainEntry) : gmap string (option Amount) :=
  match ce_kind row with
  | kind_project => ProjectParameter_static σ (Some (ce_names row))
  | kind_database => DatabaseParameter_static σ (ce_group row) (Some (ce_names row))
  | kind_activity => ActivityParameter_static σ (ce_group row) (Some (ce_names row))
  end.

(** [result.update(d)]: the entries of [d] replace those of [result]. *)
Definition dict_update {V} (result d : gmap string V) : gmap string V := d ∪ result.

Definition ActivityParameter_static_dependencies (σ : Store) (group : string)
  : Exception + gmap string (option Amount) :=
  match ActivityParameter_dependency_chain σ group with
  | inl e => inl e
  | inr chain =>
      inr (foldl (λ result row, dict_update result (static_of σ row)) ∅ chain)
  end.

(** [ActivityParameter.static(group, only, full=True)] *)
Definition ActivityParameter_static_full (σ : Store) (group : string)
    (only : option (gset string)) : Exception + gmap string (option Amount) :=
  match ActivityParameter_static_dependencies σ group with
  | inl e => inl e
  | inr deps =>
      inr (restrict only (dict_update (ActivityParameter_static σ group None) deps))
  end.

(** [ActivityParameter.update(amount=a).where(name == key, group ==
    group).execute()], with the update trigger ([OLD."group"]). *)
Definition ActivityParameter_update_amount (group key : string) (a : Amount)
  : Py unit :=
  modify (λ σ,
    let hit := λ o, bool_decide (ap_name o = key) &&
                    bool_decide (ap_group o = group) in
    let rows := (λ o, if hit o then
                   {| ap_group := ap_group o; ap_database := ap_database o;
                      ap_code := ap_code o; ap_name := ap_name o;
                      ap_formula := ap_formula o; ap_amount := Some a;
                      ap_data := ap_data o |}
                 else o) <$> activityparameter σ in
    let σ' := set_activityparameter rows σ in
    if existsb hit (activityparameter σ) then autoupdate group σ' else σ').

(** Modelled from the spec: [databases.set_dirty] is not part of the
    module; "mark owning database dirty" raises the flag of the database
    and nothing else. *)
Definition databases_set_dirty (name : string) : Py unit :=
  modify (λ σ, set_dirty ({[name]} ∪ dirty σ) σ).

(** [ActivityParameter.recalculate_exchanges].  The module never imports
    [ExchangeDataset], so the body of the loop over the group's
    parameterized exchanges raises [NameError] as soon as it runs. *)
Definition ActivityParameter_recalculate_exchanges (group : string) : Py unit :=
  let! symtable := liftq (λ σ, ActivityParameter_static_full σ group None) in
  let! σ := get in
  for_ (filter (λ obj, pe_group obj = group) (parameterizedexchange σ))
    (λ obj, raise (NameError "ExchangeDataset")) ;;;
  let! o := liftq (λ σ, ActivityParameter_get σ group) in
  databases_set_dirty (ap_database o).

(** Lines 428-436 of [ActivityParameter.recalculate]:
    reset dependencies and dependency order. *)
Definition ActivityParameter_reset_dependencies (group : string)
    (chain : list ChainEntry) : Py unit :=
  match chain with
  | [] => ret tt
  | _ =>
      let! obj := Group_get group in
      let obj := set_order
        (ce_group <$> filter (λ o, ce_kind o = kind_activity) chain) obj in
      Group_save group obj ;;;
      GroupDependency_delete (λ e, bool_decide (e.1 = group)) ;;;
      GroupDependency_insert_many ((λ o, (group, ce_group o)) <$> chain)
  end.

(** Lines 453-466: update activity parameter values. *)
Definition ActivityParameter_update_values (group : string) : Py unit :=
  let! σ := get in
  let data := ActivityParameter_load σ group in
  let! static := liftq (λ σ, ActivityParameter_static_dependencies σ group) in
  let! data := ParameterSet_evaluate data (Some static) in
  atomic (
    for_items data (ActivityParameter_update_amount group) ;;;
    let! g := Group_get group in
    Group_freshen group g ;;;
    ParameterBase_expire_downstream group).

(** [ActivityParameter.recalculate].  The recursion through
    [mapping[row['kind']].recalculate] is bounded by [fuel]; a group that
    is not expired returns at once, whatever the fuel. *)
Fixpoint ActivityParameter_recalculate (fuel : nat) (group : string) : Py unit :=
  let! σ := get in
  if negb (ActivityParameter_expired σ group) then ret tt else
  match fuel with
  | 0 => λ _, OutOfFuel
  | S fuel =>
      let! chain := liftq (λ σ, ActivityParameter_dependency_chain σ group) in
      ActivityParameter_reset_dependencies group chain ;;;
      (* Update all upstream groups *)
      for_ (reverse chain) (λ row,
        match ce_kind row with
        | kind_project => ProjectParameter_recalculate
        | kind_database => DatabaseParameter_recalculate (ce_group row)
        | kind_activity => ActivityParameter_recalculate fuel (ce_group row)
        end) ;;;
      ActivityParameter_update_values group ;;;
      ActivityParameter_recalculate_exchanges group
  end.

(** ** Writes to the parameter tables *)

(** [INSERT INTO projectparameter]: unique index on [name], then the
    insert trigger. *)
Definition ProjectParameter_insert (o : ProjectParameter) : Py unit :=
  λ σ,
    if bool_decide (pp_name o ∈ pp_name <$> projectparameter σ) then
      Raise (IntegrityError "UNIQUE constraint failed: projectparameter") σ
    else Ok tt (autoupdate "project"
                  (set_projectparameter (projectparameter σ ++ [o])%list σ)).

Definition ProjectParameter_insert_many (rows : list ProjectParameter) : Py unit :=
  atomic (for_ rows ProjectParameter_insert).

(** [ProjectParameter.delete().execute()], with the delete trigger. *)
Definition ProjectParameter_delete : Py unit :=
  modify (λ σ,
    let σ' := set_projectparameter [] σ in
    match projectparameter σ with
    | [] => σ'
    | _ => autoupdate "project" σ'
    end).

(** [INSERT INTO databaseparameter]: [CHECK(database != 'project')], the
    unique index on [(database, name)], then the insert trigger. *)
Definition DatabaseParameter_insert (o : DatabaseParameter) : Py unit :=
  λ σ,
    if bool_decide (dp_database o = "project") then
      Raise (IntegrityError "CHECK constraint failed: databaseparameter") σ
    else if bool_decide ((dp_database o, dp_name o) ∈
              (λ r, (dp_database r, dp_name r)) <$> databaseparameter σ) then
      Raise (IntegrityError "UNIQUE constraint failed: databaseparameter") σ
    else Ok tt (autoupdate (dp_database o)
                  (set_databaseparameter (databaseparameter σ ++ [o])%list σ)).

Definition DatabaseParameter_insert_many (rows : list DatabaseParameter) : Py unit :=
  atomic (for_ rows DatabaseParameter_insert).

(** [DatabaseParameter.delete().where(database == database).execute()] *)
Definition DatabaseParameter_delete (database : string) : Py unit :=
  modify (λ σ,
    let σ' := set_databaseparameter
      (filter (λ o, dp_database o ≠ database) (databaseparameter σ)) σ in
    match DatabaseParameter_select σ database with
    | [] => σ'
    | _ => autoupdate database σ'
    end).

(** [INSERT INTO activityparameter]: the [ap_crossdatabase] and
    [ap_crossgroup] triggers run before the row is written, then the
    [CHECK] constraint and the unique index on [(group, name)], then the
    insert trigger. *)
Definition ActivityParameter_insert (o : ActivityParameter) : Py unit :=
  λ σ,
    let rows := activityparameter σ in
    let same_group := filter (λ a, ap_group a = ap_group o) rows in
    if negb (bool_decide (length same_group = 0)) &&
       negb (bool_decide (ap_database o ∈ ap_database <$> same_group)) then
      Raise (IntegrityError "Cross database group") σ
    else if existsb (λ a, bool_decide (ap_database a = ap_database o) &&
                          bool_decide (ap_code a = ap_code o) &&
                          negb (bool_decide (ap_group a = ap_group o))) rows then
      Raise (IntegrityError "Cross group activity") σ
    else if bool_decide (ap_group o = "project") ||
            bool_decide (ap_group o = ap_database o) then
      Raise (IntegrityError "CHECK constraint failed: activityparameter") σ
    else if bool_decide ((ap_group o, ap_name o) ∈
              (λ r, (ap_group r, ap_name r)) <$> rows) then
      Raise (IntegrityError "UNIQUE constraint failed: activityparameter") σ
    else Ok tt (autoupdate (ap_group o)
                  (set_activityparameter (rows ++ [o])%list σ)).

Definition ActivityParameter_insert_many (rows : list ActivityParameter) : Py unit :=
  atomic (for_ rows ActivityParameter_insert).

(** [ActivityParameter.create] of one row, through [ActivityParameter.save]. *)
Definition ActivityParameter_create (o : ActivityParameter) : Py unit :=
  let! g := Group_get_or_create (ap_group o) in
  Group_expire (ap_group o) g ;;;
  ActivityParameter_insert o.

(** [ActivityParameter.delete().where(pred).execute()]; the delete trigger
    runs for the group of every row that goes. *)
Definition ActivityParameter_delete (pred : ActivityParameter → bool) : Py unit :=
  modify (λ σ,
    let gone := filter (λ o, pred o = true) (activityparameter σ) in
    let σ' := set_activityparameter
      (filter (λ o, pred o = false) (activityparameter σ)) σ in
    foldr (λ o, autoupdate (ap_group o)) σ' gone).

(** [for idx in range(0, len(data), 100): data[idx:idx+100]] *)
Fixpoint slices {A} (fuel : nat) (data : list A) : list (list A) :=
  match fuel, data with
  | S fuel, _ :: _ => take 100 data :: slices fuel (drop 100 data)
  | _, _ => []
  end.

(** ** Collaborators *)

(** Modelled from the spec: [get_activity] and the activity proxy are not
    part of the module; "fetch activity by key" returns the record stored
    under [(database, code)], with its optional [parameters] list and its
    exchanges, and raises when there is none. *)
Definition get_activity (key : string * string) : Py Activity :=
  λ σ, match filter (λ a, (act_database a, act_code a) = key) (activities σ) with
       | a :: _ => Ok a σ
       | [] => Raise (DoesNotExist "ActivityDataset") σ
       end.

(** Modelled from the spec: [activity.save()] writes the record back under
    its key. *)
Definition Activity_save (a : Activity) : Py unit :=
  modify (λ σ,
    set_activities
      ((λ b, if bool_decide ((act_database b, act_code b) =
                             (act_database a, act_code a)) then a else b)
         <$> activities σ) σ).

(** ** ParameterManager *)

(** One dictionary of the bulk input of [new_project_parameters] and
    [new_database_parameters]: [name] is required, [amount] and [formula]
    are optional, every other key goes to [data]. *)
Record NewParameter := {
  np_name : string;
  np_amount : option Amount;
  np_formula : option string;
  np_data : Extra;
}.

(** One dictionary of the bulk input of [new_activity_parameters]. *)
Record NewActivityParameter := {
  nap_database : string;
  nap_code : string;
  nap_name : string;
  nap_formula : option string;
  nap_amount : option Amount;
  nap_data : Extra;
}.

(** [assert cond, msg] *)
Definition assert (cond : bool) (msg : string) : Py unit :=
  if cond then ret tt else raise (AssertionError msg).

(** [row = ParameterizedExchange.get_or_create(exchange=id)[0]] followed by
    [row['group'] = group].  A new row is written without [group] and
    [formula], which are not nullable, so [get_or_create] raises; for a row
    that exists, the item assignment raises, since a peewee model instance
    has no [__setitem__]. *)
Definition ParameterizedExchange_link (group : string) (exc : Exchange) : Py unit :=
  let! σ := get in
  match filter (λ r, pe_exchange r = exc_id exc) (parameterizedexchange σ) with
  | [] => raise (IntegrityError
                   "NOT NULL constraint failed: parameterizedexchange.group")
  | row :: _ =>
      raise (TypeError
               "'ParameterizedExchange' object does not support item assignment")
  end.

Definition ParameterManager_add_exchanges_to_group (group : string)
    (key : string * string) : Py unit :=
  let! activity := get_activity key in
  for_ (act_exchanges activity) (λ exc,
    match exc_formula exc with
    | Some _ => ParameterizedExchange_link group exc
    | None => ret tt
    end).

Definition ParameterManager_add_to_group (group : string)
    (key : string * string) : Py (option nat) :=
  Group_get_or_create group ;;;
  let! activity := get_activity key in
  match act_parameters activity with
  | None => ret None
  | Some parameters =>
      (* Avoid duplicate by deleting existing parameters *)
      ActivityParameter_delete (λ o,
        bool_decide (ap_database o = act_database activity) &&
        bool_decide (ap_code o = act_code activity)) ;;;
      let reformat := λ p,
        {| ap_group := group; ap_database := act_database activity;
           ap_code := act_code activity; ap_name := ep_variable p;
           ap_formula := ep_formula p;
           ap_amount := Some (default zero (ep_amount p));
           ap_data := ep_data p |} in
      atomic (for_ (reformat <$> parameters) ActivityParameter_create) ;;;
      (* Parameters are now "active", remove from `Activity` *)
      let activity :=
        {| act_database := act_database activity; act_code := act_code activity;
           act_parameters := None; act_exchanges := act_exchanges activity |} in
      Activity_save activity ;;;
      ParameterManager_add_exchanges_to_group group
        (act_database activity, act_code activity) ;;;
      let! σ := get in
      ret (Some (length (filter (λ o, ap_database o = act_database activity ∧
                                      ap_code o = act_code activity)
                           (activityparameter σ))))
  end.

Definition ParameterManager_remove_from_group (group : string)
    (key : string * string) : Py unit :=
  raise NotImplementedError.

Definition ParameterManager_new_project_parameters (data : list NewParameter)
  : Py unit :=
  let names : gset string := list_to_set (np_name <$> data) in
  assert (bool_decide (size names = length data)) "Nonunique names" ;;;
  let reformat := λ ds,
    {| pp_name := np_name ds; pp_amount := Some (default zero (np_amount ds));
       pp_formula := np_formula ds; pp_data := np_data ds |} in
  let data := reformat <$> data in
  atomic (
    (* Remove existing values *)
    ProjectParameter_delete ;;;
    for_ (slices (length data) data) ProjectParameter_insert_many ;;;
    let! g := Group_get_or_create "project" in
    Group_expire "project" g ;;;
    ProjectParameter_recalculate).

Definition ParameterManager_new_database_parameters (data : list NewParameter)
    (database : string) : Py unit :=
  let! σ := get in
  assert (bool_decide (database ∈ databases σ)) "Unknown database" ;;;
  let names : gset string := list_to_set (np_name <$> data) in
  assert (bool_decide (size names = length data)) "Nonunique names" ;;;
  let reformat := λ ds,
    {| dp_database := database; dp_name := np_name ds;
       dp_amount := Some (default zero (np_amount ds));
       dp_formula := np_formula ds; dp_data := np_data ds |} in
  let data := reformat <$> data in
  atomic (
    (* Remove existing values *)
    DatabaseParameter_delete database ;;;
    for_ (slices (length data) data) DatabaseParameter_insert_many ;;;
    let! g := Group_get_or_create database in
    Group_expire database g ;;;
    DatabaseParameter_recalculate database).

Definition ParameterManager_new_activity_parameters (fuel : nat)
    (data : list NewActivityParameter) (group : string) : Py unit :=
  let! σ := get in
  let database : gset string := list_to_set (nap_database <$> data) in
  assert (bool_decide (size database = 1)) "Multiple databases" ;;;
  assert (forallb (λ db, bool_decide (db ∈ databases σ)) (take 1 (elements database)))
    "Unknown database" ;;;
  let names : gset string := list_to_set (nap_name <$> data) in
  assert (bool_decide (size names = length data)) "Nonunique names" ;;;
  Group_get_or_create group ;;;
  let reformat := λ ds,
    {| ap_group := group; ap_database := nap_database ds;
       ap_code := nap_code ds; ap_name := nap_name ds;
       ap_formula := nap_formula ds;
       ap_amount := Some (default zero (nap_amount ds));
       ap_data := nap_data ds |} in
  let data := reformat <$> data in
  atomic (
    (* Remove existing values *)
    ActivityParameter_delete (λ o, bool_decide (ap_group o = group)) ;;;
    for_ (slices (length data) data) ActivityParameter_insert_many ;;;
    let! g := Group_get_or_create group in
    Group_expire group g ;;;
    ActivityParameter_recalculate fuel group).

(** [ParameterManager.recalculate].  The query over the stale groups is
    not run to its end before the loop starts: the cursor fetches one row
    at a time while the body runs.  So the rows of the table are walked in
    the order of [scan], and a row is handed to the body when its flag is
    cleared at the moment the cursor reaches it: a group that a
    recalculation earlier in the loop has expired is still visited when
    its row comes later, and not when its row came earlier. *)
Definition ParameterManager_recalculate (fuel : nat) : Py unit :=
  let! σ := get in
  (if ProjectParameter_expired σ then ProjectParameter_recalculate else ret tt) ;;;
  for_ (databases σ) (λ db,
    let! σ := get in
    if DatabaseParameter_expired σ db then DatabaseParameter_recalculate db
    else ret tt) ;;;
  let! σ := get in
  for_ (scan (group_table σ)) (λ name,
    let! σ := get in
    match group_table σ !! name with
    | Some obj =>
        if fresh obj then ret tt else
        (* Shouldn't be possible? Maybe concurrent access? *)
        if bool_decide (name ∈ databases σ) || bool_decide (name = "project")
        then ret tt
        else ActivityParameter_recalculate fuel name
    | None => ret tt
    end).

(** [ProjectParameter.create] of one row: [save] expires the project group,
    then the row is inserted. *)
Definition ProjectParameter_create (o : ProjectParameter) : Py unit :=
  let! g := Group_get_or_create "project" in
  Group_expire "project" g ;;;
  ProjectParameter_insert o.

(** [DatabaseParameter.create] of one row, through [DatabaseParameter.save]. *)
Definition DatabaseParameter_create (o : DatabaseParameter) : Py unit :=
  let! g := Group_get_or_create (dp_database o) in
  Group_expire (dp_database o) g ;;;
  DatabaseParameter_insert o.

(** [ParameterManager.__len__] *)
Definition ParameterManager_len (σ : Store) : nat :=
  length (databaseparameter σ) + length (projectparameter σ) +
  length (activityparameter σ).


End model.

(** * Vocabulary of the specification *)

Section vocabulary.
Context `{Evaluator} `{TableScan}.

(** The group [name] is registered and its flag is set. *)
Definition is_fresh (σ : Store) (name : string) : Prop :=
  ∃ g, group_table σ !! name = Some g ∧ fresh g = true.

(** The group [name] is registered and its flag is cleared. *)
Definition is_stale (σ : Store) (name : string) : Prop :=
  ∃ g, group_table σ !! name = Some g ∧ fresh g = false.

(** Rows of one bulk input that name two different databases. *)
Definition names_two_databases (data : list NewActivityParameter) : Prop :=
  ∃ a b, a ∈ data ∧ b ∈ data ∧ nap_database a ≠ nap_database b.

(** Rows of one bulk input that name a database that is not registered. *)
Definition names_unknown_database (σ : Store) (data : list NewActivityParameter)
  : Prop :=
  ∃ a, a ∈ data ∧ nap_database a ∉ databases σ.

(** The free symbols of an activity group: the names its formulas mention
    that are neither evaluator built-ins nor parameters of the group. *)
Definition free_symbols (σ : Store) (group : string) : Exception + gset string :=
  let data := ActivityParameter_load σ group in
  get_new_symbols (map_to_list data).*2 (dom data).

(** The free symbols of the parameters of a database. *)
Definition database_free_symbols (σ : Store) (database : string)
  : Exception + gset string :=
  let data := DatabaseParameter_load σ database in
  get_new_symbols (map_to_list data).*2 (dom data).

(** The parameter names a scope defines. *)
Definition defined_in (σ : Store) (s : Kind * string) : gset string :=
  match s.1 with
  | kind_activity => list_to_set (ap_name <$> ActivityParameter_select σ s.2)
  | kind_database => list_to_set (dp_name <$> DatabaseParameter_select σ s.2)
  | kind_project => list_to_set (pp_name <$> projectparameter σ)
  end.

(** Where the free symbols of [group] are looked for, in priority order:
    the sibling groups of its [order], the database that owns the group,
    the project. *)
Definition search_path (σ : Store) (group : string) : list (Kind * string) :=
  match group_table σ !! group, ActivityParameter_select σ group with
  | Some g, o :: _ =>
      ((λ sibling, (kind_activity, sibling)) <$> order g) ++
      [(kind_database, ap_database o); (kind_project, "project")]
  | _, _ => []
  end.

(** The first scope of [path] that defines [x]. *)
Definition resolved_at (σ : Store) (path : list (Kind * string)) (x : string)
  : option (Kind * string) :=
  head (filter (λ s, x ∈ defined_in σ s) path).

(** Every name some scope of [path] defines. *)
Definition searched (σ : Store) (path : list (Kind * string)) : gset string :=
  ⋃ (defined_in σ <$> path).

Definition ce_key (e : ChainEntry) : Kind * string := (ce_kind e, ce_group e).


(** [static] of the model class behind a scope. *)
Definition scope_static (σ : Store) (s : Kind * string)
    (only : option (gset string)) : gmap string (option Amount) :=
  match s.1 with
  | kind_activity => ActivityParameter_static σ s.2 only
  | kind_database => DatabaseParameter_static σ s.2 only
  | kind_project => ProjectParameter_static σ only
  end.

(** The search steps of [dependency_chain] along a path of scopes. *)
Definition search (σ : Store) (path : list (Kind * string))
    (st : gset string * list ChainEntry) : gset string * list ChainEntry :=
  foldl (λ st s, take_names s.1 s.2 (scope_static σ s (Some st.1)) st) st path.


(** What holds of the state of the search once [path] has been walked. *)
Definition search_inv σ (needed : gset string) path (st : gset string * list ChainEntry) : Prop :=
  st.1 = needed ∖ searched σ path ∧
  (∀ e, e ∈ st.2 → ce_names e ≠ ∅ ∧
     ∀ x, x ∈ ce_names e ↔ x ∈ needed ∧ resolved_at σ path x = Some (ce_key e)) ∧
  sublist (ce_key <$> st.2) path ∧
  NoDup (ce_key <$> st.2) ∧
  (∀ x s, x ∈ needed → resolved_at σ path x = Some s →
     ∃ e, e ∈ st.2 ∧ ce_key e = s).

(** The computation never raises [MissingName]. *)
Definition quiet {A} (m : Py A) : Prop :=
  ∀ σ e σ', m σ = Raise e σ' → ∀ names, e ≠ MissingName names.


(** The first step of [DatabaseParameter.recalculate]: the project scope
    is recalculated when it is expired, and that returns with [σ1]. *)
Definition project_brought_up_to_date (σ σ1 : Store) : Prop :=
  (if ProjectParameter_expired σ then ProjectParameter_recalculate else ret tt) σ
    = Ok tt σ1.


(** [mapping[row['kind']].recalculate(row['group'])] *)
Definition recalculate_row (fuel : nat) (row : ChainEntry) : Py unit :=
  match ce_kind row with
  | kind_project => ProjectParameter_recalculate
  | kind_database => DatabaseParameter_recalculate (ce_group row)
  | kind_activity => ActivityParameter_recalculate fuel (ce_group row)
  end.

(** *** Frames *)

(** Whatever the outcome of [m], returned or raised, the store it leaves is
    related to the store it started from. *)
Definition throughout {A} (R : Store → Store → Prop) (m : Py A) : Prop :=
  ∀ σ, match m σ with
       | Ok _ σ' | Raise _ σ' => R σ σ'
       | OutOfFuel => True
       end.

(** The relation survives the rollback of a failed atomic block. *)
Definition rollback_stable (R : Store → Store → Prop) : Prop :=
  ∀ σ σ1, R σ σ1 → R σ (rollback σ σ1).

(** The columns of a parameter row other than [amount]. *)
Definition pp_key (o : ProjectParameter) := (pp_name o, pp_formula o, pp_data o).
Definition dp_key (o : DatabaseParameter) :=
  (dp_database o, dp_name o, dp_formula o, dp_data o).
Definition ap_key (o : ActivityParameter) :=
  (ap_group o, ap_database o, ap_code o, ap_name o, ap_formula o, ap_data o).

(** Between [σ] and [σ'] no parameter row was added, removed or reordered
    and none changed in a column other than [amount]; the parameterized
    exchanges, the registered databases, the activities and the clock are
    the same. *)
Definition only_amounts (σ σ' : Store) : Prop :=
  pp_key <$> projectparameter σ' = pp_key <$> projectparameter σ ∧
  dp_key <$> databaseparameter σ' = dp_key <$> databaseparameter σ ∧
  ap_key <$> activityparameter σ' = ap_key <$> activityparameter σ ∧
  parameterizedexchange σ' = parameterizedexchange σ ∧
  databases σ' = databases σ ∧ activities σ' = activities σ ∧
  now σ' = now σ.

(** No edge from a group to itself and no pair of opposite edges. *)
Definition no_direct_cycle (edges : gset (string * string)) : Prop :=
  ∀ a b, (a, b) ∈ edges → a ≠ b ∧ (b, a) ∉ edges.

(** What a recalculation may do to the store. *)
Definition recalculation_frame (σ σ' : Store) : Prop :=
  only_amounts σ σ' ∧
  dom (group_table σ) ⊆ dom (group_table σ') ∧
  dirty σ ⊆ dirty σ' ∧
  (no_direct_cycle (groupdependency σ) → no_direct_cycle (groupdependency σ')).

(** A recalculation frame that sets no dirty flag. *)
Definition quiet_frame (σ σ' : Store) : Prop :=
  recalculation_frame σ σ' ∧ dirty σ' = dirty σ.

(** Everything outside [parameters.db] is the same. *)
Definition same_world (σ σ' : Store) : Prop :=
  databases σ' = databases σ ∧ dirty σ' = dirty σ ∧
  activities σ' = activities σ ∧ now σ' = now σ.

(** The six tables of [parameters.db] are the same. *)
Definition same_tables (σ σ' : Store) : Prop :=
  projectparameter σ' = projectparameter σ ∧
  databaseparameter σ' = databaseparameter σ ∧
  activityparameter σ' = activityparameter σ ∧
  parameterizedexchange σ' = parameterizedexchange σ ∧
  group_table σ' = group_table σ ∧
  groupdependency σ' = groupdependency σ.


(** The run of [m] from [σ] returns or raises, and leaves the store [σ']. *)
Definition ends_in {A} (m : Py A) (σ σ' : Store) : Prop :=
  (∃ a, m σ = Ok a σ') ∨ (∃ e, m σ = Raise e σ').

(** One of the four [recalculate] entry points. *)
Inductive Recalculation :=
  | sweep (fuel : nat)
  | of_activity_group (fuel : nat) (group : string)
  | of_database (database : string)
  | of_project.

Definition run_recalculation (r : Recalculation) : Py unit :=
  match r with
  | sweep fuel => ParameterManager_recalculate fuel
  | of_activity_group fuel group => ActivityParameter_recalculate fuel group
  | of_database database => DatabaseParameter_recalculate database
  | of_project => ProjectParameter_recalculate
  end.


(** Some formula of [data] mentions the name [x]. *)
Definition mentions (data : list ParamDict) (x : string) : Prop :=
  ∃ ds f names, ds ∈ data ∧ pd_formula ds = Some f ∧
                NameFinder f = Some names ∧ x ∈ names.

(** Every formula of [data] parses. *)
Definition all_parse (data : list ParamDict) : Prop :=
  ∀ ds f, ds ∈ data → pd_formula ds = Some f → is_Some (NameFinder f).


(** The registered databases, the activities and the clock are the same and
    no dirty flag was cleared. *)
Definition world_grows (σ σ' : Store) : Prop :=
  databases σ' = databases σ ∧ activities σ' = activities σ ∧
  now σ' = now σ ∧ dirty σ ⊆ dirty σ'.

(** The constraints of the three parameter tables: their unique indexes,
    their [CHECK] constraints and what the two triggers of
    [activityparameter] keep (a group does not cross databases, an activity
    is not in two groups). *)
Definition activity_schema (rows : list ActivityParameter) : Prop :=
  NoDup ((λ o, (ap_group o, ap_name o)) <$> rows) ∧
  (∀ o, o ∈ rows → ap_group o ≠ "project" ∧ ap_group o ≠ ap_database o) ∧
  (∀ a b, a ∈ rows → b ∈ rows →
     ap_group a = ap_group b → ap_database a = ap_database b) ∧
  (∀ a b, a ∈ rows → b ∈ rows →
     ap_database a = ap_database b → ap_code a = ap_code b →
     ap_group a = ap_group b).

Definition schema (σ : Store) : Prop :=
  NoDup (pp_name <$> projectparameter σ) ∧
  NoDup ((λ o, (dp_database o, dp_name o)) <$> databaseparameter σ) ∧
  (∀ o, o ∈ databaseparameter σ → dp_database o ≠ "project") ∧
  activity_schema (activityparameter σ).

Definition keeps_schema (σ σ' : Store) : Prop := schema σ → schema σ'.

(** The entry points that write parameter rows. *)
Inductive Write :=
  | new_project_parameters (data : list NewParameter)
  | new_database_parameters (data : list NewParameter) (database : string)
  | new_activity_parameters (fuel : nat) (data : list NewActivityParameter)
      (group : string)
  | add_to_group (group : string) (key : string * string)
  | create_project_parameter (o : ProjectParameter)
  | create_database_parameter (o : DatabaseParameter)
  | create_activity_parameter (o : ActivityParameter).

Definition run_write (w : Write) : Py unit :=
  match w with
  | new_project_parameters data => ParameterManager_new_project_parameters data
  | new_database_parameters data database =>
      ParameterManager_new_database_parameters data database
  | new_activity_parameters fuel data group =>
      ParameterManager_new_activity_parameters fuel data group
  | add_to_group group key => ParameterManager_add_to_group group key ;;; ret tt
  | create_project_parameter o => ProjectParameter_create o
  | create_database_parameter o => DatabaseParameter_create o
  | create_activity_parameter o => ActivityParameter_create o
  end.


(** Apart from the group table and the parameter table of kind [k], [σ']
    is [σ]. *)
Definition table_only (k : Kind) (σ σ' : Store) : Prop :=
  (k ≠ kind_project → projectparameter σ' = projectparameter σ) ∧
  (k ≠ kind_database → databaseparameter σ' = databaseparameter σ) ∧
  (k ≠ kind_activity → activityparameter σ' = activityparameter σ) ∧
  parameterizedexchange σ' = parameterizedexchange σ ∧
  groupdependency σ' = groupdependency σ ∧
  same_world σ σ'.

(** What a recalculation of the project scope may write: amounts of
    project parameters and rows of the group table. *)
Definition project_frame (σ σ' : Store) : Prop :=
  table_only kind_project σ σ' ∧
  pp_key <$> projectparameter σ' = pp_key <$> projectparameter σ.

(** The scope of [database] and the project scope above it: apart from
    the group table, what may differ are amounts of project parameters,
    the rows of [database] and the edge from [database] to the project
    group. *)
Definition database_scope (database : string) (σ σ' : Store) : Prop :=
  pp_key <$> projectparameter σ' = pp_key <$> projectparameter σ ∧
  filter (λ o, dp_database o ≠ database) (databaseparameter σ') =
    filter (λ o, dp_database o ≠ database) (databaseparameter σ) ∧
  activityparameter σ' = activityparameter σ ∧
  parameterizedexchange σ' = parameterizedexchange σ ∧
  (∀ e, e ≠ (database, "project") →
     e ∈ groupdependency σ' ↔ e ∈ groupdependency σ) ∧
  same_world σ σ'.

(** What a recalculation of the scope of [database] may write: within
    the scope, no database parameter is added, removed or reordered, and
    none changes in a column other than [amount]. *)
Definition database_frame (database : string) (σ σ' : Store) : Prop :=
  database_scope database σ σ' ∧
  dp_key <$> databaseparameter σ' = dp_key <$> databaseparameter σ.


(** The group that owns the row a [create] writes. *)
Definition created_in (w : Write) : option string :=
  match w with
  | create_project_parameter _ => Some "project"
  | create_database_parameter o => Some (dp_database o)
  | create_activity_parameter o => Some (ap_group o)
  | _ => None
  end.

(** A group that is stale stays stale. *)
Definition keeps_stale (name : string) (σ σ' : Store) : Prop :=
  is_stale σ name → is_stale σ' name.


(** The run of [m] ends, whatever the store it starts from: it does not
    depend on the fuel given to the recursion. *)
Definition terminates {A} (m : Py A) : Prop := ∀ σ, m σ ≠ OutOfFuel.


End vocabulary.

(** ** A small evaluator to run the model on concrete stores

    Amounts are integers and a formula is the name of one variable, whose
    value it takes: from the outer context [glo] when it is there, else
    from the amounts of [data]. *)

Global Instance toy_values : Values :=
  {| Amount := Z; Extra := unit; zero := 0%Z |}.

Definition toy_eval (data : gmap string ParamDict)
    (glo : option (gmap string (option Amount))) (ds : ParamDict)
  : option Amount :=
  match pd_formula ds with
  | None => Some (default 0%Z (pd_amount ds))
  | Some v =>
      match default ∅ glo !! v with
      | Some a => a
      | None => data !! v ≫= pd_amount
      end
  end.

Definition toy_evaluate (data : gmap string ParamDict)
    (glo : option (gmap string (option Amount)))
  : string + gmap string ParamDict :=
  if bool_decide (map_Forall (λ _ ds, is_Some (toy_eval data glo ds)) data) then
    inr ((λ ds, {| pd_database := pd_database ds; pd_code := pd_code ds;
                   pd_formula := pd_formula ds;
                   pd_amount := toy_eval data glo ds;
                   pd_data := pd_data ds |}) <$> data)
  else inl "undefined name".

(** The scan of the concrete stores below walks the rows in the order of
    their names, as when the groups were created in that order. *)
Definition name_le (x y : string) : Prop := String.leb x y = true.

Global Instance name_le_dec : RelDecision name_le.
Proof. intros x y. unfold name_le. apply _. Defined.

Global Instance toy_scan : TableScan :=
  {| scan := λ tab, merge_sort name_le (map_to_list tab).*1;
     scan_rows := λ tab, merge_sort_Permutation name_le (map_to_list tab).*1 |}.

Global Instance toy_evaluator : Evaluator :=
  {| symtable := {["pi"]};
     NameFinder := λ f, if bool_decide (f = "") then None else Some {[f]};
     evaluate_and_set_amount_field := toy_evaluate |}.

Definition stale_group : Group := {| fresh := false; updated := 0; order := [] |}.
Definition fresh_group : Group := {| fresh := true; updated := 0; order := [] |}.

(** ** Concrete stores *)

Definition bare_store (dbs : list string) : Store :=
  {| projectparameter := []; databaseparameter := []; activityparameter := [];
     parameterizedexchange := []; group_table := ∅; groupdependency := ∅;
     databases := dbs; dirty := ∅; activities := []; now := 7 |}.

(** An activity parameter of database [db1]. *)
Definition param (group name : string) (formula : option string)
    (amount : option Z) : ActivityParameter :=
  {| ap_group := group; ap_database := "db1"; ap_code := "act_" +:+ group;
     ap_name := name; ap_formula := formula; ap_amount := amount;
     ap_data := tt |}.

(** Group [A] is stale; group [B] is fresh and depends on [A]. *)
Definition downstream_store : Store :=
  set_group_table
    {["A" := stale_group; "B" := {| fresh := true; updated := 0; order := ["A"] |}]}
  (set_groupdependency {[("B", "A")]}
  (set_activityparameter
    [param "A" "x" None (Some 1%Z); param "B" "y" (Some "x") (Some 1%Z)]
  (bare_store ["db1"]))).

(** Group [grp] is stale, lists the sibling [sib] in its order and needs
    [a] and [b]: [a] is defined by [sib], by [db1] and by the project, [b]
    by [db1] and by the project. *)
Definition priority_store : Store :=
  set_group_table
    {["grp" := {| fresh := false; updated := 0; order := ["sib"] |};
      "sib" := fresh_group; "db1" := fresh_group; "project" := fresh_group]}
  (set_groupdependency {[("grp", "old")]}
  (set_activityparameter
    [param "grp" "x" (Some "a") None; param "grp" "z" (Some "b") None;
     param "sib" "a" None (Some 5%Z)]
  (set_databaseparameter
    [{| dp_database := "db1"; dp_name := "a"; dp_formula := None;
        dp_amount := Some 3%Z; dp_data := tt |};
     {| dp_database := "db1"; dp_name := "b"; dp_formula := None;
        dp_amount := Some 4%Z; dp_data := tt |}]
  (set_projectparameter
    [{| pp_name := "a"; pp_formula := None; pp_amount := Some 2%Z;
        pp_data := tt |};
     {| pp_name := "b"; pp_formula := None; pp_amount := Some 9%Z;
        pp_data := tt |}]
  (bare_store ["db1"]))))).

(** Group [grp] and database [db1] are stale and each mentions a name that
    nothing defines. *)
Definition missing_store : Store :=
  set_group_table {["grp" := stale_group; "db1" := stale_group]}
  (set_activityparameter [param "grp" "x" (Some "unknown_var") None]
  (set_databaseparameter
    [{| dp_database := "db1"; dp_name := "b"; dp_formula := Some "ghost";
        dp_amount := None; dp_data := tt |}]
  (bare_store ["db1"]))).

(** As [missing_store], but the group of [db1] is fresh. *)
Definition fresh_database_store : Store :=
  set_group_table {["db1" := fresh_group]} missing_store.

(** Every group is fresh. *)
Definition fresh_store : Store :=
  set_group_table
    {["project" := fresh_group; "db1" := fresh_group; "grp" := fresh_group]}
  (bare_store ["db1"]).

(** The project group is stale and has a parameter; [db1] has no group. *)
Definition stale_project_with_parameter : Store :=
  set_group_table {["project" := stale_group]}
  (set_projectparameter
    [{| pp_name := "a"; pp_formula := None; pp_amount := Some 2%Z;
        pp_data := tt |}]
  (bare_store ["db1"])).

(** The edges [A -> B -> C]. *)
Definition path_store : Store :=
  set_groupdependency {[("A", "B"); ("B", "C")]} (bare_store []).

(** An activity with one embedded parameter and one exchange that carries
    a formula. *)
Definition formula_activity : Activity :=
  {| act_database := "db1"; act_code := "act1";
     act_parameters := Some [{| ep_variable := "x"; ep_formula := None;
                                ep_amount := Some 1%Z; ep_data := tt |}];
     act_exchanges := [{| exc_id := 11; exc_formula := Some "x";
                          exc_amount := None |}] |}.

Definition formula_store : Store :=
  set_activities [formula_activity] (bare_store ["db1"]).

Definition duplicate_names : list NewParameter :=
  [{| np_name := "a"; np_amount := None; np_formula := None; np_data := tt |};
   {| np_name := "a"; np_amount := Some 1%Z; np_formula := None; np_data := tt |}].

Definition two_databases : list NewActivityParameter :=
  [{| nap_database := "db1"; nap_code := "c1"; nap_name := "a";
      nap_formula := None; nap_amount := None; nap_data := tt |};
   {| nap_database := "db2"; nap_code := "c2"; nap_name := "b";
      nap_formula := None; nap_amount := None; nap_data := tt |}].

(** Two entries for a bulk replacement: [a] is a constant, [b] takes the
    value of [a]. *)
Definition two_names : list NewParameter :=
  [{| np_name := "a"; np_amount := Some 1%Z; np_formula := None; np_data := tt |};
   {| np_name := "b"; np_amount := None; np_formula := Some "a"; np_data := tt |}].

(** One entry whose formula mentions a name that nothing defines. *)
Definition ghost_names : list NewParameter :=
  [{| np_name := "b"; np_amount := None; np_formula := Some "ghost";
      np_data := tt |}].

(** Two entries for the activity [(db1, c1)]. *)
Definition two_activity_names : list NewActivityParameter :=
  [{| nap_database := "db1"; nap_code := "c1"; nap_name := "a";
      nap_formula := None; nap_amount := Some 1%Z; nap_data := tt |};
   {| nap_database := "db1"; nap_code := "c1"; nap_name := "b";
      nap_formula := Some "a"; nap_amount := None; nap_data := tt |}].

Definition ghost_activity_names : list NewActivityParameter :=
  [{| nap_database := "db1"; nap_code := "c1"; nap_name := "x";
      nap_formula := Some "ghost"; nap_amount := None; nap_data := tt |}].

(** The project scope is up to date and defines [a]; the stale scope of
    [db1] has one parameter, whose formula is [a]. *)
Definition database_formula_store : Store :=
  set_group_table {["project" := fresh_group; "db1" := stale_group]}
  (set_databaseparameter
    [{| dp_database := "db1"; dp_name := "b"; dp_formula := Some "a";
        dp_amount := None; dp_data := tt |}]
  (set_projectparameter
    [{| pp_name := "a"; pp_formula := None; pp_amount := Some 2%Z;
        pp_data := tt |}]
  (bare_store ["db1"]))).

(** An activity with two embedded parameters and an exchange without a
    formula; it has a row in group [old] already. *)
Definition plain_activity : Activity :=
  {| act_database := "db1"; act_code := "act1";
     act_parameters :=
       Some [{| ep_variable := "x"; ep_formula := None;
                ep_amount := Some 1%Z; ep_data := tt |};
             {| ep_variable := "y"; ep_formula := Some "x";
                ep_amount := None; ep_data := tt |}];
     act_exchanges := [{| exc_id := 11; exc_formula := None;
                          exc_amount := Some 3%Z |}] |}.

Definition plain_store : Store :=
  set_activities [plain_activity]
  (set_group_table {["old" := fresh_group]}
  (set_activityparameter
    [{| ap_group := "old"; ap_database := "db1"; ap_code := "act1";
        ap_name := "w"; ap_formula := None; ap_amount := Some 8%Z;
        ap_data := tt |}]
  (bare_store ["db1"]))).

(** Group [grp] is stale and has no parameter. *)
Definition empty_group_store : Store :=
  set_group_table {["grp" := stale_group]} (bare_store ["db1"]).


(** A second project parameter of the name [a]. *)
Definition second_a : ProjectParameter :=
  {| pp_name := "a"; pp_formula := None; pp_amount := None; pp_data := tt |}.

(** As [priority_store], with a third formula whose symbol [c] only the
    project defines. *)
Definition three_scope_store : Store :=
  set_activityparameter
    [param "grp" "x" (Some "a") None; param "grp" "z" (Some "b") None;
     param "grp" "w" (Some "c") None; param "sib" "a" None (Some 5%Z)]
  (set_projectparameter
    [{| pp_name := "a"; pp_formula := None; pp_amount := Some 2%Z;
        pp_data := tt |};
     {| pp_name := "b"; pp_formula := None; pp_amount := Some 9%Z;
        pp_data := tt |};
     {| pp_name := "c"; pp_formula := None; pp_amount := Some 7%Z;
        pp_data := tt |}]
  priority_store).

Definition three_scope_chain : list ChainEntry :=
  [{| ce_kind := kind_activity; ce_group := "sib"; ce_names := {["a"]} |};
   {| ce_kind := kind_database; ce_group := "db1"; ce_names := {["b"]} |};
   {| ce_kind := kind_project; ce_group := "project"; ce_names := {["c"]} |}].

(** As [missing_store], with every group fresh. *)
Definition fresh_missing_store : Store :=
  set_group_table {["grp" := fresh_group; "db1" := fresh_group]} missing_store.

(** An empty bulk input. *)
Definition no_names : list NewParameter := [].

(** One constant for the activity of group [grp]. *)
Definition constant_activity_names : list NewActivityParameter :=
  [{| nap_database := "db1"; nap_code := "act_grp"; nap_name := "x";
      nap_formula := None; nap_amount := Some 1%Z; nap_data := tt |}].

(** * Properties *)

Section properties.
Context {values : Values} {evaluator : Evaluator} {table_scan : TableScan}.

(** ** The computation monad *)

Lemma bind_Ok {A B} (m : Py A) (k : A → Py B) σ b σ'' :
  bind m k σ = Ok b σ'' ↔ ∃ a σ', m σ = Ok a σ' ∧ k a σ' = Ok b σ''.
Proof.
  unfold bind. split.
  - destruct (m σ) as [a σ'| |]; [eauto | done | done].
  - intros (a & σ' & -> & Hk). done.
Qed.

Lemma for_Ok_ind {A} (R : Store → Store → Prop) (xs : list A) (body : A → Py unit) :
  (∀ σ, R σ σ) →
  (∀ σ1 σ2 σ3, R σ1 σ2 → R σ2 σ3 → R σ1 σ3) →
  (∀ x σ σ', x ∈ xs → body x σ = Ok tt σ' → R σ σ') →
  ∀ σ σ', for_ xs body σ = Ok tt σ' → R σ σ'.
Proof.
  intros Hrefl Htrans. induction xs as [|x xs IH]; intros Hbody σ σ'; simpl.
  - intros [= ->]. apply Hrefl.
  - intros (u & σ1 & Hx & Hrest)%bind_Ok. destruct u.
    eapply Htrans.
    + eapply Hbody; [left | done].
    + eapply IH; [|done]. intros y ?? Hy. apply Hbody. by right.
Qed.

(** ** Expire-downstream *)

(** C5.  [expire_downstream(g)] never raises; it clears [fresh] on exactly
    the groups that have a dependency edge onto [g], keeps the other
    columns of every row and the flag of every other group, and leaves the
    parameter tables, the edges and everything else as they were. *)
Theorem expire_downstream_one_hop (g : string) (σ : Store) :
  ∃ σ', ParameterBase_expire_downstream g σ = Ok tt σ' ∧
    (∀ name, group_table σ' !! name =
       (λ r, if bool_decide ((name, g) ∈ groupdependency σ)
             then set_fresh false r else r) <$> group_table σ !! name) ∧
    (∀ name r', group_table σ' !! name = Some r' →
       ∃ r, group_table σ !! name = Some r ∧
            updated r' = updated r ∧ order r' = order r ∧
            ((name, g) ∈ groupdependency σ → fresh r' = false) ∧
            ((name, g) ∉ groupdependency σ → fresh r' = fresh r)) ∧
    projectparameter σ' = projectparameter σ ∧
    databaseparameter σ' = databaseparameter σ ∧
    activityparameter σ' = activityparameter σ ∧
    parameterizedexchange σ' = parameterizedexchange σ ∧
    groupdependency σ' = groupdependency σ ∧
    databases σ' = databases σ ∧ dirty σ' = dirty σ ∧
    activities σ' = activities σ ∧ now σ' = now σ.
Proof.
  eexists. split; [reflexivity|]. simpl.
  assert (Hlk : ∀ name,
    map_imap (λ name g0, Some (if bool_decide ((name, g) ∈ groupdependency σ)
                               then set_fresh false g0 else g0))
      (group_table σ) !! name =
    (λ r, if bool_decide ((name, g) ∈ groupdependency σ)
          then set_fresh false r else r) <$> group_table σ !! name).
  { intros name. rewrite map_lookup_imap. by destruct (group_table σ !! name). }
  split; [exact Hlk|]. split; [|done].
  intros name r'. rewrite Hlk.
  destruct (group_table σ !! name) as [r|]; [|done].
  intros [= <-]. exists r. split; [done|].
  case_bool_decide; simpl; naive_solver.
Qed.

(** ** The memoized skip *)

Lemma is_fresh_not_expired σ name :
  is_fresh σ name →
  DatabaseParameter_expired σ name = false ∧
  ActivityParameter_expired σ name = false.
Proof.
  intros (g & Hg & Hf).
  unfold DatabaseParameter_expired, ActivityParameter_expired.
  by rewrite Hg, Hf.
Qed.

Lemma ProjectParameter_recalculate_skip σ :
  ProjectParameter_expired σ = false → ProjectParameter_recalculate σ = Ok tt σ.
Proof.
  intros He. unfold ProjectParameter_recalculate, bind, get. by rewrite He.
Qed.

Lemma DatabaseParameter_recalculate_skip σ database :
  ProjectParameter_expired σ = false →
  DatabaseParameter_expired σ database = false →
  DatabaseParameter_recalculate database σ = Ok tt σ.
Proof.
  intros Hp Hd. unfold DatabaseParameter_recalculate, bind, get, ret.
  by rewrite Hp, Hd.
Qed.

Lemma ActivityParameter_recalculate_skip fuel σ group :
  ActivityParameter_expired σ group = false →
  ActivityParameter_recalculate fuel group σ = Ok tt σ.
Proof.
  intros He. destruct fuel; simpl; unfold bind, get; by rewrite He.
Qed.

(** C6.  When the project group and the group of the scope are fresh, each
    of the three [recalculate] entry points returns with the store it was
    given: no parameter amount, no group row (its [updated] column
    included) and no dependency edge is written. *)
Theorem recalculate_fresh_is_noop (σ : Store) (database group : string) (fuel : nat) :
  is_fresh σ "project" → is_fresh σ database → is_fresh σ group →
  ProjectParameter_recalculate σ = Ok tt σ ∧
  DatabaseParameter_recalculate database σ = Ok tt σ ∧
  ActivityParameter_recalculate fuel group σ = Ok tt σ.
Proof.
  intros Hp Hd Hg.
  assert (ProjectParameter_expired σ = false) as Hpe.
  { destruct Hp as (g & Hlk & Hf). unfold ProjectParameter_expired.
    by rewrite Hlk, Hf. }
  apply is_fresh_not_expired in Hd as [Hd _].
  apply is_fresh_not_expired in Hg as [_ Hg].
  split; [by apply ProjectParameter_recalculate_skip|].
  split; [by apply DatabaseParameter_recalculate_skip|].
  by apply ActivityParameter_recalculate_skip.
Qed.

(** C10, as the code has it.  A name with no row in [group_table] is not expired for
    any scope.  [ProjectParameter.recalculate] and
    [ActivityParameter.recalculate] then return with the store untouched;
    [DatabaseParameter.recalculate] does so when the project group is not
    expired either, since it brings the project scope up to date first. *)
Theorem recalculate_unregistered_group (σ : Store) (name : string) (fuel : nat) :
  group_table σ !! name = None →
  DatabaseParameter_expired σ name = false ∧
  ActivityParameter_expired σ name = false ∧
  (name = "project" →
     ProjectParameter_expired σ = false ∧
     ProjectParameter_recalculate σ = Ok tt σ) ∧
  ActivityParameter_recalculate fuel name σ = Ok tt σ ∧
  (ProjectParameter_expired σ = false →
     DatabaseParameter_recalculate name σ = Ok tt σ).
Proof.
  intros Hnone.
  assert (DatabaseParameter_expired σ name = false) as Hd
    by (unfold DatabaseParameter_expired; by rewrite Hnone).
  assert (ActivityParameter_expired σ name = false) as Ha
    by (unfold ActivityParameter_expired; by rewrite Hnone).
  split; [done|]. split; [done|]. split; [|split].
  - intros ->.
    assert (ProjectParameter_expired σ = false) as Hp
      by (unfold ProjectParameter_expired; by rewrite Hnone).
    split; [done|]. by apply ProjectParameter_recalculate_skip.
  - by apply ActivityParameter_recalculate_skip.
  - intros Hp. by apply DatabaseParameter_recalculate_skip.
Qed.

(** ** Validation of the bulk input *)

Lemma size_list_to_set_le (l : list string) :
  size (list_to_set l : gset string) ≤ length l.
Proof.
  induction l as [|x l IH].
  - rewrite list_to_set_nil, size_empty. done.
  - rewrite list_to_set_cons, size_union_alt, size_singleton. simpl.
    assert (size ((list_to_set l : gset string) ∖ {[x]}) ≤ size (list_to_set l : gset string))
      by (apply subseteq_size; set_solver).
    lia.
Qed.

Lemma size_list_to_set_NoDup (l : list string) :
  size (list_to_set l : gset string) = length l ↔ NoDup l.
Proof.
  split; [|apply size_list_to_set].
  induction l as [|x l IH]; [constructor|].
  rewrite list_to_set_cons. simpl.
  intros Hsz. pose proof (size_list_to_set_le l) as Hle.
  destruct (decide (x ∈ l)) as [Hin|Hnin].
  - assert ({[x]} ∪ (list_to_set l : gset string) = list_to_set l) as Heq
      by set_solver.
    rewrite Heq in Hsz. lia.
  - constructor; [done|]. apply IH.
    rewrite size_union, size_singleton in Hsz by set_solver. lia.
Qed.

Lemma assert_false msg σ : assert false msg σ = Raise (AssertionError msg) σ.
Proof. done. Qed.

Lemma new_project_parameters_nonunique σ data :
  ¬ NoDup (np_name <$> data) →
  ParameterManager_new_project_parameters data σ =
    Raise (AssertionError "Nonunique names") σ.
Proof.
  intros Hdup. unfold ParameterManager_new_project_parameters, bind.
  rewrite bool_decide_eq_false_2; [done|].
  rewrite <- (length_fmap np_name). by rewrite size_list_to_set_NoDup.
Qed.

Lemma new_database_parameters_invalid σ data database :
  database ∉ databases σ ∨ ¬ NoDup (np_name <$> data) →
  ∃ msg, ParameterManager_new_database_parameters data database σ =
    Raise (AssertionError msg) σ.
Proof.
  intros Hbad. unfold ParameterManager_new_database_parameters, bind, get.
  destruct (decide (database ∈ databases σ)) as [Hin|Hnin].
  - rewrite (bool_decide_eq_true_2 _ Hin). simpl.
    destruct Hbad as [?|Hdup]; [done|].
    rewrite bool_decide_eq_false_2; [by eexists|].
    rewrite <- (length_fmap np_name). by rewrite size_list_to_set_NoDup.
  - rewrite (bool_decide_eq_false_2 _ Hnin). by eexists.
Qed.

Lemma new_activity_parameters_invalid σ fuel data group :
  names_two_databases data ∨ names_unknown_database σ data ∨
    ¬ NoDup (nap_name <$> data) →
  ∃ msg, ParameterManager_new_activity_parameters fuel data group σ =
    Raise (AssertionError msg) σ.
Proof.
  intros Hbad. unfold ParameterManager_new_activity_parameters, bind, get.
  set (dbs := list_to_set (nap_database <$> data) : gset string).
  destruct (decide (size dbs = 1)) as [Hone|Hne]; cycle 1.
  { rewrite (bool_decide_eq_false_2 _ Hne). by eexists. }
  rewrite (bool_decide_eq_true_2 _ Hone). simpl.
  apply size_1_elem_of in Hone as [db Hdb]. apply leibniz_equiv in Hdb.
  assert (∀ a, a ∈ data → nap_database a = db) as Hall.
  { intros a Ha. assert (nap_database a ∈ dbs) as Hin.
    { unfold dbs. rewrite elem_of_list_to_set. by apply list_elem_of_fmap_2. }
    rewrite Hdb in Hin. set_solver. }
  rewrite Hdb, elements_singleton. simpl.
  destruct (decide (db ∈ databases σ)) as [Hin|Hnin]; cycle 1.
  { rewrite (bool_decide_eq_false_2 _ Hnin). by eexists. }
  rewrite (bool_decide_eq_true_2 _ Hin). simpl.
  destruct Hbad as [(a & b & Ha & Hb & Hab)|[(a & Ha & Hun)|Hdup]].
  - rewrite (Hall a Ha), (Hall b Hb) in Hab. done.
  - rewrite (Hall a Ha) in Hun. done.
  - rewrite bool_decide_eq_false_2; [by eexists|].
    rewrite <- (length_fmap nap_name). by rewrite size_list_to_set_NoDup.
Qed.

(** C8.  A bulk replace whose input fails validation (duplicate names in
    the batch, a database that is not registered, activity rows that name
    more than one database) raises its assertion with the store exactly as
    it was: the parameters of the scope, its group row and its dependency
    edges have not been touched. *)
Theorem bulk_replace_validates_before_mutation (σ : Store) (fuel : nat)
    (pdata ddata : list NewParameter) (database : string)
    (adata : list NewActivityParameter) (group : string) :
  ¬ NoDup (np_name <$> pdata) →
  database ∉ databases σ ∨ ¬ NoDup (np_name <$> ddata) →
  names_two_databases adata ∨ names_unknown_database σ adata ∨
    ¬ NoDup (nap_name <$> adata) →
  (∃ msg, ParameterManager_new_project_parameters pdata σ =
            Raise (AssertionError msg) σ) ∧
  (∃ msg, ParameterManager_new_database_parameters ddata database σ =
            Raise (AssertionError msg) σ) ∧
  (∃ msg, ParameterManager_new_activity_parameters fuel adata group σ =
            Raise (AssertionError msg) σ).
Proof.
  intros Hp Hd Ha. split; [|split].
  - eexists. by apply new_project_parameters_nonunique.
  - by apply new_database_parameters_invalid.
  - by apply new_activity_parameters_invalid.
Qed.

(** ** Resolution of free symbols *)

Lemma dom_dict {V} (pairs : list (string * V)) :
  dom (dict pairs) = list_to_set pairs.*1.
Proof.
  unfold dict. rewrite dom_list_to_map_L, fmap_reverse.
  apply set_eq. intros x. rewrite !elem_of_list_to_set, elem_of_reverse. done.
Qed.

Lemma dom_restrict {V} (names : gset string) (m : gmap string V) :
  dom (restrict (Some names) m) = names ∩ dom m.
Proof.
  unfold restrict. apply dom_filter_L. intros i.
  rewrite elem_of_intersection, elem_of_dom. unfold is_Some. naive_solver.
Qed.

Lemma dom_scope_static σ s needed :
  dom (scope_static σ s (Some needed)) = needed ∩ defined_in σ s.
Proof.
  unfold scope_static, defined_in, ActivityParameter_static,
    DatabaseParameter_static, ProjectParameter_static.
  destruct s as [[] g]; cbn [fst snd]; rewrite dom_restrict, dom_dict;
    by rewrite <- list_fmap_compose.
Qed.

Lemma search_snoc σ path s st :
  search σ (path ++ [s]) st =
  take_names s.1 s.2 (scope_static σ s (Some (search σ path st).1)) (search σ path st).
Proof. unfold search. by rewrite foldl_app. Qed.

Lemma searched_snoc σ path s :
  searched σ (path ++ [s]) = searched σ path ∪ defined_in σ s.
Proof.
  unfold searched. rewrite fmap_app, union_list_app_L. simpl. set_solver.
Qed.

Lemma resolved_at_snoc σ path s x :
  resolved_at σ (path ++ [s]) x =
  match resolved_at σ path x with
  | Some o => Some o
  | None => if decide (x ∈ defined_in σ s) then Some s else None
  end.
Proof.
  unfold resolved_at. rewrite filter_app.
  destruct (filter _ path) as [|o l] eqn:E; simpl.
  - rewrite filter_cons, filter_nil. by case_decide.
  - done.
Qed.

Lemma resolved_at_None σ path x :
  resolved_at σ path x = None ↔ x ∉ searched σ path.
Proof.
  induction path as [|s path IH] using rev_ind.
  - unfold resolved_at, searched. simpl. set_solver.
  - rewrite resolved_at_snoc, searched_snoc.
    destruct (resolved_at σ path x) eqn:E.
    + split; [done|]. intros Hn. assert (x ∉ searched σ path) as Hn' by set_solver.
      apply IH in Hn'. done.
    + case_decide; split; try done; set_solver.
Qed.

Lemma resolved_at_Some σ path x s :
  resolved_at σ path x = Some s → s ∈ path ∧ x ∈ defined_in σ s.
Proof.
  unfold resolved_at. intros Hh. apply head_Some_elem_of in Hh.
  by apply list_elem_of_filter in Hh as [? ?].
Qed.

Lemma search_spec σ needed path :
  search_inv σ needed path (search σ path (needed, [])).
Proof.
  induction path as [|s path IH] using rev_ind.
  - unfold search_inv, search, searched. simpl. split; [set_solver|].
    split; [intros e He; by apply elem_of_nil in He|].
    split; [constructor|]. split; [constructor|]. done.
  - rewrite search_snoc. destruct (search σ path (needed, [])) as [n c].
    destruct IH as (Hn & Hc & Hsub & Hnd & Hall). simpl in *.
    unfold take_names. rewrite dom_scope_static. simpl.
    unfold search_inv. simpl.
    split; [rewrite searched_snoc; set_solver|].
    assert (Hold : ∀ e, e ∈ c → ce_names e ≠ ∅ ∧
      ∀ x, x ∈ ce_names e ↔
        x ∈ needed ∧ resolved_at σ (path ++ [s]) x = Some (ce_key e)).
    { intros e He. destruct (Hc e He) as [Hne Hx]. split; [done|].
      intros x. rewrite Hx, resolved_at_snoc.
      destruct (resolved_at σ path x) eqn:E; [done|].
      split; [naive_solver|]. intros [Hin Hs]. case_decide; [|done].
      injection Hs as ->. exfalso.
      apply set_choose_L in Hne as [y Hy]. apply Hx in Hy as [_ Hy].
      apply resolved_at_Some in Hy as [Hy _].
      apply resolved_at_None in E. apply E. unfold searched.
      apply elem_of_union_list. exists (defined_in σ (ce_key e)).
      split; [by apply list_elem_of_fmap_2|done]. }
    case_bool_decide as Hemp.
    + split; [done|]. split; [by apply sublist_inserts_r|]. split; [done|].
      intros x s' Hx. rewrite resolved_at_snoc.
      destruct (resolved_at σ path x) as [o|] eqn:E.
      * intros [= <-]. by eapply Hall.
      * case_decide as Hd; [|done]. exfalso.
        apply resolved_at_None in E. set_solver.
    + assert (Hnew : ∀ x, x ∈ n ∩ defined_in σ s ↔
        x ∈ needed ∧ resolved_at σ (path ++ [s]) x = Some s).
      { intros x. rewrite resolved_at_snoc, elem_of_intersection, Hn,
          elem_of_difference, <- resolved_at_None.
        destruct (resolved_at σ path x) as [o|] eqn:E.
        - split; [naive_solver|]. intros [Hin [= ->]]. exfalso.
          apply resolved_at_Some in E as [Hs Hd]. apply Hemp.
          apply set_eq. intros y. rewrite Hn. split; [|set_solver].
          intros Hy. exfalso.
          apply elem_of_intersection in Hy as [Hy1 Hy2].
          apply elem_of_difference in Hy1 as [_ Hy1]. apply Hy1.
          unfold searched. apply elem_of_union_list.
          exists (defined_in σ s). split; [by apply list_elem_of_fmap_2|done].
        - case_decide; naive_solver. }
      split; [|split; [|split]].
      * intros e [He|He]%elem_of_app; [by apply Hold|].
        apply list_elem_of_singleton in He as ->. simpl. split; [done|].
        unfold ce_key. simpl. by destruct s.
      * rewrite fmap_app. simpl. apply sublist_app; [done|].
        unfold ce_key. simpl. by destruct s.
      * rewrite fmap_app. apply NoDup_app. split; [done|]. split.
        -- intros k Hk Hk'. apply list_elem_of_singleton in Hk'.
           apply list_elem_of_fmap in Hk as (e & -> & He).
           unfold ce_key in Hk' at 2. simpl in Hk'.
           assert (ce_key e = s) as Hes by (rewrite Hk'; by destruct s).
           destruct (Hc e He) as [Hne Hx].
           apply set_choose_L in Hne as [y Hy]. apply Hx in Hy as [_ Hy].
           apply resolved_at_Some in Hy as [Hy Hd]. rewrite Hes in Hy, Hd.
           apply Hemp. apply set_eq. intros z. rewrite Hn. split; [|set_solver].
           intros Hz. exfalso.
           apply elem_of_intersection in Hz as [Hz1 Hz2].
           apply elem_of_difference in Hz1 as [_ Hz1]. apply Hz1.
           unfold searched. apply elem_of_union_list.
           exists (defined_in σ s). split; [by apply list_elem_of_fmap_2|done].
        -- apply NoDup_singleton.
      * intros x s' Hx. rewrite resolved_at_snoc.
        destruct (resolved_at σ path x) as [o|] eqn:E.
        -- intros [= <-]. destruct (Hall x o Hx E) as (e & He & Hk).
           exists e. split; [|done]. apply elem_of_app. by left.
        -- case_decide as Hd; [|done]. intros [= <-].
           eexists. split; [apply elem_of_app; right; by apply list_elem_of_singleton|].
           unfold ce_key. simpl. by destruct s.
Qed.

Lemma search_app σ p1 p2 st :
  search σ (p1 ++ p2) st = search σ p2 (search σ p1 st).
Proof. unfold search. by rewrite foldl_app. Qed.

Lemma search_two σ k1 g1 k2 g2 st :
  search σ [(k1, g1); (k2, g2)] st =
  take_names k2 g2
    (scope_static σ (k2, g2)
       (Some (take_names k1 g1 (scope_static σ (k1, g1) (Some st.1)) st).1))
    (take_names k1 g1 (scope_static σ (k1, g1) (Some st.1)) st).
Proof. done. Qed.

Lemma search_order_search σ order st :
  search_order σ order st =
  search σ ((λ sibling, (kind_activity, sibling)) <$> order) st.
Proof.
  revert st. induction order as [|g order IH]; intros st; [done|].
  simpl. by rewrite IH.
Qed.

Lemma take_names_empty σ k g (st : gset string * list ChainEntry) :
  st.1 = ∅ → take_names k g (scope_static σ (k, g) (Some st.1)) st = st.
Proof.
  intros Hemp. unfold take_names. rewrite dom_scope_static, Hemp.
  destruct st as [n c]. simpl in *. subst n.
  rewrite bool_decide_eq_true_2 by set_solver. f_equal. set_solver.
Qed.

Lemma size_dict_0 {V} (pairs : list (string * V)) :
  size (dict pairs) = 0 ↔ pairs = [].
Proof.
  rewrite map_size_empty_iff. split.
  - intros Hd. destruct pairs as [|[k v] pairs]; [done|]. exfalso.
    assert (k ∈ dom (dict ((k, v) :: pairs))) as Hin
      by (rewrite dom_dict; set_solver).
    rewrite Hd, dom_empty_L in Hin. set_solver.
  - by intros ->.
Qed.

Lemma ActivityParameter_load_empty σ group :
  size (ActivityParameter_load σ group) = 0 ↔ ActivityParameter_select σ group = [].
Proof.
  unfold ActivityParameter_load. rewrite size_dict_0.
  split; [apply fmap_nil_inv | by intros ->].
Qed.

(** [dependency_chain] once past its two early returns. *)
Lemma dependency_chain_search σ group needed g :
  size (ActivityParameter_load σ group) ≠ 0 →
  free_symbols σ group = inr needed → needed ≠ ∅ →
  group_table σ !! group = Some g →
  ActivityParameter_dependency_chain σ group =
    let st := search σ (search_path σ group) (needed, []) in
    if bool_decide (st.1 = ∅) then inr st.2 else inl (MissingName st.1).
Proof.
  intros Hdata Hfree Hneeded Hg. unfold ActivityParameter_dependency_chain.
  rewrite (bool_decide_eq_false_2 _ Hdata).
  unfold free_symbols in Hfree. simpl in Hfree. rewrite Hfree.
  rewrite (bool_decide_eq_false_2 _ Hneeded), Hg.
  unfold search_path, ActivityParameter_get. rewrite Hg.
  rewrite ActivityParameter_load_empty in Hdata.
  destruct (ActivityParameter_select σ group) as [|o rows]; [done|].
  cbv zeta. rewrite search_app, <- search_order_search.
  set (st := search_order σ _ (needed, [])).
  rewrite search_two. unfold scope_static. cbn [fst snd].
  pose proof (take_names_empty σ kind_database (ap_database o) st) as Edb.
  pose proof (take_names_empty σ kind_project "project") as Epr.
  unfold scope_static in Edb, Epr. cbn [fst snd] in Edb, Epr.
  destruct (decide (st.1 = ∅)) as [Hst|Hst].
  - rewrite (bool_decide_eq_true_2 _ Hst), (Edb Hst), (Epr st Hst).
    by rewrite !(bool_decide_eq_true_2 _ Hst).
  - rewrite (bool_decide_eq_false_2 _ Hst). set (st' := take_names kind_database _ _ st).
    destruct (decide (st'.1 = ∅)) as [Hst'|Hst'].
    + rewrite (bool_decide_eq_true_2 _ Hst'), (Epr st' Hst').
      by rewrite (bool_decide_eq_true_2 _ Hst').
    + by rewrite (bool_decide_eq_false_2 _ Hst').
Qed.

(** C2.  For an activity group with parameters and free symbols,
    [dependency_chain] returns a chain exactly when the group is registered
    and every free symbol is defined somewhere on the search path: the
    sibling groups of [order] in that order, then the owning database, then
    the project.  The chain it returns resolves every free symbol at the
    first scope of the path that defines it: the names of a chain row are
    exactly the free symbols resolved at its scope, every free symbol is in
    a row, the rows follow the search path (discovery order), and no free
    symbol is in two rows. *)
Theorem dependency_chain_first_match_wins (σ : Store) (group : string)
    (needed : gset string) :
  size (ActivityParameter_load σ group) ≠ 0 →
  free_symbols σ group = inr needed → needed ≠ ∅ →
  ((∃ chain, ActivityParameter_dependency_chain σ group = inr chain) ↔
   is_Some (group_table σ !! group) ∧
   needed ⊆ searched σ (search_path σ group)) ∧
  ∀ chain, ActivityParameter_dependency_chain σ group = inr chain →
    (∀ e x, e ∈ chain →
       x ∈ ce_names e ↔
       x ∈ needed ∧ resolved_at σ (search_path σ group) x = Some (ce_key e)) ∧
    (∀ x, x ∈ needed → ∃ e, e ∈ chain ∧ x ∈ ce_names e) ∧
    sublist (ce_key <$> chain) (search_path σ group) ∧
    (∀ i j e1 e2 x, chain !! i = Some e1 → chain !! j = Some e2 →
       x ∈ ce_names e1 → x ∈ ce_names e2 → i = j).
Proof.
  intros Hdata Hfree Hneeded.
  destruct (group_table σ !! group) as [g|] eqn:Hg; cycle 1.
  { assert (ActivityParameter_dependency_chain σ group =
            inl (DoesNotExist "Group")) as Hraise.
    { unfold ActivityParameter_dependency_chain.
      rewrite (bool_decide_eq_false_2 _ Hdata).
      unfold free_symbols in Hfree. simpl in Hfree. rewrite Hfree.
      by rewrite (bool_decide_eq_false_2 _ Hneeded), Hg. }
    rewrite Hraise. split; [|done].
    split; [by intros [chain ?]|]. by intros [[? ?] _]. }
  rewrite (dependency_chain_search σ group needed g) by done. cbv zeta.
  pose proof (search_spec σ needed (search_path σ group)) as Hinv.
  destruct (search σ (search_path σ group) (needed, [])) as [n c].
  destruct Hinv as (Hn & Hc & Hsub & Hnd & Hall). simpl in *.
  split.
  { case_bool_decide as Hemp.
    - split; [|by eauto]. intros _. split; [by eauto|].
      rewrite Hn in Hemp. intros x Hx. apply dec_stable. intros Hnot.
      assert (x ∈ needed ∖ searched σ (search_path σ group)) as Hin
        by (apply elem_of_difference; by split).
      rewrite Hemp in Hin. by apply elem_of_empty in Hin.
    - split; [by intros [chain ?]|]. intros [_ Hsub']. exfalso. apply Hemp.
      rewrite Hn. set_solver. }
  intros chain Hchain.
  case_bool_decide as Hemp; [|done]. injection Hchain as <-.
  assert (Hin : ∀ e x, e ∈ c →
    x ∈ ce_names e ↔
    x ∈ needed ∧ resolved_at σ (search_path σ group) x = Some (ce_key e))
    by (intros e x He; by apply Hc).
  split; [done|]. split; [|split; [done|]].
  - intros x Hx.
    destruct (resolved_at σ (search_path σ group) x) as [s|] eqn:E.
    + destruct (Hall x s Hx E) as (e & He & Hk). exists e. split; [done|].
      apply Hin; [done|]. by rewrite Hk.
    + apply resolved_at_None in E. set_solver.
  - intros i j e1 e2 x H1 H2 Hx1 Hx2.
    apply Hin in Hx1 as [_ Hx1]; [|by eapply list_elem_of_lookup_2].
    apply Hin in Hx2 as [_ Hx2]; [|by eapply list_elem_of_lookup_2].
    eapply NoDup_lookup; [exact Hnd| |].
    + rewrite list_lookup_fmap, H1. done.
    + rewrite list_lookup_fmap, H2. simpl. congruence.
Qed.

(** ** Missing variables *)

Lemma bind_Raise {A B} (m : Py A) (k : A → Py B) σ e σ'' :
  bind m k σ = Raise e σ'' ↔
  m σ = Raise e σ'' ∨ ∃ a σ', m σ = Ok a σ' ∧ k a σ' = Raise e σ''.
Proof.
  unfold bind. destruct (m σ) as [a σ'| |]; naive_solver.
Qed.

Lemma quiet_ret {A} (a : A) : quiet (ret a).
Proof. by intros σ e σ'. Qed.

Lemma quiet_get : quiet get.
Proof. by intros σ e σ'. Qed.

Lemma quiet_modify f : quiet (modify f).
Proof. by intros σ e σ'. Qed.

Lemma quiet_raise {A} e : (∀ names, e ≠ MissingName names) → quiet (raise (A:=A) e).
Proof. intros He σ e' σ' [= <- <-]. done. Qed.

Lemma quiet_bind {A B} (m : Py A) (k : A → Py B) :
  quiet m → (∀ a, quiet (k a)) → quiet (bind m k).
Proof.
  intros Hm Hk σ e σ' [Hr|(a & σ1 & _ & Hr)]%bind_Raise; [by eapply Hm|by eapply Hk].
Qed.

Lemma quiet_atomic {A} (m : Py A) : quiet m → quiet (atomic m).
Proof.
  intros Hm σ e σ'. unfold atomic. destruct (m σ) as [a σ1|e1 σ1|] eqn:E; try done.
  intros [= <- <-]. by eapply Hm.
Qed.

Lemma quiet_for {A} (xs : list A) body : (∀ x, quiet (body x)) → quiet (for_ xs body).
Proof.
  intros Hb. induction xs as [|x xs IH]; simpl; [apply quiet_ret|].
  apply quiet_bind; [apply Hb|done].
Qed.

Lemma quiet_for_items data update :
  (∀ k a, quiet (update k a)) → quiet (for_items data update).
Proof.
  intros Hu. apply quiet_for. intros [k ds]. simpl.
  destruct (pd_amount ds); [apply Hu|by apply quiet_raise].
Qed.

Lemma quiet_Group_get name : quiet (Group_get name).
Proof.
  intros σ e σ'. unfold Group_get. destruct (group_table σ !! name); [done|].
  by intros [= <- <-].
Qed.

Lemma quiet_ParameterSet_evaluate data glo : quiet (ParameterSet_evaluate data glo).
Proof.
  unfold ParameterSet_evaluate. destruct (evaluate_and_set_amount_field data glo).
  - by apply quiet_raise.
  - apply quiet_ret.
Qed.

Lemma quiet_GroupDependency_get_or_create g d :
  quiet (GroupDependency_get_or_create g d).
Proof.
  intros σ e σ'. unfold GroupDependency_get_or_create, GroupDependency_save,
    GroupDependency_insert, bind, get, ret, raise.
  repeat (case_bool_decide; simpl); try done; intros ?;
    repeat case_bool_decide; by simplify_eq.
Qed.

Lemma found_names_nil : found_names [] = inr ∅.
Proof. done. Qed.

Lemma dependency_chain_missing σ group needed :
  is_Some (group_table σ !! group) →
  free_symbols σ group = inr needed →
  ∀ missing,
    ActivityParameter_dependency_chain σ group = inl (MissingName missing) ↔
    missing = needed ∖ searched σ (search_path σ group) ∧ missing ≠ ∅.
Proof.
  intros [g Hg] Hfree missing.
  destruct (decide (size (ActivityParameter_load σ group) = 0)) as [Hz|Hdata].
  { unfold ActivityParameter_dependency_chain.
    rewrite (bool_decide_eq_true_2 _ Hz).
    unfold free_symbols in Hfree. apply map_size_empty_iff in Hz.
    rewrite Hz, map_to_list_empty in Hfree. simpl in Hfree.
    unfold get_new_symbols in Hfree. simpl in Hfree.
    injection Hfree as <-. split; [done|]. intros [-> Hne]. set_solver. }
  destruct (decide (needed = ∅)) as [->|Hneeded].
  { unfold ActivityParameter_dependency_chain.
    rewrite (bool_decide_eq_false_2 _ Hdata).
    unfold free_symbols in Hfree. simpl in Hfree. rewrite Hfree.
    rewrite bool_decide_eq_true_2 by done. split; [done|].
    intros [-> Hne]. set_solver. }
  rewrite (dependency_chain_search σ group needed g) by done. cbv zeta.
  pose proof (search_spec σ needed (search_path σ group)) as (Hn & _).
  rewrite <- Hn. case_bool_decide as Hemp.
  - split; [done|]. intros [-> ?]. done.
  - split; [intros [= <-]; done|]. by intros [-> _].
Qed.

Lemma DatabaseParameter_recalculate_missing σ σ1 database needed :
  project_brought_up_to_date σ σ1 →
  DatabaseParameter_expired σ1 database = true →
  database_free_symbols σ1 database = inr needed →
  ∀ missing,
    (∃ σ', DatabaseParameter_recalculate database σ = Raise (MissingName missing) σ') ↔
    missing = needed ∖ defined_in σ1 (kind_project, "project") ∧ missing ≠ ∅.
Proof.
  intros Hproj Hexp Hfree missing. unfold project_brought_up_to_date in Hproj.
  unfold DatabaseParameter_recalculate.
  unfold bind at 1. unfold get at 1. unfold bind at 1. rewrite Hproj.
  unfold bind at 1. unfold get at 1. rewrite Hexp. simpl negb. cbv iota.
  destruct (decide (size (DatabaseParameter_load σ1 database) = 0)) as [Hz|Hdata].
  { rewrite (bool_decide_eq_true_2 _ Hz).
    unfold database_free_symbols in Hfree. apply map_size_empty_iff in Hz.
    rewrite Hz, map_to_list_empty in Hfree. unfold get_new_symbols in Hfree.
    simpl in Hfree. injection Hfree as <-.
    split; [by intros [? ?]|]. intros [-> Hne]. set_solver. }
  rewrite (bool_decide_eq_false_2 _ Hdata).
  unfold database_free_symbols in Hfree. cbv zeta in Hfree.
  unfold bind at 1. unfold liftq at 1. rewrite Hfree.
  unfold defined_in. cbn [fst snd].
  set (miss := needed ∖ list_to_set (pp_name <$> projectparameter σ1)).
  destruct (decide (miss = ∅)) as [Hm|Hm].
  - rewrite (bool_decide_eq_true_2 _ Hm). simpl negb. cbv iota.
    split; [|intros [-> ?]; done]. intros [σ' Hr]. exfalso.
    eapply (quiet_bind _ _); [| |exact Hr|reflexivity].
    + case_bool_decide; simpl.
      * apply quiet_bind; [apply quiet_modify|]. intros _. apply quiet_ret.
      * apply quiet_bind; [apply quiet_GroupDependency_get_or_create|].
        intros _. apply quiet_bind; [apply quiet_get|]. intros ?. apply quiet_ret.
    + intros glo. apply quiet_bind; [apply quiet_ParameterSet_evaluate|].
      intros data. apply quiet_atomic. apply quiet_bind.
      * apply quiet_for_items. intros k a. apply quiet_modify.
      * intros _. apply quiet_bind; [apply quiet_Group_get|]. intros g.
        apply quiet_bind; [apply quiet_modify|]. intros _. apply quiet_modify.
  - rewrite (bool_decide_eq_false_2 _ Hm). simpl negb. cbv iota.
    unfold raise. split.
    + intros [σ' [= <-]]. done.
    + intros [-> _]. by eexists.
Qed.

Lemma DatabaseParameter_recalculate_fresh σ σ1 database :
  project_brought_up_to_date σ σ1 →
  DatabaseParameter_expired σ1 database = false →
  DatabaseParameter_recalculate database σ = Ok tt σ1.
Proof.
  intros Hproj Hexp. unfold project_brought_up_to_date in Hproj.
  unfold DatabaseParameter_recalculate.
  unfold bind at 1. unfold get at 1. unfold bind at 1. rewrite Hproj.
  unfold bind at 1. unfold get at 1. by rewrite Hexp.
Qed.

(** C4, as the code has it.  For a registered group, and whether or not
    the group or anything else is stale, [dependency_chain] raises
    [MissingName] exactly when some free symbol of the group is defined
    nowhere on its search path, and the exception names exactly those
    symbols.  [DatabaseParameter.recalculate], once the project scope has
    been brought up to date and when the group of the database is expired,
    raises [MissingName] exactly when some free symbol of the database's
    formulas is not the name of a project parameter, naming exactly those
    symbols; when the group of the database is not expired, it returns
    without looking at the formulas.  Each of the three parts has its own
    hypotheses. *)
Theorem missing_variables_exactly (σ σ1 : Store) (group database : string)
    (needed_g needed_d : gset string) :
  (is_Some (group_table σ !! group) →
   free_symbols σ group = inr needed_g →
   ∀ missing,
     ActivityParameter_dependency_chain σ group = inl (MissingName missing) ↔
     missing = needed_g ∖ searched σ (search_path σ group) ∧ missing ≠ ∅) ∧
  (project_brought_up_to_date σ σ1 →
   DatabaseParameter_expired σ1 database = true →
   database_free_symbols σ1 database = inr needed_d →
   ∀ missing,
     (∃ σ', DatabaseParameter_recalculate database σ =
              Raise (MissingName missing) σ') ↔
     missing = needed_d ∖ defined_in σ1 (kind_project, "project") ∧
     missing ≠ ∅) ∧
  (project_brought_up_to_date σ σ1 →
   DatabaseParameter_expired σ1 database = false →
   DatabaseParameter_recalculate database σ = Ok tt σ1).
Proof.
  split; [|split].
  - apply dependency_chain_missing.
  - apply DatabaseParameter_recalculate_missing.
  - apply DatabaseParameter_recalculate_fresh.
Qed.

(** ** Recalculation of an activity group *)

Lemma atomic_Ok {A} (m : Py A) σ a σ' : atomic m σ = Ok a σ' ↔ m σ = Ok a σ'.
Proof. unfold atomic. by destruct (m σ). Qed.

Lemma ActivityParameter_recalculate_S fuel group :
  ActivityParameter_recalculate (S fuel) group =
  (let! σ := get in
   if negb (ActivityParameter_expired σ group) then ret tt else
   let! chain := liftq (λ σ, ActivityParameter_dependency_chain σ group) in
   ActivityParameter_reset_dependencies group chain ;;;
   for_ (reverse chain) (recalculate_row fuel) ;;;
   ActivityParameter_update_values group ;;;
   ActivityParameter_recalculate_exchanges group).
Proof. reflexivity. Qed.

Lemma liftq_Ok {A} (q : Store → Exception + A) σ a σ' :
  liftq q σ = Ok a σ' ↔ q σ = inr a ∧ σ' = σ.
Proof. unfold liftq. destruct (q σ); naive_solver. Qed.

(** ** The steps of a recalculation *)

Lemma autoupdate_fresh name σ h :
  fresh <$> group_table (autoupdate name σ) !! h = fresh <$> group_table σ !! h.
Proof.
  unfold autoupdate. simpl. rewrite lookup_alter. case_decide; [|done].
  subst. by destruct (group_table σ !! h).
Qed.

Lemma fmap_eq_nil_iff {A B} (f : A → B) (l : list A) : f <$> l = [] ↔ l = [].
Proof. split; [apply fmap_nil_inv|by intros ->]. Qed.

Lemma DatabaseParameter_load_empty σ database :
  size (DatabaseParameter_load σ database) = 0 ↔
  DatabaseParameter_select σ database = [].
Proof.
  unfold DatabaseParameter_load. rewrite size_dict_0. apply fmap_eq_nil_iff.
Qed.

Lemma ParameterSet_evaluate_Ok data glo σ data' σ' :
  ParameterSet_evaluate data glo σ = Ok data' σ' → σ' = σ.
Proof.
  unfold ParameterSet_evaluate.
  destruct (evaluate_and_set_amount_field data glo); [done|]. by intros [= _ <-].
Qed.

Lemma ActivityParameter_recalculate_steps fuel group σ σ' :
  ActivityParameter_expired σ group = true →
  ActivityParameter_recalculate (S fuel) group σ = Ok tt σ' →
  ∃ chain σ1 σ2 σ3,
    ActivityParameter_dependency_chain σ group = inr chain ∧
    ActivityParameter_reset_dependencies group chain σ = Ok tt σ1 ∧
    for_ (reverse chain) (recalculate_row fuel) σ1 = Ok tt σ2 ∧
    ActivityParameter_update_values group σ2 = Ok tt σ3 ∧
    ActivityParameter_recalculate_exchanges group σ3 = Ok tt σ'.
Proof.
  intros Hexp. rewrite ActivityParameter_recalculate_S.
  unfold bind at 1. unfold get at 1. rewrite Hexp. simpl negb. cbv iota.
  intros (chain & σ0 & [Hchain ->]%liftq_Ok & Hrest)%bind_Ok.
  apply bind_Ok in Hrest as ([] & σ1 & Hreset & Hrest).
  apply bind_Ok in Hrest as ([] & σ2 & Hup & Hrest).
  apply bind_Ok in Hrest as ([] & σ3 & Hval & Hexc).
  by exists chain, σ1, σ2, σ3.
Qed.

(** ** The cycle check on dependency edges *)

Lemma self_edge_is_rejected σ g :
  ∃ msg, GroupDependency_insert g g σ = Raise (IntegrityError msg) σ.
Proof.
  unfold GroupDependency_insert. case_bool_decide; [by eexists|].
  rewrite bool_decide_eq_true_2 by done. by eexists.
Qed.

Lemma back_edge_is_rejected σ a b :
  (b, a) ∈ groupdependency σ →
  GroupDependency_insert a b σ = Raise (IntegrityError "Circular dependency") σ.
Proof.
  intros Hin. unfold GroupDependency_insert. by rewrite bool_decide_eq_true_2.
Qed.

(** Only the direct back edge is looked for: any other new edge between two
    different groups is written, whatever paths the edges already form. *)
Lemma edge_without_back_edge_is_accepted σ a b :
  a ≠ b → (b, a) ∉ groupdependency σ → (a, b) ∉ groupdependency σ →
  GroupDependency_insert a b σ =
    Ok tt (set_groupdependency ({[(a, b)]} ∪ groupdependency σ) σ).
Proof.
  intros Hne Hback Hnew. unfold GroupDependency_insert.
  by rewrite !bool_decide_eq_false_2.
Qed.

(** ** Linking exchanges to a group *)

Lemma ParameterizedExchange_link_raises group exc σ :
  ∃ e, ParameterizedExchange_link group exc σ = Raise e σ.
Proof.
  unfold ParameterizedExchange_link, bind, get.
  destruct (filter _ _); by eexists.
Qed.

Lemma for_Ok_each {A} (xs : list A) (body : A → Py unit) σ σ' x :
  for_ xs body σ = Ok tt σ' → x ∈ xs → ∃ σa σb, body x σa = Ok tt σb.
Proof.
  revert σ. induction xs as [|y xs IH]; intros σ; simpl.
  - intros _ Hx. by apply elem_of_nil in Hx.
  - intros ([] & σ1 & Hy & Hrest)%bind_Ok [->|Hx]%elem_of_cons; [by eauto|].
    by eapply IH.
Qed.

(** Whenever an exchange of the activity carries a formula,
    [add_exchanges_to_group] does not return. *)
Lemma add_exchanges_to_group_never_returns group key σ a σ' :
  get_activity key σ = Ok a σ →
  (∃ exc, exc ∈ act_exchanges a ∧ is_Some (exc_formula exc)) →
  ParameterManager_add_exchanges_to_group group key σ ≠ Ok tt σ'.
Proof.
  intros Hget (exc & Hin & [f Hf]) Hrun.
  unfold ParameterManager_add_exchanges_to_group in Hrun.
  apply bind_Ok in Hrun as (a' & σ1 & Hget' & Hfor).
  rewrite Hget in Hget'. injection Hget' as <- <-.
  destruct (for_Ok_each _ _ _ _ exc Hfor Hin) as (σa & σb & Hbody).
  rewrite Hf in Hbody.
  destruct (ParameterizedExchange_link_raises group exc σa) as [e He].
  by rewrite He in Hbody.
Qed.

(** ** Frames of the writes, whatever the outcome *)

#[local] Instance only_amounts_preorder : PreOrder only_amounts.
Proof.
  split.
  - intros σ. by repeat split.
  - intros σ1 σ2 σ3 (?&?&?&?&?&?&?) (?&?&?&?&?&?&?).
    repeat split; congruence.
Qed.

#[local] Instance recalculation_frame_preorder : PreOrder recalculation_frame.
Proof.
  split.
  - intros σ. split; [reflexivity|]. split; [done|]. split; [done|]. done.
  - intros σ1 σ2 σ3 (Ha1 & Hd1 & Hy1 & He1) (Ha2 & Hd2 & Hy2 & He2).
    split; [by etrans|]. split; [set_solver|]. split; [set_solver|]. auto.
Qed.

#[local] Instance quiet_frame_preorder : PreOrder quiet_frame.
Proof.
  split.
  - intros σ. split; [reflexivity|done].
  - intros σ1 σ2 σ3 [H1 Hd1] [H2 Hd2]. split; [by etrans|congruence].
Qed.

#[local] Instance same_world_preorder : PreOrder same_world.
Proof.
  split.
  - intros σ. by repeat split.
  - intros σ1 σ2 σ3 (?&?&?&?) (?&?&?&?). repeat split; congruence.
Qed.

Lemma quiet_frame_recalculation_frame σ σ' :
  quiet_frame σ σ' → recalculation_frame σ σ'.
Proof. by intros [? _]. Qed.

Lemma quiet_frame_same_world σ σ' : quiet_frame σ σ' → same_world σ σ'.
Proof. intros [((_&_&_&_&?&?&?) & _) ?]. by repeat split. Qed.

Lemma recalculation_frame_rollback_stable : rollback_stable recalculation_frame.
Proof.
  intros σ σ1 ((_&_&_&_&Hd&Ha&Hn) & _ & Hy & _).
  split; [|split; [done|split; [exact Hy|done]]].
  unfold only_amounts. simpl. tauto.
Qed.

Lemma quiet_frame_rollback_stable : rollback_stable quiet_frame.
Proof.
  intros σ σ1 [H1 Hd]. split; [by apply recalculation_frame_rollback_stable|done].
Qed.

Lemma same_world_rollback_stable : rollback_stable same_world.
Proof. by intros σ σ1 (?&?&?&?). Qed.

(** *** The rules of [throughout] *)

Lemma throughout_ret {A} R `{!Reflexive R} (a : A) : throughout R (ret a).
Proof. intros σ. simpl. reflexivity. Qed.

Lemma throughout_get R `{!Reflexive R} : throughout R get.
Proof. intros σ. simpl. reflexivity. Qed.

Lemma throughout_raise {A} R `{!Reflexive R} e : throughout R (raise (A:=A) e).
Proof. intros σ. simpl. reflexivity. Qed.

Lemma throughout_liftq {A} R `{!Reflexive R} (q : Store → Exception + A) :
  throughout R (liftq q).
Proof. intros σ. unfold liftq. destruct (q σ); reflexivity. Qed.

Lemma throughout_modify R f : (∀ σ, R σ (f σ)) → throughout R (modify f).
Proof. intros Hf σ. apply Hf. Qed.

Lemma throughout_bind {A B} R `{!Transitive R} (m : Py A) (k : A → Py B) :
  throughout R m → (∀ a, throughout R (k a)) → throughout R (bind m k).
Proof.
  intros Hm Hk σ. unfold bind. specialize (Hm σ).
  destruct (m σ) as [a σ1|e σ1|]; [|done|done].
  specialize (Hk a σ1). destruct (k a σ1); [by etrans|by etrans|done].
Qed.

Lemma throughout_atomic {A} R (m : Py A) :
  rollback_stable R → throughout R m → throughout R (atomic m).
Proof.
  intros Hst Hm σ. unfold atomic. specialize (Hm σ).
  destruct (m σ); [done|by apply Hst|done].
Qed.

Lemma throughout_for {A} R `{!PreOrder R} (xs : list A) body :
  (∀ x, x ∈ xs → throughout R (body x)) → throughout R (for_ xs body).
Proof.
  induction xs as [|x xs IH]; intros Hb; simpl.
  - apply throughout_ret; apply _.
  - apply throughout_bind; [apply _|apply Hb; left|].
    intros _. apply IH. intros y Hy. apply Hb. by right.
Qed.

Lemma throughout_for_items R `{!PreOrder R} data update :
  (∀ k a, throughout R (update k a)) → throughout R (for_items data update).
Proof.
  intros Hu. apply throughout_for; [done|]. intros [k ds] _. simpl.
  destruct (pd_amount ds); [apply Hu|apply throughout_raise; apply _].
Qed.

Lemma throughout_weaken {A} (R R' : Store → Store → Prop) (m : Py A) :
  (∀ σ σ', R σ σ' → R' σ σ') → throughout R m → throughout R' m.
Proof.
  intros HR Hm σ. specialize (Hm σ). destruct (m σ); [by apply HR|by apply HR|done].
Qed.

Lemma throughout_ParameterSet_evaluate R `{!Reflexive R} data glo :
  throughout R (ParameterSet_evaluate data glo).
Proof.
  unfold ParameterSet_evaluate.
  destruct (evaluate_and_set_amount_field data glo);
    [apply throughout_raise; apply _|apply throughout_ret; apply _].
Qed.

Lemma throughout_Ok {A} R (m : Py A) σ a σ' :
  throughout R m → m σ = Ok a σ' → R σ σ'.
Proof. intros Hm Hr. specialize (Hm σ). by rewrite Hr in Hm. Qed.

Lemma throughout_Raise {A} R (m : Py A) σ e σ' :
  throughout R m → m σ = Raise e σ' → R σ σ'.
Proof. intros Hm Hr. specialize (Hm σ). by rewrite Hr in Hm. Qed.

Ltac thru_bind := apply throughout_bind; [apply _| |].
Ltac thru_pure :=
  lazymatch goal with
  | |- throughout _ get => apply throughout_get
  | |- throughout _ (liftq _) => apply throughout_liftq
  | |- throughout _ (ret _) => apply throughout_ret
  | |- throughout _ (raise _) => apply throughout_raise
  | |- throughout _ (ParameterSet_evaluate _ _) =>
      apply throughout_ParameterSet_evaluate
  end;
  try apply _.

(** *** The writes of a recalculation *)

Lemma quiet_frame_groups σ tab :
  dom (group_table σ) ⊆ dom tab → quiet_frame σ (set_group_table tab σ).
Proof.
  intros Hdom. split; [|done]. split; [done|]. split; [exact Hdom|].
  split; [set_solver|done].
Qed.

Lemma quiet_frame_autoupdate name σ : quiet_frame σ (autoupdate name σ).
Proof.
  apply quiet_frame_groups. intros h. rewrite !elem_of_dom, lookup_alter.
  case_decide; [|done]. subst. intros [g ->]. by eexists.
Qed.

Lemma quiet_frame_only_amounts σ σ' :
  only_amounts σ σ' → group_table σ' = group_table σ →
  groupdependency σ' = groupdependency σ → dirty σ' = dirty σ →
  quiet_frame σ σ'.
Proof.
  intros Ha Hg He Hd. split; [|done]. split; [done|].
  rewrite Hg, He, Hd. split; [done|]. split; done.
Qed.

Lemma throughout_ProjectParameter_update_amount key a :
  throughout quiet_frame (ProjectParameter_update_amount key a).
Proof.
  apply throughout_modify. intros σ. cbv zeta.
  set (σ1 := set_projectparameter _ σ).
  assert (quiet_frame σ σ1) as H1.
  { apply quiet_frame_only_amounts; try done.
    unfold only_amounts. simpl. split_and!; try done.
    rewrite <- list_fmap_compose. apply list_fmap_ext. intros i o _.
    simpl. by case_bool_decide. }
  destruct (existsb _ _); [|done]. etrans; [exact H1|apply quiet_frame_autoupdate].
Qed.

Lemma throughout_DatabaseParameter_update_amount database key a :
  throughout quiet_frame (DatabaseParameter_update_amount database key a).
Proof.
  apply throughout_modify. intros σ. cbv zeta.
  set (σ1 := set_databaseparameter _ σ).
  assert (quiet_frame σ σ1) as H1.
  { apply quiet_frame_only_amounts; try done.
    unfold only_amounts. simpl. split_and!; try done.
    rewrite <- list_fmap_compose. apply list_fmap_ext. intros i o _.
    simpl. by destruct (_ && _). }
  destruct (existsb _ _); [|done]. etrans; [exact H1|apply quiet_frame_autoupdate].
Qed.

Lemma throughout_ActivityParameter_update_amount group key a :
  throughout quiet_frame (ActivityParameter_update_amount group key a).
Proof.
  apply throughout_modify. intros σ. cbv zeta.
  set (σ1 := set_activityparameter _ σ).
  assert (quiet_frame σ σ1) as H1.
  { apply quiet_frame_only_amounts; try done.
    unfold only_amounts. simpl. split_and!; try done.
    rewrite <- list_fmap_compose. apply list_fmap_ext. intros i o _.
    simpl. by destruct (_ && _). }
  destruct (existsb _ _); [|done]. etrans; [exact H1|apply quiet_frame_autoupdate].
Qed.

Lemma throughout_Group_save name g : throughout quiet_frame (Group_save name g).
Proof.
  apply throughout_modify. intros σ. apply quiet_frame_groups.
  rewrite dom_insert_L. set_solver.
Qed.

Lemma throughout_Group_get name : throughout quiet_frame (Group_get name).
Proof.
  intros σ. unfold Group_get. destruct (group_table σ !! name); reflexivity.
Qed.

Lemma throughout_Group_get_or_create name :
  throughout quiet_frame (Group_get_or_create name).
Proof.
  intros σ. unfold Group_get_or_create.
  destruct (group_table σ !! name); [reflexivity|].
  apply (throughout_bind quiet_frame); [apply throughout_Group_save|].
  intros _. apply throughout_ret; apply _.
Qed.

Lemma throughout_expire_downstream group :
  throughout quiet_frame (ParameterBase_expire_downstream group).
Proof.
  apply throughout_modify. intros σ. apply quiet_frame_groups.
  intros h. rewrite !elem_of_dom, map_lookup_imap.
  intros [g ->]. by eexists.
Qed.

Lemma quiet_frame_edges σ edges :
  (no_direct_cycle (groupdependency σ) → no_direct_cycle edges) →
  quiet_frame σ (set_groupdependency edges σ).
Proof.
  intros He. split; [|done]. split; [done|]. split; [set_solver|].
  split; [set_solver|exact He].
Qed.

Lemma no_direct_cycle_insert (edges : gset (string * string)) a b :
  a ≠ b → (b, a) ∉ edges → no_direct_cycle edges →
  no_direct_cycle ({[(a, b)]} ∪ edges).
Proof.
  intros Hab Hba Hnc x y [Hxy|Hxy]%elem_of_union.
  - apply elem_of_singleton in Hxy. simplify_eq. split; [done|].
    rewrite elem_of_union, elem_of_singleton. intros [?|?]; by simplify_eq.
  - destruct (Hnc x y Hxy) as [Hne Hyx]. split; [done|].
    rewrite elem_of_union, elem_of_singleton. intros [?|?]; by simplify_eq.
Qed.

Lemma no_direct_cycle_subseteq (e1 e2 : gset (string * string)) :
  e1 ⊆ e2 → no_direct_cycle e2 → no_direct_cycle e1.
Proof. intros Hsub Hnc a b Hab. destruct (Hnc a b) as [? ?]; set_solver. Qed.

Lemma throughout_GroupDependency_insert g d :
  throughout quiet_frame (GroupDependency_insert g d).
Proof.
  intros σ. unfold GroupDependency_insert.
  case_bool_decide as Hback; [reflexivity|].
  case_bool_decide as Hself; [reflexivity|].
  case_bool_decide as Hdup; [reflexivity|].
  apply quiet_frame_edges. by apply no_direct_cycle_insert.
Qed.

Lemma throughout_GroupDependency_insert_many rows :
  throughout quiet_frame (GroupDependency_insert_many rows).
Proof.
  apply throughout_atomic; [apply quiet_frame_rollback_stable|].
  apply throughout_for; [apply _|]. intros [g d] _.
  apply throughout_GroupDependency_insert.
Qed.

Lemma throughout_GroupDependency_save g d :
  throughout quiet_frame (GroupDependency_save g d).
Proof.
  unfold GroupDependency_save. thru_bind; [thru_pure|]. intros σ0.
  case_bool_decide; [thru_pure|]. destruct (_ && _); [thru_pure|].
  apply throughout_GroupDependency_insert.
Qed.

Lemma throughout_GroupDependency_get_or_create g d :
  throughout quiet_frame (GroupDependency_get_or_create g d).
Proof.
  unfold GroupDependency_get_or_create. thru_bind; [thru_pure|]. intros σ0.
  case_bool_decide; [thru_pure|]. apply throughout_GroupDependency_save.
Qed.

Lemma throughout_GroupDependency_delete pred :
  throughout quiet_frame (GroupDependency_delete pred).
Proof.
  apply throughout_modify. intros σ. apply quiet_frame_edges.
  apply no_direct_cycle_subseteq. intros e He. by apply elem_of_filter in He as [_ ?].
Qed.

Lemma throughout_ProjectParameter_recalculate :
  throughout quiet_frame ProjectParameter_recalculate.
Proof.
  unfold ProjectParameter_recalculate.
  thru_bind; [thru_pure|]. intros σ0.
  destruct (negb _); [thru_pure|].
  case_bool_decide; [thru_pure|].
  thru_bind; [thru_pure|]. intros data.
  apply throughout_atomic; [apply quiet_frame_rollback_stable|].
  thru_bind.
  - apply throughout_for_items; [apply _|].
    apply throughout_ProjectParameter_update_amount.
  - intros ?. thru_bind; [apply throughout_Group_get_or_create|].
    intros g. thru_bind; [apply throughout_Group_save|].
    intros ?. apply throughout_expire_downstream.
Qed.

Lemma throughout_DatabaseParameter_recalculate database :
  throughout quiet_frame (DatabaseParameter_recalculate database).
Proof.
  unfold DatabaseParameter_recalculate.
  thru_bind; [thru_pure|]. intros σ0.
  thru_bind.
  { destruct (ProjectParameter_expired σ0);
      [apply throughout_ProjectParameter_recalculate|thru_pure]. }
  intros ?. thru_bind; [thru_pure|]. intros σ1.
  destruct (negb _); [thru_pure|].
  case_bool_decide; [thru_pure|].
  thru_bind; [thru_pure|]. intros new_symbols.
  destruct (negb (bool_decide (_ ∖ _ = ∅))); [thru_pure|].
  thru_bind.
  { destruct (negb _).
    - thru_bind; [apply throughout_GroupDependency_get_or_create|].
      intros ?. thru_bind; [thru_pure|]. intros ?. thru_pure.
    - thru_bind; [apply throughout_GroupDependency_delete|]. intros ?. thru_pure. }
  intros glo. thru_bind; [thru_pure|]. intros data.
  apply throughout_atomic; [apply quiet_frame_rollback_stable|].
  thru_bind.
  - apply throughout_for_items; [apply _|].
    apply throughout_DatabaseParameter_update_amount.
  - intros ?. thru_bind; [apply throughout_Group_get|].
    intros g. thru_bind; [apply throughout_Group_save|].
    intros ?. apply throughout_expire_downstream.
Qed.

Lemma throughout_reset_dependencies group chain :
  throughout quiet_frame (ActivityParameter_reset_dependencies group chain).
Proof.
  unfold ActivityParameter_reset_dependencies.
  destruct chain as [|e chain]; [thru_pure|].
  thru_bind; [apply throughout_Group_get|]. intros obj.
  thru_bind; [apply throughout_Group_save|]. intros ?.
  thru_bind; [apply throughout_GroupDependency_delete|]. intros ?.
  apply throughout_GroupDependency_insert_many.
Qed.

Lemma throughout_update_values group :
  throughout quiet_frame (ActivityParameter_update_values group).
Proof.
  unfold ActivityParameter_update_values.
  thru_bind; [thru_pure|]. intros σ0.
  thru_bind; [thru_pure|]. intros static.
  thru_bind; [thru_pure|]. intros data.
  apply throughout_atomic; [apply quiet_frame_rollback_stable|].
  thru_bind.
  - apply throughout_for_items; [apply _|].
    apply throughout_ActivityParameter_update_amount.
  - intros ?. thru_bind; [apply throughout_Group_get|].
    intros g. thru_bind; [apply throughout_Group_save|].
    intros ?. apply throughout_expire_downstream.
Qed.

Lemma throughout_recalculate_exchanges group :
  throughout recalculation_frame (ActivityParameter_recalculate_exchanges group).
Proof.
  unfold ActivityParameter_recalculate_exchanges.
  thru_bind; [thru_pure|]. intros symtable.
  thru_bind; [thru_pure|]. intros σ0.
  thru_bind.
  - apply throughout_for; [apply _|]. intros ? _. thru_pure.
  - intros ?. thru_bind; [thru_pure|]. intros o.
    apply throughout_modify. intros σ. split; [done|].
    split; [done|]. split; [simpl; set_solver|done].
Qed.

Lemma throughout_ActivityParameter_recalculate fuel group :
  throughout recalculation_frame (ActivityParameter_recalculate fuel group).
Proof.
  revert group. induction fuel as [|fuel IH]; intros group.
  - simpl. thru_bind; [thru_pure|]. intros σ0.
    destruct (negb _); [thru_pure|]. by intros σ.
  - rewrite ActivityParameter_recalculate_S.
    thru_bind; [thru_pure|]. intros σ0.
    destruct (negb _); [thru_pure|].
    thru_bind; [thru_pure|]. intros chain.
    thru_bind.
    { eapply throughout_weaken; [apply quiet_frame_recalculation_frame|].
      apply throughout_reset_dependencies. }
    intros ?. thru_bind.
    { apply throughout_for; [apply _|]. intros row _.
      unfold recalculate_row. destruct (ce_kind row).
      - eapply throughout_weaken; [apply quiet_frame_recalculation_frame|].
        apply throughout_ProjectParameter_recalculate.
      - eapply throughout_weaken; [apply quiet_frame_recalculation_frame|].
        apply throughout_DatabaseParameter_recalculate.
      - apply IH. }
    intros ?. thru_bind.
    { eapply throughout_weaken; [apply quiet_frame_recalculation_frame|].
      apply throughout_update_values. }
    intros ?. apply throughout_recalculate_exchanges.
Qed.

Lemma throughout_ParameterManager_recalculate fuel :
  throughout recalculation_frame (ParameterManager_recalculate fuel).
Proof.
  unfold ParameterManager_recalculate.
  thru_bind; [thru_pure|]. intros σ0.
  thru_bind.
  { eapply throughout_weaken; [apply quiet_frame_recalculation_frame|].
    destruct (ProjectParameter_expired σ0);
      [apply throughout_ProjectParameter_recalculate|thru_pure]. }
  intros ?. thru_bind.
  { apply throughout_for; [apply _|]. intros db _.
    thru_bind; [thru_pure|]. intros σ1.
    destruct (DatabaseParameter_expired σ1 db); [|thru_pure].
    eapply throughout_weaken; [apply quiet_frame_recalculation_frame|].
    apply throughout_DatabaseParameter_recalculate. }
  intros ?. thru_bind; [thru_pure|]. intros σ2.
  apply throughout_for; [apply _|]. intros name _.
  thru_bind; [thru_pure|]. intros σ3.
  destruct (group_table σ3 !! name) as [obj|]; [|thru_pure].
  destruct (fresh obj); [thru_pure|].
  destruct (_ || _); [thru_pure|].
  apply throughout_ActivityParameter_recalculate.
Qed.

Lemma fmap_key_length {A B} (f : A → B) (l l' : list A) :
  f <$> l' = f <$> l → length l' = length l.
Proof. intros Heq. by rewrite <- (length_fmap f l'), Heq, length_fmap. Qed.

Lemma throughout_ends_in {A} R (m : Py A) σ σ' :
  throughout R m → ends_in m σ σ' → R σ σ'.
Proof.
  intros Hm [[a Hr]|[e Hr]]; specialize (Hm σ); by rewrite Hr in Hm.
Qed.

Lemma throughout_run_recalculation r :
  throughout recalculation_frame (run_recalculation r).
Proof.
  destruct r; simpl.
  - apply throughout_ParameterManager_recalculate.
  - apply throughout_ActivityParameter_recalculate.
  - eapply throughout_weaken; [apply quiet_frame_recalculation_frame|].
    apply throughout_DatabaseParameter_recalculate.
  - eapply throughout_weaken; [apply quiet_frame_recalculation_frame|].
    apply throughout_ProjectParameter_recalculate.
Qed.

(** X1.  Whichever [recalculate] entry point runs and whether it returns
    or raises, it adds, removes and reorders no parameter row and changes
    no column of a row but [amount]; the parameterized exchanges, the
    registered databases, the activities and the clock stay as they were,
    no group row is deleted, no dirty flag is cleared, and
    [len(parameters)] is the same. *)
Theorem recalculation_only_rewrites_amounts (r : Recalculation) (σ σ' : Store) :
  ends_in (run_recalculation r) σ σ' →
  only_amounts σ σ' ∧
  dom (group_table σ) ⊆ dom (group_table σ') ∧
  dirty σ ⊆ dirty σ' ∧
  ParameterManager_len σ' = ParameterManager_len σ.
Proof.
  intros Hrun.
  destruct (throughout_ends_in _ _ _ _ (throughout_run_recalculation r) Hrun)
    as (Ha & Hdom & Hdirty & _).
  split; [done|]. split; [done|]. split; [done|].
  destruct Ha as (Hp & Hd & Hact & _). unfold ParameterManager_len.
  by rewrite (fmap_key_length _ _ _ Hp), (fmap_key_length _ _ _ Hd),
    (fmap_key_length _ _ _ Hact).
Qed.

(** X2.  If the dependency edges hold no edge from a group to itself and
    no pair of opposite edges, they still hold none after any
    [recalculate] entry point has run, returned or raised: every edge a
    recalculation writes goes through the trigger and the check. *)
Theorem recalculation_keeps_edges_free_of_direct_cycles (r : Recalculation)
    (σ σ' : Store) :
  no_direct_cycle (groupdependency σ) →
  ends_in (run_recalculation r) σ σ' →
  no_direct_cycle (groupdependency σ').
Proof.
  intros Hnc Hrun.
  destruct (throughout_ends_in _ _ _ _ (throughout_run_recalculation r) Hrun)
    as (_ & _ & _ & He).
  by apply He.
Qed.

(** ** The free symbols of a set of formulas *)

Lemma found_names_inr data found :
  found_names data = inr found →
  all_parse data ∧ ∀ x, x ∈ found ↔ mentions data x.
Proof.
  revert found. induction data as [|ds data IH]; intros found; simpl.
  - intros [= <-]. split.
    + intros ds f Hin. by apply elem_of_nil in Hin.
    + intros x. split; [set_solver|]. intros (ds & ? & ? & Hin & _).
      by apply elem_of_nil in Hin.
  - destruct (pd_formula ds) as [f|] eqn:Hf.
    + destruct (NameFinder f) as [names|] eqn:Hn; [|done].
      destruct (found_names data) as [|found'] eqn:Hrest; [done|].
      intros [= <-]. destruct (IH found' eq_refl) as [Hall Hin]. split.
      * intros ds' f' [->|Hds]%elem_of_cons Hf'; [|by eapply Hall].
        rewrite Hf in Hf'. injection Hf' as <-. by rewrite Hn.
      * intros x. rewrite elem_of_union, Hin. split.
        -- intros [Hx|(ds' & f' & ns & Hds & ? & ? & ?)].
           ++ exists ds, f, names. split; [left|done].
           ++ exists ds', f', ns. split; [by right|done].
        -- intros (ds' & f' & ns & [->|Hds]%elem_of_cons & Hf' & Hn' & Hx).
           ++ left. rewrite Hf in Hf'. injection Hf' as <-.
              rewrite Hn in Hn'. by injection Hn' as <-.
           ++ right. by exists ds', f', ns.
    + intros Hrest. destruct (IH found Hrest) as [Hall Hin]. split.
      * intros ds' f' [->|Hds]%elem_of_cons Hf'; [congruence|by eapply Hall].
      * intros x. rewrite Hin. split.
        -- intros (ds' & f' & ns & Hds & ?). exists ds', f', ns.
           split; [by right|done].
        -- intros (ds' & f' & ns & [->|Hds]%elem_of_cons & Hf' & ?);
             [congruence|]. by exists ds', f', ns.
Qed.

Lemma found_names_inl data e :
  found_names data = inl e →
  ∃ before ds after f,
    data = before ++ ds :: after ∧ all_parse before ∧
    pd_formula ds = Some f ∧ NameFinder f = None ∧ e = SyntaxError f.
Proof.
  induction data as [|ds data IH]; simpl; [done|].
  destruct (pd_formula ds) as [f|] eqn:Hf.
  - destruct (NameFinder f) as [names|] eqn:Hn.
    + destruct (found_names data) as [e'|] eqn:Hrest; [|done].
      intros [= <-]. destruct (IH eq_refl) as (before & ds' & after & f' & -> & Hall & ?).
      exists (ds :: before), ds', after, f'. split; [done|]. split; [|done].
      intros d g [->|Hd]%elem_of_cons Hg; [|by eapply Hall].
      rewrite Hf in Hg. injection Hg as <-. by rewrite Hn.
    + intros [= <-]. exists [], ds, data, f. split; [done|]. split; [|done].
      intros d g Hd. by apply elem_of_nil in Hd.
  - intros Hrest. destruct (IH Hrest) as (before & ds' & after & f' & -> & Hall & ?).
    exists (ds :: before), ds', after, f'. split; [done|]. split; [|done].
    intros d g [->|Hd]%elem_of_cons Hg; [congruence|by eapply Hall].
Qed.

(** X3.  [get_new_symbols(data, context)] returns exactly the names that
    some formula of [data] mentions and that are neither in the
    interpreter's symbol table nor in [context]; dictionaries without a
    formula contribute nothing.  It raises only when a formula does not
    parse, and then for the first such formula of [data]. *)
Theorem get_new_symbols_exact (data : list ParamDict) (context : gset string) :
  match get_new_symbols data context with
  | inr symbols =>
      all_parse data ∧
      ∀ x, x ∈ symbols ↔ mentions data x ∧ (x ∉ symtable) ∧ (x ∉ context)
  | inl e =>
      ∃ before ds after f,
        data = before ++ ds :: after ∧ all_parse before ∧
        pd_formula ds = Some f ∧ NameFinder f = None ∧ e = SyntaxError f
  end.
Proof.
  unfold get_new_symbols. destruct (found_names data) as [e|found] eqn:Hfound.
  - by apply found_names_inl.
  - destruct (found_names_inr data found Hfound) as [Hall Hin].
    split; [done|]. intros x. rewrite elem_of_difference, Hin, not_elem_of_union.
    tauto.
Qed.

(** ** The order of a group *)


(** ** Edges across scopes *)

(** X5.  [GroupDependency.save] refuses, with [ValueError] and the store
    untouched, an edge out of the ['project'] group and an edge from a
    registered database to anything but ['project']. *)
Theorem GroupDependency_save_refuses_cross_scope (group depends : string) (σ : Store) :
  group = "project" ∨ (group ∈ databases σ ∧ depends ≠ "project") →
  ∃ msg, GroupDependency_save group depends σ = Raise (ValueError msg) σ.
Proof.
  intros Hbad. unfold GroupDependency_save, bind, get.
  case_bool_decide as Hp; [by eexists|].
  destruct Hbad as [?|[Hdb Hdep]]; [done|].
  rewrite (bool_decide_eq_true_2 _ Hdb), (bool_decide_eq_false_2 _ Hdep).
  by eexists.
Qed.

(** ** Chunks of a bulk insert *)

Lemma slices_more {A} fuel (data : list A) :
  length data ≤ fuel →
  concat (slices fuel data) = data ∧
  Forall (λ chunk, 0 < length chunk ≤ 100) (slices fuel data).
Proof.
  revert data. induction fuel as [|fuel IH]; intros data Hlen.
  - destruct data; [|simpl in Hlen; lia]. by split.
  - destruct data as [|x data]; [by split|].
    change (slices (S fuel) (x :: data))
      with (take 100 (x :: data) :: slices fuel (drop 100 (x :: data))).
    destruct (IH (drop 100 (x :: data))) as [Hcat Hall].
    { rewrite length_drop. simpl in *. lia. }
    split.
    + rewrite concat_cons, Hcat. apply take_drop.
    + constructor; [|done]. rewrite length_take, length_cons. lia.
Qed.

(** X6.  The slices [data[idx:idx+100]] for [idx in range(0, len(data),
    100)] that the bulk entry points insert one after the other are not
    empty, hold at most 100 rows each and, put end to end, give [data]
    back: no row is dropped, repeated or reordered. *)
Theorem slices_cover_data {A} (data : list A) :
  concat (slices (length data) data) = data ∧
  Forall (λ chunk, 0 < length chunk ≤ 100) (slices (length data) data).
Proof. by apply slices_more. Qed.

(** ** A sweep with nothing to do *)

Lemma for_noop {A} (xs : list A) (body : A → Py unit) σ :
  (∀ x, x ∈ xs → body x σ = Ok tt σ) → for_ xs body σ = Ok tt σ.
Proof.
  induction xs as [|x xs IH]; intros Hb; simpl; [done|].
  unfold bind. rewrite Hb by left. apply IH. intros y Hy. apply Hb. by right.
Qed.

(** X7.  When no group row is stale, [ParameterManager.recalculate]
    returns, whatever the fuel, with the store it was given. *)
Theorem sweep_without_stale_group_is_noop (fuel : nat) (σ : Store) :
  (∀ name g, group_table σ !! name = Some g → fresh g = true) →
  ParameterManager_recalculate fuel σ = Ok tt σ.
Proof.
  intros Hall.
  assert (Hexp : ∀ name, DatabaseParameter_expired σ name = false).
  { intros name. unfold DatabaseParameter_expired.
    destruct (group_table σ !! name) as [g|] eqn:Hg; [|done].
    by rewrite (Hall name g Hg). }
  unfold ParameterManager_recalculate. unfold bind at 1. unfold get at 1.
  unfold bind at 1.
  change (ProjectParameter_expired σ) with (DatabaseParameter_expired σ "project").
  rewrite Hexp. unfold ret at 1.
  unfold bind at 1. rewrite for_noop; cycle 1.
  { intros db _. unfold bind, get. by rewrite Hexp. }
  unfold bind at 1. unfold get at 1.
  apply for_noop. intros name _. unfold bind, get.
  destruct (group_table σ !! name) as [g|] eqn:Hg; [|done].
  by rewrite (Hall name g Hg).
Qed.

(** ** The constraints of the parameter tables *)

#[local] Instance keeps_schema_preorder : PreOrder keeps_schema.
Proof.
  split; [intros σ Hs; exact Hs|].
  intros σ1 σ2 σ3 H1 H2 Hs. apply H2, H1, Hs.
Qed.

Lemma keeps_schema_rollback_stable : rollback_stable keeps_schema.
Proof. intros σ σ1 _ Hs. exact Hs. Qed.

Lemma activity_schema_keys (rows rows' : list ActivityParameter) :
  ap_key <$> rows' = ap_key <$> rows →
  activity_schema rows → activity_schema rows'.
Proof.
  intros Hk (Hnd & Hck & Hdb & Hgr).
  assert (Hin : ∀ o, o ∈ rows' → ∃ o', o' ∈ rows ∧ ap_key o' = ap_key o).
  { intros o Ho. apply (list_elem_of_fmap_2 ap_key) in Ho. rewrite Hk in Ho.
    apply list_elem_of_fmap in Ho as (o' & ? & ?). by exists o'. }
  split; [|split; [|split]].
  - replace ((λ o, (ap_group o, ap_name o)) <$> rows')
      with ((λ k : string * string * string * string * option string * Extra,
               (k.1.1.1.1.1, k.1.1.2)) <$> (ap_key <$> rows'))
      by (by rewrite <- list_fmap_compose).
    rewrite Hk, <- list_fmap_compose. exact Hnd.
  - intros o (o' & Ho' & Heq)%Hin. unfold ap_key in Heq. simplify_eq.
    destruct (Hck o' Ho') as [? ?]. split; congruence.
  - intros a b (a' & Ha' & Hea)%Hin (b' & Hb' & Heb)%Hin Hg.
    unfold ap_key in Hea, Heb. simplify_eq.
    pose proof (Hdb a' b' Ha' Hb'). naive_solver congruence.
  - intros a b (a' & Ha' & Hea)%Hin (b' & Hb' & Heb)%Hin Hd Hc.
    unfold ap_key in Hea, Heb. simplify_eq.
    pose proof (Hgr a' b' Ha' Hb'). naive_solver congruence.
Qed.

Lemma only_amounts_keeps_schema σ σ' : only_amounts σ σ' → keeps_schema σ σ'.
Proof.
  intros (Hp & Hd & Ha & _) (Hpn & Hdn & Hdc & Has).
  split; [|split; [|split]].
  - replace (pp_name <$> projectparameter σ')
      with ((λ k : string * option string * Extra, k.1.1) <$>
              (pp_key <$> projectparameter σ'))
      by (by rewrite <- list_fmap_compose).
    rewrite Hp, <- list_fmap_compose. exact Hpn.
  - replace ((λ o, (dp_database o, dp_name o)) <$> databaseparameter σ')
      with ((λ k : string * string * option string * Extra,
               (k.1.1.1, k.1.1.2)) <$> (dp_key <$> databaseparameter σ'))
      by (by rewrite <- list_fmap_compose).
    rewrite Hd, <- list_fmap_compose. exact Hdn.
  - intros o Ho. apply (list_elem_of_fmap_2 dp_key) in Ho. rewrite Hd in Ho.
    apply list_elem_of_fmap in Ho as (o' & Heq & Ho'). unfold dp_key in Heq.
    simplify_eq. pose proof (Hdc o' Ho'). congruence.
  - by eapply activity_schema_keys.
Qed.

Lemma recalculation_frame_keeps_schema σ σ' :
  recalculation_frame σ σ' → keeps_schema σ σ'.
Proof. intros [Ha _]. by apply only_amounts_keeps_schema. Qed.

Lemma quiet_frame_keeps_schema σ σ' : quiet_frame σ σ' → keeps_schema σ σ'.
Proof. intros [Hr _]. by apply recalculation_frame_keeps_schema. Qed.

Lemma activity_schema_filter (P : ActivityParameter → Prop)
    `{!∀ o, Decision (P o)} rows :
  activity_schema rows → activity_schema (filter P rows).
Proof.
  intros (Hnd & Hck & Hdb & Hgr).
  assert (Hin : ∀ o, o ∈ filter P rows → o ∈ rows)
    by (intros o Ho; by apply list_elem_of_filter in Ho as [_ ?]).
  split; [|split; [|split]].
  - pose proof (sublist_filter P rows) as Hs.
    apply (fmap_sublist (λ o, (ap_group o, ap_name o))) in Hs.
    exact (sublist_NoDup _ _ Hnd Hs).
  - intros o Ho. apply Hck. by apply Hin.
  - intros a b Ha Hb. apply Hdb; by apply Hin.
  - intros a b Ha Hb. apply Hgr; by apply Hin.
Qed.

Lemma keeps_schema_autoupdate name σ : keeps_schema σ (autoupdate name σ).
Proof. intros Hs. exact Hs. Qed.

Lemma foldr_autoupdate_tables (gone : list ActivityParameter) σ :
  projectparameter (foldr (λ o, autoupdate (ap_group o)) σ gone) = projectparameter σ ∧
  databaseparameter (foldr (λ o, autoupdate (ap_group o)) σ gone) = databaseparameter σ ∧
  activityparameter (foldr (λ o, autoupdate (ap_group o)) σ gone) = activityparameter σ ∧
  parameterizedexchange (foldr (λ o, autoupdate (ap_group o)) σ gone) =
    parameterizedexchange σ ∧
  groupdependency (foldr (λ o, autoupdate (ap_group o)) σ gone) = groupdependency σ ∧
  same_world σ (foldr (λ o, autoupdate (ap_group o)) σ gone) ∧
  dom (group_table (foldr (λ o, autoupdate (ap_group o)) σ gone)) =
    dom (group_table σ).
Proof.
  induction gone as [|o gone IH]; simpl; [by repeat split|].
  destruct IH as (? & ? & ? & ? & ? & (?&?&?&?) & Hdom).
  split_and!; try done.
  rewrite <- Hdom. apply set_eq. intros h. rewrite !elem_of_dom, lookup_alter.
  case_decide; [|done]. subst.
  destruct (group_table _ !! ap_group o); simpl; split; intros [? ?]; by eauto.
Qed.

Lemma throughout_schema_ProjectParameter_insert o :
  throughout keeps_schema (ProjectParameter_insert o).
Proof.
  intros σ. unfold ProjectParameter_insert. case_bool_decide as Hin; [done|].
  intros (Hpn & Hrest). split; [|exact Hrest]. simpl.
  rewrite fmap_app. apply NoDup_app. split; [done|]. split.
  - intros x Hx [->|Hn]%elem_of_cons; [done|by apply elem_of_nil in Hn].
  - apply NoDup_singleton.
Qed.

Lemma throughout_schema_DatabaseParameter_insert o :
  throughout keeps_schema (DatabaseParameter_insert o).
Proof.
  intros σ. unfold DatabaseParameter_insert.
  case_bool_decide as Hck; [done|]. case_bool_decide as Hin; [done|].
  intros (Hpn & Hdn & Hdc & Has). split; [done|]. simpl. split; [|split; [|done]].
  - rewrite fmap_app. apply NoDup_app. split; [done|]. split.
    + intros x Hx [->|Hn]%elem_of_cons; [done|by apply elem_of_nil in Hn].
    + apply NoDup_singleton.
  - intros r [Hr|Hr%list_elem_of_singleton]%elem_of_app; [by apply Hdc|by subst].
Qed.

Lemma throughout_schema_ActivityParameter_insert o :
  throughout keeps_schema (ActivityParameter_insert o).
Proof.
  intros σ. unfold ActivityParameter_insert. cbv zeta.
  destruct (negb (bool_decide (length _ = 0)) && _) eqn:Hcross; [done|].
  destruct (existsb _ _) eqn:Hgroup; [done|].
  destruct (_ || _) eqn:Hck; [done|].
  destruct (bool_decide ((ap_group o, ap_name o) ∈ _)) eqn:Hdup; [done|].
  apply bool_decide_eq_false in Hdup.
  intros (Hpn & Hdn & Hdc & (Hnd & Hrow & Hdb & Hgr)).
  split; [done|]. split; [done|]. split; [done|]. simpl.
  apply orb_false_elim in Hck as [Hck1 Hck2].
  apply bool_decide_eq_false in Hck1, Hck2.
  assert (Hold_db : ∀ a, a ∈ activityparameter σ → ap_group a = ap_group o →
                     ap_database a = ap_database o).
  { intros a Ha Hg.
    assert (a ∈ filter (λ a, ap_group a = ap_group o) (activityparameter σ))
      as Hsame by (by apply list_elem_of_filter).
    apply andb_false_iff in Hcross as [Hlen|Hmem].
    - apply negb_false_iff, bool_decide_eq_true in Hlen.
      apply nil_length_inv in Hlen. rewrite Hlen in Hsame.
      by apply elem_of_nil in Hsame.
    - apply negb_false_iff, bool_decide_eq_true in Hmem.
      apply list_elem_of_fmap in Hmem as (c & Hc & Hcin).
      apply list_elem_of_filter in Hcin as [Hcg Hcin].
      rewrite Hc. apply Hdb; [done|done|congruence]. }
  assert (Hold_gr : ∀ a, a ∈ activityparameter σ →
                     ap_database a = ap_database o → ap_code a = ap_code o →
                     ap_group a = ap_group o).
  { intros a Ha Hd Hc. destruct (decide (ap_group a = ap_group o)); [done|].
    exfalso.
    assert (existsb (λ a, bool_decide (ap_database a = ap_database o) &&
                          bool_decide (ap_code a = ap_code o) &&
                          negb (bool_decide (ap_group a = ap_group o)))
              (activityparameter σ) = true) as Htrue.
    { apply existsb_exists. exists a. split; [by apply list_elem_of_In|].
      cbv beta. rewrite !bool_decide_eq_true_2 by done.
      by rewrite bool_decide_eq_false_2 by done. }
    congruence. }
  split; [|split; [|split]].
  - rewrite fmap_app. apply NoDup_app. split; [done|]. split.
    + intros x Hx [->|Hn]%elem_of_cons; [done|by apply elem_of_nil in Hn].
    + apply NoDup_singleton.
  - intros r [Hr|Hr%list_elem_of_singleton]%elem_of_app; [by apply Hrow|by subst].
  - intros a b [Ha|Ha%list_elem_of_singleton]%elem_of_app
      [Hb|Hb%list_elem_of_singleton]%elem_of_app Hg; subst;
      [by apply Hdb| | |done].
    + by apply Hold_db.
    + symmetry. by apply Hold_db.
  - intros a b [Ha|Ha%list_elem_of_singleton]%elem_of_app
      [Hb|Hb%list_elem_of_singleton]%elem_of_app Hd Hc; subst;
      [by apply Hgr| | |done].
    + by apply Hold_gr.
    + symmetry. by apply Hold_gr.
Qed.

Lemma throughout_quiet_keeps_schema {A} (m : Py A) :
  throughout quiet_frame m → throughout keeps_schema m.
Proof. apply throughout_weaken, quiet_frame_keeps_schema. Qed.

Lemma throughout_schema_insert_many {A} (rows : list A) (insert : A → Py unit) :
  (∀ o, throughout keeps_schema (insert o)) →
  throughout keeps_schema (atomic (for_ rows insert)).
Proof.
  intros Hi. apply throughout_atomic; [apply keeps_schema_rollback_stable|].
  apply throughout_for; [apply _|]. intros o _. apply Hi.
Qed.

Lemma throughout_schema_ProjectParameter_delete :
  throughout keeps_schema ProjectParameter_delete.
Proof.
  apply throughout_modify. intros σ (Hpn & Hrest).
  assert (schema (set_projectparameter [] σ)) as Hs.
  { split; [apply NoDup_nil_2|exact Hrest]. }
  by destruct (projectparameter σ).
Qed.

Lemma throughout_schema_DatabaseParameter_delete database :
  throughout keeps_schema (DatabaseParameter_delete database).
Proof.
  apply throughout_modify. intros σ (Hpn & Hdn & Hdc & Has).
  assert (schema (set_databaseparameter
            (filter (λ o, dp_database o ≠ database) (databaseparameter σ)) σ)) as Hs.
  { split; [done|]. split; [|split; [|done]]; simpl.
    - pose proof (sublist_filter (λ o, dp_database o ≠ database)
                    (databaseparameter σ)) as Hsub.
      apply (fmap_sublist (λ o, (dp_database o, dp_name o))) in Hsub.
      exact (sublist_NoDup _ _ Hdn Hsub).
    - intros o [_ Ho]%list_elem_of_filter. by apply Hdc. }
  by destruct (DatabaseParameter_select σ database).
Qed.

Lemma throughout_schema_ActivityParameter_delete pred :
  throughout keeps_schema (ActivityParameter_delete pred).
Proof.
  apply throughout_modify. intros σ (Hpn & Hdn & Hdc & Has). cbv zeta.
  destruct (foldr_autoupdate_tables
              (filter (λ o, pred o = true) (activityparameter σ))
              (set_activityparameter
                 (filter (λ o, pred o = false) (activityparameter σ)) σ))
    as (Hp & Hd & Ha & _).
  unfold schema. rewrite Hp, Hd, Ha. simpl. split_and!; try done.
  by apply activity_schema_filter.
Qed.

Lemma throughout_schema_Group_expire name g :
  throughout keeps_schema (Group_expire name g).
Proof. apply throughout_quiet_keeps_schema, throughout_Group_save. Qed.

Lemma throughout_schema_Group_get_or_create name :
  throughout keeps_schema (Group_get_or_create name).
Proof. apply throughout_quiet_keeps_schema, throughout_Group_get_or_create. Qed.

Lemma throughout_schema_get_activity key : throughout keeps_schema (get_activity key).
Proof. intros σ. unfold get_activity. by destruct (filter _ _). Qed.

Lemma throughout_schema_Activity_save a : throughout keeps_schema (Activity_save a).
Proof. apply throughout_modify. intros σ Hs. exact Hs. Qed.

Lemma throughout_schema_assert cond msg : throughout keeps_schema (assert cond msg).
Proof. unfold assert. destruct cond; thru_pure. Qed.

Lemma throughout_schema_add_exchanges_to_group group key :
  throughout keeps_schema (ParameterManager_add_exchanges_to_group group key).
Proof.
  unfold ParameterManager_add_exchanges_to_group.
  thru_bind; [apply throughout_schema_get_activity|]. intros activity.
  apply throughout_for; [apply _|]. intros exc _.
  destruct (exc_formula exc); [|thru_pure].
  unfold ParameterizedExchange_link. thru_bind; [thru_pure|]. intros σ.
  destruct (filter _ _); thru_pure.
Qed.

Lemma throughout_schema_create_project o :
  throughout keeps_schema (ProjectParameter_create o).
Proof.
  unfold ProjectParameter_create.
  thru_bind; [apply throughout_schema_Group_get_or_create|]. intros g.
  thru_bind; [apply throughout_schema_Group_expire|]. intros _.
  apply throughout_schema_ProjectParameter_insert.
Qed.

Lemma throughout_schema_create_database o :
  throughout keeps_schema (DatabaseParameter_create o).
Proof.
  unfold DatabaseParameter_create.
  thru_bind; [apply throughout_schema_Group_get_or_create|]. intros g.
  thru_bind; [apply throughout_schema_Group_expire|]. intros _.
  apply throughout_schema_DatabaseParameter_insert.
Qed.

Lemma throughout_schema_create_activity o :
  throughout keeps_schema (ActivityParameter_create o).
Proof.
  unfold ActivityParameter_create.
  thru_bind; [apply throughout_schema_Group_get_or_create|]. intros g.
  thru_bind; [apply throughout_schema_Group_expire|]. intros _.
  apply throughout_schema_ActivityParameter_insert.
Qed.

Lemma throughout_schema_new_project_parameters data :
  throughout keeps_schema (ParameterManager_new_project_parameters data).
Proof.
  unfold ParameterManager_new_project_parameters.
  thru_bind; [apply throughout_schema_assert|]. intros _.
  apply throughout_atomic; [apply keeps_schema_rollback_stable|].
  thru_bind; [apply throughout_schema_ProjectParameter_delete|]. intros _.
  thru_bind.
  { apply throughout_for; [apply _|]. intros rows _.
    apply throughout_schema_insert_many, throughout_schema_ProjectParameter_insert. }
  intros _. thru_bind; [apply throughout_schema_Group_get_or_create|]. intros g.
  thru_bind; [apply throughout_schema_Group_expire|]. intros _.
  apply throughout_quiet_keeps_schema, throughout_ProjectParameter_recalculate.
Qed.

Lemma throughout_schema_new_database_parameters data database :
  throughout keeps_schema (ParameterManager_new_database_parameters data database).
Proof.
  unfold ParameterManager_new_database_parameters.
  thru_bind; [thru_pure|]. intros σ0.
  thru_bind; [apply throughout_schema_assert|]. intros _.
  thru_bind; [apply throughout_schema_assert|]. intros _.
  apply throughout_atomic; [apply keeps_schema_rollback_stable|].
  thru_bind; [apply throughout_schema_DatabaseParameter_delete|]. intros _.
  thru_bind.
  { apply throughout_for; [apply _|]. intros rows _.
    apply throughout_schema_insert_many, throughout_schema_DatabaseParameter_insert. }
  intros _. thru_bind; [apply throughout_schema_Group_get_or_create|]. intros g.
  thru_bind; [apply throughout_schema_Group_expire|]. intros _.
  apply throughout_quiet_keeps_schema, throughout_DatabaseParameter_recalculate.
Qed.

Lemma throughout_schema_new_activity_parameters fuel data group :
  throughout keeps_schema (ParameterManager_new_activity_parameters fuel data group).
Proof.
  unfold ParameterManager_new_activity_parameters.
  thru_bind; [thru_pure|]. intros σ0.
  thru_bind; [apply throughout_schema_assert|]. intros _.
  thru_bind; [apply throughout_schema_assert|]. intros _.
  thru_bind; [apply throughout_schema_assert|]. intros _.
  thru_bind; [apply throughout_schema_Group_get_or_create|]. intros _.
  apply throughout_atomic; [apply keeps_schema_rollback_stable|].
  thru_bind; [apply throughout_schema_ActivityParameter_delete|]. intros _.
  thru_bind.
  { apply throughout_for; [apply _|]. intros rows _.
    apply throughout_schema_insert_many, throughout_schema_ActivityParameter_insert. }
  intros _. thru_bind; [apply throughout_schema_Group_get_or_create|]. intros g.
  thru_bind; [apply throughout_schema_Group_expire|]. intros _.
  eapply throughout_weaken; [apply recalculation_frame_keeps_schema|].
  apply throughout_ActivityParameter_recalculate.
Qed.

Lemma throughout_schema_add_to_group group key :
  throughout keeps_schema (ParameterManager_add_to_group group key).
Proof.
  unfold ParameterManager_add_to_group.
  thru_bind; [apply throughout_schema_Group_get_or_create|]. intros _.
  thru_bind; [apply throughout_schema_get_activity|]. intros activity.
  destruct (act_parameters activity) as [parameters|]; [|thru_pure].
  thru_bind; [apply throughout_schema_ActivityParameter_delete|]. intros _.
  thru_bind.
  { apply throughout_schema_insert_many, throughout_schema_create_activity. }
  intros _. thru_bind; [apply throughout_schema_Activity_save|]. intros _.
  thru_bind; [apply throughout_schema_add_exchanges_to_group|]. intros _.
  thru_bind; [thru_pure|]. intros σ. thru_pure.
Qed.

Lemma throughout_schema_run_write w : throughout keeps_schema (run_write w).
Proof.
  destruct w; simpl.
  - apply throughout_schema_new_project_parameters.
  - apply throughout_schema_new_database_parameters.
  - apply throughout_schema_new_activity_parameters.
  - thru_bind; [apply throughout_schema_add_to_group|]. intros _. thru_pure.
  - apply throughout_schema_create_project.
  - apply throughout_schema_create_database.
  - apply throughout_schema_create_activity.
Qed.

(** X8.  The constraints of the parameter tables survive every write entry
    point: if the unique indexes, the [CHECK] constraints and the two
    properties the [activityparameter] triggers guard hold before a bulk
    replacement, an [add_to_group] or a [create], they hold in the store
    it leaves, whether it returned or raised. *)
Theorem writes_keep_table_constraints (w : Write) (σ σ' : Store) :
  schema σ → ends_in (run_write w) σ σ' → schema σ'.
Proof.
  intros Hs Hend.
  exact (throughout_ends_in keeps_schema _ _ _ (throughout_schema_run_write w) Hend Hs).
Qed.

(** ** The scope of a recalculation *)

#[local] Instance table_only_preorder k : PreOrder (table_only k).
Proof.
  split.
  - intros σ. unfold table_only. split_and!; done.
  - intros σ1 σ2 σ3 (Hp & Hd & Ha & He & Hg & Hw) (Hp' & Hd' & Ha' & He' & Hg' & Hw').
    unfold table_only. split_and!.
    + intros Hk. by rewrite Hp', Hp.
    + intros Hk. by rewrite Hd', Hd.
    + intros Hk. by rewrite Ha', Ha.
    + by rewrite He'.
    + by rewrite Hg'.
    + by etrans.
Qed.

Lemma table_only_rollback_stable k : rollback_stable (table_only k).
Proof.
  intros σ σ1 (_ & _ & _ & _ & _ & Hw). unfold table_only. split_and!; done.
Qed.

Lemma table_only_same_world k σ σ' : table_only k σ σ' → same_world σ σ'.
Proof. by intros (_ & _ & _ & _ & _ & Hw). Qed.

Lemma table_only_groups k σ tab : table_only k σ (set_group_table tab σ).
Proof. unfold table_only. split_and!; done. Qed.

Lemma throughout_table_only_Group_save k name g :
  throughout (table_only k) (Group_save name g).
Proof. apply throughout_modify. intros σ. apply table_only_groups. Qed.

Lemma throughout_table_only_Group_get k name :
  throughout (table_only k) (Group_get name).
Proof. intros σ. unfold Group_get. destruct (group_table σ !! name); reflexivity. Qed.

Lemma throughout_table_only_Group_get_or_create k name :
  throughout (table_only k) (Group_get_or_create name).
Proof.
  intros σ. unfold Group_get_or_create.
  destruct (group_table σ !! name); [reflexivity|].
  apply (throughout_bind (table_only k)); [apply throughout_table_only_Group_save|].
  intros _. apply throughout_ret; apply _.
Qed.

Lemma throughout_table_only_expire_downstream k group :
  throughout (table_only k) (ParameterBase_expire_downstream group).
Proof. apply throughout_modify. intros σ. apply table_only_groups. Qed.

Lemma throughout_forall {A B} (R : B → Store → Store → Prop) (m : Py A) :
  (∀ k, throughout (R k) m) → throughout (λ σ σ', ∀ k, R k σ σ') m.
Proof.
  intros Hm σ. destruct (m σ) eqn:Hr; [| |done]; intros k;
    specialize (Hm k σ); by rewrite Hr in Hm.
Qed.

(** The writes to the group table alone fit every frame below. *)
Lemma throughout_group_write {A} (R : Store → Store → Prop) (m : Py A) :
  (∀ σ σ', (∀ k, table_only k σ σ') → R σ σ') →
  (∀ k, throughout (table_only k) m) → throughout R m.
Proof.
  intros HR Hm. eapply throughout_weaken; [exact HR|].
  by apply throughout_forall.
Qed.

#[local] Instance project_frame_preorder : PreOrder project_frame.
Proof.
  split.
  - intros σ. split; reflexivity.
  - intros σ1 σ2 σ3 [H1 K1] [H2 K2]. split; [by etrans|by rewrite K2].
Qed.

Lemma project_frame_rollback_stable : rollback_stable project_frame.
Proof.
  intros σ σ1 [H1 _]. split; [by apply table_only_rollback_stable|done].
Qed.

Lemma groups_project_frame σ σ' : (∀ k, table_only k σ σ') → project_frame σ σ'.
Proof.
  intros Hk. split; [apply Hk|].
  destruct (Hk kind_database) as (-> & _); done.
Qed.

Lemma project_frame_autoupdate name σ : project_frame σ (autoupdate name σ).
Proof. apply groups_project_frame. intros k. apply table_only_groups. Qed.

Lemma throughout_project_frame_update_amount key a :
  throughout project_frame (ProjectParameter_update_amount key a).
Proof.
  apply throughout_modify. intros σ. cbv zeta.
  set (σ1 := set_projectparameter _ σ).
  assert (project_frame σ σ1) as H1.
  { split; [unfold table_only; split_and!; done|]. simpl.
    rewrite <- list_fmap_compose. apply list_fmap_ext. intros i o _.
    simpl. by case_bool_decide. }
  destruct (existsb _ _); [|done]. etrans; [exact H1|apply project_frame_autoupdate].
Qed.

Lemma throughout_project_frame_recalculate :
  throughout project_frame ProjectParameter_recalculate.
Proof.
  unfold ProjectParameter_recalculate.
  thru_bind; [thru_pure|]. intros σ0.
  destruct (negb _); [thru_pure|].
  case_bool_decide; [thru_pure|].
  thru_bind; [thru_pure|]. intros data.
  apply throughout_atomic; [apply project_frame_rollback_stable|].
  thru_bind.
  - apply throughout_for_items; [apply _|].
    apply throughout_project_frame_update_amount.
  - intros ?. thru_bind.
    { apply throughout_group_write; [apply groups_project_frame|].
      intros k. apply throughout_table_only_Group_get_or_create. }
    intros g. thru_bind.
    { apply throughout_group_write; [apply groups_project_frame|].
      intros k. apply throughout_table_only_Group_save. }
    intros ?. apply throughout_group_write; [apply groups_project_frame|].
    intros k. apply throughout_table_only_expire_downstream.
Qed.

(** X9.  A recalculation of the project scope, whether it returns or
    raises, writes nothing but amounts of project parameters and rows of
    the group table: the database and activity parameters, the
    parameterized exchanges, the dependency edges and everything outside
    the parameter tables are as they were, and no project parameter was
    added, removed, reordered or changed in its name, formula or data. *)
Theorem project_recalculate_stays_in_project_scope (σ σ' : Store) :
  ends_in ProjectParameter_recalculate σ σ' → project_frame σ σ'.
Proof. apply throughout_ends_in, throughout_project_frame_recalculate. Qed.

#[local] Instance database_scope_preorder database : PreOrder (database_scope database).
Proof.
  split.
  - intros σ. unfold database_scope. split_and!; done.
  - intros σ1 σ2 σ3 (Hp & Hf & Ha & He & Hg & Hw) (Hp' & Hf' & Ha' & He' & Hg' & Hw').
    unfold database_scope. split_and!.
    + by rewrite Hp'.
    + by rewrite Hf'.
    + by rewrite Ha'.
    + by rewrite He'.
    + intros e Hne. by rewrite Hg', Hg.
    + by etrans.
Qed.

#[local] Instance database_frame_preorder database : PreOrder (database_frame database).
Proof.
  split.
  - intros σ. split; reflexivity.
  - intros σ1 σ2 σ3 [H1 K1] [H2 K2]. split; [by etrans|by rewrite K2].
Qed.

Lemma database_scope_rollback_stable database :
  rollback_stable (database_scope database).
Proof.
  intros σ σ1 (_ & _ & _ & _ & _ & Hw). unfold database_scope. split_and!; done.
Qed.

Lemma database_frame_rollback_stable database :
  rollback_stable (database_frame database).
Proof.
  intros σ σ1 [H1 _]. split; [by apply database_scope_rollback_stable|done].
Qed.

Lemma project_frame_database_frame database σ σ' :
  project_frame σ σ' → database_frame database σ σ'.
Proof.
  intros [(_ & Hd & Ha & He & Hg & Hw) Hp]. unfold database_frame, database_scope.
  rewrite Hd, Ha, Hg by done. split_and!; done.
Qed.

Lemma groups_database_frame database σ σ' :
  (∀ k, table_only k σ σ') → database_frame database σ σ'.
Proof. intros Hk. by apply project_frame_database_frame, groups_project_frame. Qed.

Lemma filter_fmap_off {A} (P : A → Prop) `{!∀ x, Decision (P x)} (f : A → A) (l : list A) :
  (∀ x, P x → f x = x) → (∀ x, P (f x) → P x) →
  filter P (f <$> l) = filter P l.
Proof.
  intros Hfix Hback. induction l as [|x l IH]; [done|].
  rewrite fmap_cons, !filter_cons, IH.
  destruct (decide (P x)) as [Hx|Hx].
  - rewrite (Hfix x Hx). by rewrite decide_True.
  - rewrite decide_False; [done|]. intros Hfx. by apply Hx, Hback.
Qed.

Lemma throughout_database_frame_update_amount database key a :
  throughout (database_frame database)
    (DatabaseParameter_update_amount database key a).
Proof.
  apply throughout_modify. intros σ. cbv zeta.
  set (σ1 := set_databaseparameter _ σ).
  assert (database_frame database σ σ1) as H1.
  { unfold database_frame, database_scope. simpl. split_and!; try done.
    - apply filter_fmap_off.
      + intros o Ho. rewrite (bool_decide_eq_false_2 (dp_database o = database)) by done.
        by rewrite andb_false_r.
      + intros o. by destruct (_ && _).
    - rewrite <- list_fmap_compose. apply list_fmap_ext. intros i o _.
      simpl. by destruct (_ && _). }
  destruct (existsb _ _); [|done]. etrans; [exact H1|].
  apply groups_database_frame. intros k. apply table_only_groups.
Qed.

Lemma database_frame_edges database σ edges :
  (∀ e, e ≠ (database, "project") → e ∈ edges ↔ e ∈ groupdependency σ) →
  database_frame database σ (set_groupdependency edges σ).
Proof. intros He. unfold database_frame, database_scope. split_and!; done. Qed.

Lemma throughout_database_frame_get_or_create database :
  throughout (database_frame database)
    (GroupDependency_get_or_create database "project").
Proof.
  unfold GroupDependency_get_or_create. thru_bind; [thru_pure|]. intros σ0.
  case_bool_decide; [thru_pure|].
  unfold GroupDependency_save. thru_bind; [thru_pure|]. intros σ1.
  case_bool_decide; [thru_pure|].
  destruct (_ && _); [thru_pure|].
  intros σ. unfold GroupDependency_insert.
  case_bool_decide; [reflexivity|].
  case_bool_decide; [reflexivity|].
  case_bool_decide; [reflexivity|].
  apply database_frame_edges. intros e Hne. set_solver.
Qed.

Lemma throughout_database_frame_delete database :
  throughout (database_frame database)
    (GroupDependency_delete (λ e, bool_decide (e.1 = database) &&
                                  bool_decide (e.2 = "project"))).
Proof.
  apply throughout_modify. intros σ. apply database_frame_edges.
  intros [g d] Hne. rewrite elem_of_filter. simpl.
  split; [by intros [_ ?]|]. intros He. split; [|done].
  apply andb_false_iff.
  destruct (decide (g = database)) as [->|Hg].
  - right. apply bool_decide_eq_false_2. congruence.
  - left. by apply bool_decide_eq_false_2.
Qed.

Lemma throughout_database_frame_recalculate database :
  throughout (database_frame database) (DatabaseParameter_recalculate database).
Proof.
  unfold DatabaseParameter_recalculate.
  thru_bind; [thru_pure|]. intros σ0.
  thru_bind.
  { destruct (ProjectParameter_expired σ0); [|thru_pure].
    eapply throughout_weaken; [apply project_frame_database_frame|].
    apply throughout_project_frame_recalculate. }
  intros ?. thru_bind; [thru_pure|]. intros σ1.
  destruct (negb _); [thru_pure|].
  case_bool_decide; [thru_pure|].
  thru_bind; [thru_pure|]. intros new_symbols.
  destruct (negb (bool_decide (_ ∖ _ = ∅))); [thru_pure|].
  thru_bind.
  { destruct (negb _).
    - thru_bind; [apply throughout_database_frame_get_or_create|].
      intros ?. thru_bind; [thru_pure|]. intros ?. thru_pure.
    - thru_bind; [apply throughout_database_frame_delete|]. intros ?. thru_pure. }
  intros glo. thru_bind; [thru_pure|]. intros data.
  apply throughout_atomic; [apply database_frame_rollback_stable|].
  thru_bind.
  - apply throughout_for_items; [apply _|].
    apply throughout_database_frame_update_amount.
  - intros ?. thru_bind.
    { apply throughout_group_write; [apply groups_database_frame|].
      intros k. apply throughout_table_only_Group_get. }
    intros g. thru_bind.
    { apply throughout_group_write; [apply groups_database_frame|].
      intros k. apply throughout_table_only_Group_save. }
    intros ?. apply throughout_group_write; [apply groups_database_frame|].
    intros k. apply throughout_table_only_expire_downstream.
Qed.

(** X10.  A recalculation of the scope of a database, whether it returns
    or raises, stays in that scope and the project scope above it: the
    rows of every other database are untouched, as are the activity
    parameters, the parameterized exchanges and everything outside the
    parameter tables; no project or database parameter was added, removed,
    reordered or changed in a column other than [amount]; and the only
    dependency edge that may have come or gone is the one from the database
    to the project group. *)
Theorem database_recalculate_stays_in_its_scope (database : string) (σ σ' : Store) :
  ends_in (DatabaseParameter_recalculate database) σ σ' →
  database_frame database σ σ'.
Proof. apply throughout_ends_in, throughout_database_frame_recalculate. Qed.

(** ** Bulk replacement *)

Lemma assert_Ok cond msg σ u σ' : assert cond msg σ = Ok u σ' → σ' = σ.
Proof. unfold assert. destruct cond; [by intros [= _ <-]|done]. Qed.

Lemma assert_Raise cond msg σ e σ' : assert cond msg σ = Raise e σ' → σ' = σ.
Proof. unfold assert. destruct cond; [done|by intros [= _ <-]]. Qed.

Lemma rollback_same_world σ σ1 : same_world σ σ1 → rollback σ σ1 = σ.
Proof.
  intros (Hdb & Hdi & Hac & Hno). unfold rollback.
  rewrite Hdb, Hdi, Hac, Hno. by destruct σ.
Qed.

Lemma atomic_Raise {A} (m : Py A) σ e σ' :
  atomic m σ = Raise e σ' → ∃ σ1, m σ = Raise e σ1 ∧ σ' = rollback σ σ1.
Proof.
  unfold atomic. destruct (m σ) as [a σ1|e1 σ1|]; [done| |done].
  intros [= <- <-]. by exists σ1.
Qed.

Lemma for_appends {A B} (tab : Store → list B) (row : A → list B)
    (body : A → Py unit) (xs : list A) :
  (∀ x σ σ', body x σ = Ok tt σ' → tab σ' = tab σ ++ row x) →
  ∀ σ σ', for_ xs body σ = Ok tt σ' → tab σ' = tab σ ++ concat (row <$> xs).
Proof.
  intros Hb. induction xs as [|x xs IH]; intros σ σ'; simpl.
  - intros [= ->]. by rewrite app_nil_r.
  - intros ([] & σ1 & Hx & Hrest)%bind_Ok.
    rewrite (IH _ _ Hrest), (Hb _ _ _ Hx). by rewrite <- app_assoc.
Qed.

Lemma concat_singletons {A} (l : list A) : concat ((λ o, [o]) <$> l) = l.
Proof.
  induction l as [|x l IH]; [done|]. by rewrite fmap_cons, concat_cons, IH.
Qed.

(** The rows a successful bulk insert leaves in a table: those it had,
    then the slices one after the other. *)
Lemma bulk_insert_appends {B} (tab : Store → list B) (insert : B → Py unit)
    (data : list B) σ σ' :
  (∀ o σ σ', insert o σ = Ok tt σ' → tab σ' = tab σ ++ [o]) →
  for_ (slices (length data) data) (λ rows, atomic (for_ rows insert)) σ = Ok tt σ' →
  tab σ' = tab σ ++ data.
Proof.
  intros Hi Hr.
  apply (for_appends tab id) in Hr.
  - rewrite list_fmap_id in Hr. rewrite Hr. f_equal.
    by apply slices_more.
  - intros rows σ1 σ2 Hrows. rewrite atomic_Ok in Hrows.
    apply (for_appends tab (λ o, [o])) in Hrows; [|exact Hi].
    by rewrite concat_singletons in Hrows.
Qed.

Lemma filter_all {A} (P : A → Prop) `{!∀ x, Decision (P x)} (l : list A) :
  Forall P l → filter P l = l.
Proof.
  induction 1 as [|x l Hx _ IH]; [done|]. by rewrite filter_cons_True, IH.
Qed.

Lemma filter_none {A} (P : A → Prop) `{!∀ x, Decision (P x)} (l : list A) :
  Forall (λ x, ¬ P x) l → filter P l = [].
Proof.
  induction 1 as [|x l Hx _ IH]; [done|]. by rewrite filter_cons_False, IH.
Qed.

Lemma fmap_filter_key {A B} (f : A → B) (P : A → Prop) `{!∀ x, Decision (P x)}
    (l l' : list A) :
  (∀ x y, f x = f y → P x → P y) →
  f <$> l = f <$> l' → f <$> filter P l = f <$> filter P l'.
Proof.
  intros HP. revert l'. induction l as [|x l IH]; intros [|y l'] Heq; try done.
  rewrite !fmap_cons in Heq. injection Heq as Hxy Heq.
  rewrite !filter_cons. destruct (decide (P x)) as [Hx|Hx].
  - rewrite decide_True by (by eapply HP). rewrite !fmap_cons, Hxy. f_equal. by apply IH.
  - rewrite decide_False; [by apply IH|]. intros Hy. apply Hx. by eapply HP.
Qed.

(** *** Project parameters *)

Lemma ProjectParameter_insert_Ok o σ σ' :
  ProjectParameter_insert o σ = Ok tt σ' →
  projectparameter σ' = projectparameter σ ++ [o].
Proof. unfold ProjectParameter_insert. case_bool_decide; [done|]. by intros [= <-]. Qed.

Lemma throughout_table_only_ProjectParameter_insert o :
  throughout (table_only kind_project) (ProjectParameter_insert o).
Proof.
  intros σ. unfold ProjectParameter_insert. case_bool_decide; [reflexivity|].
  unfold table_only. split_and!; done.
Qed.

Lemma throughout_table_only_ProjectParameter_delete :
  throughout (table_only kind_project) ProjectParameter_delete.
Proof.
  apply throughout_modify. intros σ. unfold table_only.
  destruct (projectparameter σ); split_and!; done.
Qed.

Lemma throughout_table_only_bulk_insert {B} k (insert : B → Py unit) chunks :
  (∀ o, throughout (table_only k) (insert o)) →
  throughout (table_only k) (for_ chunks (λ rows, atomic (for_ rows insert))).
Proof.
  intros Hi. apply throughout_for; [apply _|]. intros rows _.
  apply throughout_atomic; [apply table_only_rollback_stable|].
  apply throughout_for; [apply _|]. intros o _. apply Hi.
Qed.

(** The statements of a bulk replacement before the recalculation. *)
Lemma throughout_table_only_expire k name :
  throughout (table_only k)
    (let! g := Group_get_or_create name in Group_expire name g).
Proof.
  thru_bind; [apply throughout_table_only_Group_get_or_create|]. intros g.
  apply throughout_table_only_Group_save.
Qed.

Lemma project_frame_table_only σ σ' : project_frame σ σ' → table_only kind_project σ σ'.
Proof. by intros [? _]. Qed.

Lemma throughout_table_only_new_project_parameters data :
  throughout (table_only kind_project) (ParameterManager_new_project_parameters data).
Proof.
  unfold ParameterManager_new_project_parameters.
  thru_bind; [unfold assert; destruct (bool_decide _); thru_pure|]. intros _.
  apply throughout_atomic; [apply table_only_rollback_stable|].
  thru_bind; [apply throughout_table_only_ProjectParameter_delete|]. intros _.
  thru_bind.
  { apply throughout_table_only_bulk_insert,
      throughout_table_only_ProjectParameter_insert. }
  intros _. thru_bind; [apply throughout_table_only_Group_get_or_create|].
  intros g. thru_bind; [apply throughout_table_only_Group_save|]. intros _.
  eapply throughout_weaken; [apply project_frame_table_only|].
  apply throughout_project_frame_recalculate.
Qed.

(** X11.  After [new_project_parameters(data)] has returned, the project
    table holds exactly one row per entry of [data], in the order of
    [data], with the name, formula and extra data given (the amounts are
    those of the recalculation); the rows it had before are gone.  The
    database and activity parameters, the parameterized exchanges, the
    dependency edges and everything outside the parameter tables are as
    they were. *)
Theorem new_project_parameters_replaces_table (data : list NewParameter)
    (σ σ' : Store) :
  ParameterManager_new_project_parameters data σ = Ok tt σ' →
  pp_key <$> projectparameter σ' =
    (λ ds, (np_name ds, np_formula ds, np_data ds)) <$> data ∧
  table_only kind_project σ σ'.
Proof.
  intros Hrun. split;
    [|exact (throughout_Ok _ _ _ _ _
               (throughout_table_only_new_project_parameters data) Hrun)].
  revert Hrun. unfold ParameterManager_new_project_parameters. cbv zeta.
  intros ([] & σ0 & ->%assert_Ok & Hrest)%bind_Ok.
  rewrite atomic_Ok in Hrest.
  apply bind_Ok in Hrest as ([] & σa & Hdel & Hrest).
  apply bind_Ok in Hrest as ([] & σb & Hins & Hrest).
  apply bind_Ok in Hrest as (g & σc & Hgc & Hrest).
  apply bind_Ok in Hrest as ([] & σd & Hexp & Hrec).
  assert (projectparameter σa = []) as Ha.
  { injection Hdel as <-. by destruct (projectparameter σ). }
  apply (bulk_insert_appends projectparameter) in Hins;
    [|apply ProjectParameter_insert_Ok].
  rewrite Ha in Hins. simpl in Hins.
  destruct (throughout_Ok _ _ _ _ _
              (throughout_table_only_Group_get_or_create kind_database _) Hgc)
    as (Hc & _).
  destruct (throughout_Ok _ _ _ _ _
              (throughout_table_only_Group_save kind_database _ _) Hexp)
    as (Hd & _).
  destruct (throughout_Ok _ _ _ _ _ throughout_project_frame_recalculate Hrec)
    as [_ Hk].
  rewrite Hk, Hd, Hc, Hins by done. rewrite <- list_fmap_compose.
  by apply list_fmap_ext.
Qed.

(** *** Database parameters *)

Lemma DatabaseParameter_insert_Ok o σ σ' :
  DatabaseParameter_insert o σ = Ok tt σ' →
  databaseparameter σ' = databaseparameter σ ++ [o].
Proof.
  unfold DatabaseParameter_insert. case_bool_decide; [done|].
  case_bool_decide; [done|]. by intros [= <-].
Qed.

Lemma throughout_table_only_DatabaseParameter_insert o :
  throughout (table_only kind_database) (DatabaseParameter_insert o).
Proof.
  intros σ. unfold DatabaseParameter_insert. case_bool_decide; [reflexivity|].
  case_bool_decide; [reflexivity|]. unfold table_only. split_and!; done.
Qed.

Lemma throughout_table_only_DatabaseParameter_delete database :
  throughout (table_only kind_database) (DatabaseParameter_delete database).
Proof.
  apply throughout_modify. intros σ. unfold table_only.
  destruct (DatabaseParameter_select σ database); split_and!; done.
Qed.

(** The statements of [new_database_parameters] before the recalculation. *)
Lemma new_database_rows_Ok database (rows : list DatabaseParameter) σ σ' g :
  Forall (λ o, dp_database o = database) rows →
  (DatabaseParameter_delete database ;;;
   for_ (slices (length rows) rows) DatabaseParameter_insert_many ;;;
   Group_get_or_create database) σ = Ok g σ' →
  table_only kind_database σ σ' ∧
  DatabaseParameter_select σ' database = rows ∧
  filter (λ o, dp_database o ≠ database) (databaseparameter σ') =
    filter (λ o, dp_database o ≠ database) (databaseparameter σ).
Proof.
  intros Hdb Hrun.
  assert (table_only kind_database σ σ') as Hframe.
  { revert Hrun. apply throughout_Ok.
    thru_bind; [apply throughout_table_only_DatabaseParameter_delete|]. intros _.
    thru_bind; [|intros _; apply throughout_table_only_Group_get_or_create].
    apply throughout_table_only_bulk_insert,
      throughout_table_only_DatabaseParameter_insert. }
  split; [exact Hframe|].
  apply bind_Ok in Hrun as ([] & σa & Hdel & Hrest).
  apply bind_Ok in Hrest as ([] & σb & Hins & Hgc).
  assert (databaseparameter σa =
            filter (λ o, dp_database o ≠ database) (databaseparameter σ)) as Ha.
  { injection Hdel as <-. by destruct (DatabaseParameter_select σ database). }
  apply (bulk_insert_appends databaseparameter) in Hins;
    [|apply DatabaseParameter_insert_Ok].
  assert (databaseparameter σ' = databaseparameter σb) as Hb.
  { by destruct (throughout_Ok _ _ _ _ _
         (throughout_table_only_Group_get_or_create kind_project database) Hgc)
       as (_ & -> & _). }
  unfold DatabaseParameter_select. rewrite Hb, Hins, Ha, !filter_app. split.
  - rewrite (filter_none (λ o, dp_database o = database)).
    + by rewrite (filter_all _ rows).
    + apply Forall_forall. by intros o [? _]%list_elem_of_filter.
  - rewrite (filter_none _ rows).
    + rewrite app_nil_r. apply filter_all, Forall_forall.
      by intros o [? _]%list_elem_of_filter.
    + eapply Forall_impl; [exact Hdb|]. naive_solver.
Qed.

Lemma table_only_database_scope database σ σ' :
  table_only kind_database σ σ' →
  filter (λ o, dp_database o ≠ database) (databaseparameter σ') =
    filter (λ o, dp_database o ≠ database) (databaseparameter σ) →
  database_scope database σ σ'.
Proof.
  intros (Hp & _ & Ha & He & Hg & Hw) Hf. unfold database_scope.
  rewrite Hp, Ha, Hg by done. split_and!; done.
Qed.

(** X12.  After [new_database_parameters(data, database)] has returned,
    the rows of [database] are exactly one per entry of [data], in the
    order of [data], with the name, formula and extra data given; the rows
    of every other database, the activity parameters and the parameterized
    exchanges are untouched, no project parameter changed in anything but
    its amount, and the only dependency edge that may have come or gone is
    the one from [database] to the project group. *)
Theorem new_database_parameters_replaces_rows (data : list NewParameter)
    (database : string) (σ σ' : Store) :
  ParameterManager_new_database_parameters data database σ = Ok tt σ' →
  dp_key <$> DatabaseParameter_select σ' database =
    (λ ds, (database, np_name ds, np_formula ds, np_data ds)) <$> data ∧
  database_scope database σ σ'.
Proof.
  unfold ParameterManager_new_database_parameters. cbv zeta.
  intros (σ0 & ? & [= <- <-] & Hrest)%bind_Ok.
  apply bind_Ok in Hrest as ([] & ? & ->%assert_Ok & Hrest).
  apply bind_Ok in Hrest as ([] & ? & ->%assert_Ok & Hrest).
  rewrite atomic_Ok in Hrest.
  apply bind_Ok in Hrest as ([] & σa & Hdel & Hrest).
  apply bind_Ok in Hrest as ([] & σb & Hins & Hrest).
  apply bind_Ok in Hrest as (g & σc & Hgc & Hrest).
  apply bind_Ok in Hrest as ([] & σd & Hexp & Hrec).
  set (rows := _ <$> data) in *.
  destruct (new_database_rows_Ok database rows σ σc g) as (Hframe & Hsel & Hoff).
  { apply Forall_forall. intros o (ds & -> & _)%list_elem_of_fmap. done. }
  { apply bind_Ok. exists tt, σa. split; [done|].
    apply bind_Ok. exists tt, σb. by split. }
  pose proof (throughout_Ok _ _ _ _ _
                (throughout_table_only_Group_save kind_database _ _) Hexp) as Hcd.
  destruct (throughout_Ok _ _ _ _ _
              (throughout_database_frame_recalculate database) Hrec) as [Hscope Hk].
  assert (databaseparameter σd = databaseparameter σc) as Hd.
  { injection Hexp as <-. done. }
  split.
  - unfold DatabaseParameter_select in *.
    rewrite (fmap_filter_key dp_key _ _ (databaseparameter σd)); [| |exact Hk].
    + rewrite Hd, Hsel. unfold rows. rewrite <- list_fmap_compose.
      by apply list_fmap_ext.
    + intros x y Hxy Hx. unfold dp_key in Hxy. injection Hxy as Hdb _ _ _.
      congruence.
  - etrans; [|exact Hscope].
    apply table_only_database_scope; [by etrans|]. by rewrite Hd.
Qed.

(** *** Activity parameters *)

Lemma ActivityParameter_insert_Ok o σ σ' :
  ActivityParameter_insert o σ = Ok tt σ' →
  activityparameter σ' = activityparameter σ ++ [o].
Proof.
  unfold ActivityParameter_insert. cbv zeta.
  destruct (negb _ && _); [done|]. destruct (existsb _ _); [done|].
  destruct (_ || _); [done|]. destruct (bool_decide _); [done|].
  by intros [= <-].
Qed.

Lemma throughout_table_only_ActivityParameter_insert o :
  throughout (table_only kind_activity) (ActivityParameter_insert o).
Proof.
  intros σ. unfold ActivityParameter_insert. cbv zeta.
  destruct (negb _ && _); [reflexivity|]. destruct (existsb _ _); [reflexivity|].
  destruct (_ || _); [reflexivity|]. destruct (bool_decide _); [reflexivity|].
  unfold table_only. split_and!; done.
Qed.

Lemma throughout_table_only_ActivityParameter_delete pred :
  throughout (table_only kind_activity) (ActivityParameter_delete pred).
Proof.
  apply throughout_modify. intros σ. cbv zeta.
  destruct (foldr_autoupdate_tables
              (filter (λ o, pred o = true) (activityparameter σ))
              (set_activityparameter
                 (filter (λ o, pred o = false) (activityparameter σ)) σ))
    as (Hp & Hd & Ha & He & Hg & Hw & _).
  unfold table_only. rewrite Hp, Hd, He, Hg. split_and!; done.
Qed.

Lemma ActivityParameter_delete_Ok pred σ σ' :
  ActivityParameter_delete pred σ = Ok tt σ' →
  activityparameter σ' = filter (λ o, pred o = false) (activityparameter σ).
Proof.
  intros [= <-].
  by destruct (foldr_autoupdate_tables
              (filter (λ o, pred o = true) (activityparameter σ))
              (set_activityparameter
                 (filter (λ o, pred o = false) (activityparameter σ)) σ))
    as (_ & _ & -> & _).
Qed.

Lemma table_only_world_grows k σ σ' : table_only k σ σ' → world_grows σ σ'.
Proof.
  intros (_ & _ & _ & _ & _ & Hdb & Hdi & Hac & Hno).
  unfold world_grows. rewrite Hdi. done.
Qed.

Lemma recalculation_frame_world_grows σ σ' :
  recalculation_frame σ σ' → world_grows σ σ'.
Proof.
  intros ((_ & _ & _ & _ & Hdb & Hac & Hno) & _ & Hdi & _). done.
Qed.

#[local] Instance world_grows_preorder : PreOrder world_grows.
Proof.
  split.
  - intros σ. unfold world_grows. split_and!; done.
  - intros σ1 σ2 σ3 (Hdb & Hac & Hno & Hdi) (Hdb' & Hac' & Hno' & Hdi').
    unfold world_grows. rewrite Hdb', Hac', Hno'. split_and!; try done.
    by etrans.
Qed.

(** X13.  After [new_activity_parameters(data, group)] has returned, the
    activity table holds the rows of the other groups in their old order,
    followed by exactly one row per entry of [data], in the order of
    [data], in [group] and with the database, code, name, formula and
    extra data given; no project or database parameter was added, removed,
    reordered or changed in a column other than [amount], and the
    parameterized exchanges are untouched. *)
Theorem new_activity_parameters_replaces_group (fuel : nat)
    (data : list NewActivityParameter) (group : string) (σ σ' : Store) :
  ParameterManager_new_activity_parameters fuel data group σ = Ok tt σ' →
  ap_key <$> activityparameter σ' =
    (ap_key <$> filter (λ o, ap_group o ≠ group) (activityparameter σ)) ++
    ((λ ds, (group, nap_database ds, nap_code ds, nap_name ds,
             nap_formula ds, nap_data ds)) <$> data) ∧
  pp_key <$> projectparameter σ' = pp_key <$> projectparameter σ ∧
  dp_key <$> databaseparameter σ' = dp_key <$> databaseparameter σ ∧
  parameterizedexchange σ' = parameterizedexchange σ.
Proof.
  unfold ParameterManager_new_activity_parameters. cbv zeta.
  intros (σ0 & ? & [= <- <-] & Hrest)%bind_Ok.
  apply bind_Ok in Hrest as ([] & ? & ->%assert_Ok & Hrest).
  apply bind_Ok in Hrest as ([] & ? & ->%assert_Ok & Hrest).
  apply bind_Ok in Hrest as ([] & ? & ->%assert_Ok & Hrest).
  apply bind_Ok in Hrest as (g0 & σ1 & Hg0 & Hrest).
  rewrite atomic_Ok in Hrest.
  apply bind_Ok in Hrest as ([] & σa & Hdel & Hrest).
  apply bind_Ok in Hrest as ([] & σb & Hins & Hrest).
  apply bind_Ok in Hrest as (g & σc & Hgc & Hrest).
  apply bind_Ok in Hrest as ([] & σd & Hexp & Hrec).
  pose proof (throughout_Ok _ _ _ _ _
    (throughout_table_only_Group_get_or_create kind_project _) Hg0) as H01.
  pose proof (throughout_Ok _ _ _ _ _
    (throughout_table_only_Group_get_or_create kind_activity _) Hg0) as H01'.
  pose proof (throughout_Ok _ _ _ _ _
    (throughout_table_only_ActivityParameter_delete _) Hdel) as H1a.
  pose proof (throughout_Ok _ _ _ _ _
    (throughout_table_only_bulk_insert kind_activity _ _
       throughout_table_only_ActivityParameter_insert) Hins) as Hab.
  pose proof (throughout_Ok _ _ _ _ _
    (throughout_table_only_Group_get_or_create kind_project _) Hgc) as Hbc.
  pose proof (throughout_Ok _ _ _ _ _
    (throughout_table_only_Group_get_or_create kind_activity _) Hgc) as Hbc'.
  pose proof (throughout_Ok _ _ _ _ _
    (throughout_table_only_Group_save kind_project _ _) Hexp) as Hcd.
  pose proof (throughout_Ok _ _ _ _ _
    (throughout_table_only_Group_save kind_activity _ _) Hexp) as Hcd'.
  destruct (throughout_Ok _ _ _ _ _
    (throughout_ActivityParameter_recalculate fuel group) Hrec)
    as ((Hp & Hd & Ha & He & _) & _).
  apply ActivityParameter_delete_Ok in Hdel.
  apply (bulk_insert_appends activityparameter) in Hins;
    [|apply ActivityParameter_insert_Ok].
  assert (table_only kind_activity σ σd) as (Hp0 & Hd0 & _ & He0 & _).
  { etrans; [exact H01'|]. etrans; [exact H1a|]. etrans; [exact Hab|].
    etrans; [exact Hbc'|exact Hcd']. }
  destruct H01 as (_ & _ & H01 & _). destruct Hbc as (_ & _ & Hbc & _).
  destruct Hcd as (_ & _ & Hcd & _).
  rewrite Hp, Hd, Ha, He, Hp0, Hd0, He0 by done. split_and!; try done.
  rewrite Hcd, Hbc, Hins, Hdel, H01 by done. rewrite fmap_app. f_equal.
  - f_equal. apply list_filter_iff. intros o.
    rewrite bool_decide_eq_false. done.
  - rewrite <- list_fmap_compose. by apply list_fmap_ext.
Qed.

(** *** A bulk replacement that fails *)

Lemma atomic_Raise_restores {A} (m : Py A) σ e σ' :
  throughout same_world m → atomic m σ = Raise e σ' → σ' = σ.
Proof.
  intros Hm (σ1 & Hr & ->)%atomic_Raise.
  apply rollback_same_world. exact (throughout_Raise _ _ _ _ _ Hm Hr).
Qed.

Lemma database_frame_same_world database σ σ' :
  database_frame database σ σ' → same_world σ σ'.
Proof. by intros [(_ & _ & _ & _ & _ & Hw) _]. Qed.

Lemma throughout_same_world_project_block (rows : list ProjectParameter) :
  throughout same_world
    (ProjectParameter_delete ;;;
     for_ (slices (length rows) rows) ProjectParameter_insert_many ;;;
     let! g := Group_get_or_create "project" in
     Group_expire "project" g ;;;
     ProjectParameter_recalculate).
Proof.
  apply (throughout_weaken (table_only kind_project));
    [apply table_only_same_world|].
  thru_bind; [apply throughout_table_only_ProjectParameter_delete|]. intros _.
  thru_bind.
  { apply throughout_table_only_bulk_insert,
      throughout_table_only_ProjectParameter_insert. }
  intros _. thru_bind; [apply throughout_table_only_Group_get_or_create|].
  intros g. thru_bind; [apply throughout_table_only_Group_save|]. intros _.
  eapply throughout_weaken; [apply project_frame_table_only|].
  apply throughout_project_frame_recalculate.
Qed.

Lemma throughout_same_world_database_block database (rows : list DatabaseParameter) :
  throughout same_world
    (DatabaseParameter_delete database ;;;
     for_ (slices (length rows) rows) DatabaseParameter_insert_many ;;;
     let! g := Group_get_or_create database in
     Group_expire database g ;;;
     DatabaseParameter_recalculate database).
Proof.
  thru_bind.
  { eapply throughout_weaken; [apply (table_only_same_world kind_database)|].
    apply throughout_table_only_DatabaseParameter_delete. }
  intros _. thru_bind.
  { eapply throughout_weaken; [apply (table_only_same_world kind_database)|].
    apply throughout_table_only_bulk_insert,
      throughout_table_only_DatabaseParameter_insert. }
  intros _. thru_bind.
  { eapply throughout_weaken; [apply (table_only_same_world kind_database)|].
    apply throughout_table_only_Group_get_or_create. }
  intros g. thru_bind.
  { eapply throughout_weaken; [apply (table_only_same_world kind_database)|].
    apply throughout_table_only_Group_save. }
  intros _. eapply throughout_weaken; [apply (database_frame_same_world database)|].
  apply throughout_database_frame_recalculate.
Qed.

(** X14.  A bulk replacement of the project parameters or of the
    parameters of a database that raises, at a failed assertion, at a row
    the table refuses, at a formula that does not parse or evaluate or at
    a missing name, leaves the store exactly as it found it: the deletion
    of the old rows and the rows already inserted are rolled back with the
    rest. *)
Theorem failed_bulk_replace_restores_store (data : list NewParameter)
    (database : string) (σ σ' : Store) (e : Exception) :
  ParameterManager_new_project_parameters data σ = Raise e σ' ∨
  ParameterManager_new_database_parameters data database σ = Raise e σ' →
  σ' = σ.
Proof.
  intros [Hrun|Hrun].
  - revert Hrun. unfold ParameterManager_new_project_parameters. cbv zeta.
    intros [Hass|([] & ? & ->%assert_Ok & Hrest)]%bind_Raise;
      [by apply assert_Raise in Hass|].
    revert Hrest. apply atomic_Raise_restores, throughout_same_world_project_block.
  - revert Hrun. unfold ParameterManager_new_database_parameters. cbv zeta.
    intros [?|(σ0 & ? & [= <- <-] & Hrest)]%bind_Raise; [done|].
    apply bind_Raise in Hrest as [Hass|([] & ? & ->%assert_Ok & Hrest)];
      [by apply assert_Raise in Hass|].
    apply bind_Raise in Hrest as [Hass|([] & ? & ->%assert_Ok & Hrest)];
      [by apply assert_Raise in Hass|].
    revert Hrest. apply atomic_Raise_restores, throughout_same_world_database_block.
Qed.

Lemma Group_get_or_create_Ok name σ g σ' :
  Group_get_or_create name σ = Ok g σ' →
  σ' = σ ∨
  (group_table σ !! name = None ∧
   σ' = set_group_table
          (<[name := {| fresh := true; updated := now σ; order := [] |}]>
             (group_table σ)) σ).
Proof.
  unfold Group_get_or_create. destruct (group_table σ !! name) eqn:Hg.
  - intros [= _ <-]. by left.
  - intros [= _ <-]. right. done.
Qed.

Lemma Group_get_or_create_returns name σ e σ' :
  Group_get_or_create name σ ≠ Raise e σ'.
Proof. unfold Group_get_or_create. by destruct (group_table σ !! name). Qed.

Lemma throughout_world_grows_activity_block fuel group (rows : list ActivityParameter) :
  throughout world_grows
    (ActivityParameter_delete (λ o, bool_decide (ap_group o = group)) ;;;
     for_ (slices (length rows) rows) ActivityParameter_insert_many ;;;
     let! g := Group_get_or_create group in
     Group_expire group g ;;;
     ActivityParameter_recalculate fuel group).
Proof.
  thru_bind.
  { eapply throughout_weaken; [apply (table_only_world_grows kind_activity)|].
    apply throughout_table_only_ActivityParameter_delete. }
  intros _. thru_bind.
  { eapply throughout_weaken; [apply (table_only_world_grows kind_activity)|].
    apply throughout_table_only_bulk_insert,
      throughout_table_only_ActivityParameter_insert. }
  intros _. thru_bind.
  { eapply throughout_weaken; [apply (table_only_world_grows kind_activity)|].
    apply throughout_table_only_Group_get_or_create. }
  intros g. thru_bind.
  { eapply throughout_weaken; [apply (table_only_world_grows kind_activity)|].
    apply throughout_table_only_Group_save. }
  intros _. eapply throughout_weaken; [apply recalculation_frame_world_grows|].
  apply throughout_ActivityParameter_recalculate.
Qed.

(** X15.  A [new_activity_parameters(data, group)] that raises leaves
    every parameter row, parameterized exchange and dependency edge as it
    found them; of the group table it has at most added the row of [group],
    fresh and with an empty order, which is created before the
    transaction opens; outside the parameter tables it has at most set
    dirty flags. *)
Theorem failed_new_activity_parameters_restores_rows (fuel : nat)
    (data : list NewActivityParameter) (group : string) (σ σ' : Store)
    (e : Exception) :
  ParameterManager_new_activity_parameters fuel data group σ = Raise e σ' →
  projectparameter σ' = projectparameter σ ∧
  databaseparameter σ' = databaseparameter σ ∧
  activityparameter σ' = activityparameter σ ∧
  parameterizedexchange σ' = parameterizedexchange σ ∧
  groupdependency σ' = groupdependency σ ∧
  (group_table σ' = group_table σ ∨
   (group_table σ !! group = None ∧
    group_table σ' =
      <[group := {| fresh := true; updated := now σ; order := [] |}]>
        (group_table σ))) ∧
  world_grows σ σ'.
Proof.
  assert (∀ σ, world_grows σ σ) as Hrefl by (intros ?; reflexivity).
  unfold ParameterManager_new_activity_parameters. cbv zeta.
  intros [?|(σ0 & ? & [= <- <-] & Hrest)]%bind_Raise; [done|].
  apply bind_Raise in Hrest as [->%assert_Raise|([] & ? & ->%assert_Ok & Hrest)];
    [split_and!; try done; by left|].
  apply bind_Raise in Hrest as [->%assert_Raise|([] & ? & ->%assert_Ok & Hrest)];
    [split_and!; try done; by left|].
  apply bind_Raise in Hrest as [->%assert_Raise|([] & ? & ->%assert_Ok & Hrest)];
    [split_and!; try done; by left|].
  apply bind_Raise in Hrest as [Hg0|(g0 & σ1 & Hg0 & Hrest)];
    [by apply Group_get_or_create_returns in Hg0|].
  apply atomic_Raise in Hrest as (σ2 & Hblock & ->).
  pose proof (throughout_Raise _ _ _ _ _
    (throughout_world_grows_activity_block fuel group _) Hblock) as H12.
  apply Group_get_or_create_Ok in Hg0 as [->|[Hnone ->]].
  - split_and!; try done. by left.
  - split_and!; try done. by right.
Qed.

(** ** Creating one row *)

Lemma is_stale_autoupdate n h σ : is_stale σ h → is_stale (autoupdate n σ) h.
Proof.
  intros (g & Hg & Hf). pose proof (autoupdate_fresh n σ h) as Hau.
  rewrite Hg in Hau.
  destruct (group_table (autoupdate n σ) !! h) as [g'|] eqn:Hg';
    simpl in Hau; [|done].
  exists g'. split; [done|]. congruence.
Qed.

Lemma expire_leaves_stale name σ σ' :
  (let! g := Group_get_or_create name in Group_expire name g) σ = Ok tt σ' →
  is_stale σ' name.
Proof.
  intros (g & σ1 & _ & [= <-])%bind_Ok.
  eexists. split; [apply lookup_insert_eq|done].
Qed.

Lemma expire_returns name σ e σ' :
  (let! g := Group_get_or_create name in Group_expire name g) σ ≠ Raise e σ'.
Proof.
  intros [Hg|(g & σ1 & _ & ?)]%bind_Raise; [|done].
  by apply Group_get_or_create_returns in Hg.
Qed.

Lemma create_leaves_stale name (insert : Py unit) σ σ' :
  throughout (keeps_stale name) insert →
  ends_in (let! g := Group_get_or_create name in
           Group_expire name g ;;; insert) σ σ' →
  is_stale σ' name.
Proof.
  intros Hins Hend.
  assert (ends_in ((let! g := Group_get_or_create name in Group_expire name g) ;;;
                   insert) σ σ') as Hend'.
  { unfold ends_in, bind in *. by destruct (Group_get_or_create name σ). }
  destruct Hend' as [[[] Hr]|[e Hr]].
  - apply bind_Ok in Hr as ([] & σ1 & Hexp%expire_leaves_stale & Hi).
    exact (throughout_Ok _ _ _ _ _ Hins Hi Hexp).
  - apply bind_Raise in Hr as [Hr|([] & σ1 & Hexp%expire_leaves_stale & Hi)].
    + by apply expire_returns in Hr.
    + exact (throughout_Raise _ _ _ _ _ Hins Hi Hexp).
Qed.

(** X16.  [save] expires the owning group before the row is written:
    after a [create] of a project, database or activity parameter, whether
    the row went in or the table refused it, the group of the row
    (['project'], the database, the activity group) is registered and
    stale. *)
Theorem create_expires_owning_group (w : Write) (g : string) (σ σ' : Store) :
  created_in w = Some g → ends_in (run_write w) σ σ' → is_stale σ' g.
Proof.
  destruct w as [| | | |o|o|o]; try done; intros [= <-]; simpl;
    apply create_leaves_stale; intros σ0.
  - unfold ProjectParameter_insert. case_bool_decide; [by intros ?|].
    intros Hs. apply is_stale_autoupdate. exact Hs.
  - unfold DatabaseParameter_insert. case_bool_decide; [by intros ?|].
    case_bool_decide; [by intros ?|]. intros Hs. apply is_stale_autoupdate. exact Hs.
  - unfold ActivityParameter_insert. cbv zeta.
    destruct (negb _ && _); [by intros ?|]. destruct (existsb _ _); [by intros ?|].
    destruct (_ || _); [by intros ?|]. destruct (bool_decide _); [by intros ?|].
    intros Hs. apply is_stale_autoupdate. exact Hs.
Qed.

(** ** The edge from a database to the project group *)

Lemma throughout_table_only_DatabaseParameter_update_amount database key a :
  throughout (table_only kind_database)
    (DatabaseParameter_update_amount database key a).
Proof.
  apply throughout_modify. intros σ. cbv zeta. unfold table_only.
  destruct (existsb _ _); split_and!; done.
Qed.

Lemma GroupDependency_get_or_create_Ok group depends σ σ' :
  GroupDependency_get_or_create group depends σ = Ok tt σ' →
  (group, depends) ∈ groupdependency σ'.
Proof.
  unfold GroupDependency_get_or_create.
  intros (σ0 & ? & [= <- <-] & Hrest)%bind_Ok.
  case_bool_decide as Hin; [by injection Hrest as <-|].
  unfold GroupDependency_save in Hrest.
  apply bind_Ok in Hrest as (σ0 & ? & [= <- <-] & Hrest).
  case_bool_decide; [done|]. destruct (_ && _); [done|].
  unfold GroupDependency_insert in Hrest.
  repeat (case_bool_decide; [done|]). injection Hrest as <-. simpl. set_solver.
Qed.

(** X17.  When the project scope is up to date and the stale scope of a
    database has parameters, a [DatabaseParameter.recalculate] that
    returns has found every free symbol of the database's formulas among
    the project parameters, and leaves the edge from the database to the
    project group in place exactly when there is such a symbol: the edge is
    added if it was missing and removed if no formula needs the project
    scope any more. *)
Theorem database_recalculate_tracks_project_edge (database : string)
    (σ σ' : Store) (symbols : gset string) :
  ProjectParameter_expired σ = false →
  DatabaseParameter_expired σ database = true →
  DatabaseParameter_select σ database ≠ [] →
  database_free_symbols σ database = inr symbols →
  DatabaseParameter_recalculate database σ = Ok tt σ' →
  symbols ⊆ list_to_set (pp_name <$> projectparameter σ) ∧
  ((database, "project") ∈ groupdependency σ' ↔ symbols ≠ ∅).
Proof.
  intros Hproj Hexp Hsel Hsym. unfold DatabaseParameter_recalculate.
  intros (σ0 & ? & [= <- <-] & Hrest)%bind_Ok. rewrite Hproj in Hrest.
  apply bind_Ok in Hrest as ([] & ? & [= <-] & Hrest).
  apply bind_Ok in Hrest as (σ0 & ? & [= <- <-] & Hrest).
  rewrite Hexp in Hrest. simpl negb in Hrest. cbv iota in Hrest.
  rewrite bool_decide_eq_false_2 in Hrest
    by (by rewrite DatabaseParameter_load_empty).
  apply bind_Ok in Hrest as (new_symbols & ? & [Hnew ->]%liftq_Ok & Hrest).
  unfold database_free_symbols in Hsym. rewrite Hsym in Hnew.
  injection Hnew as <-.
  destruct (bool_decide (symbols ∖ _ = ∅)) eqn:Hmiss; [|done].
  apply bool_decide_eq_true in Hmiss. simpl negb in Hrest. cbv iota in Hrest.
  split.
  { intros x Hx. apply dec_stable. intros Hnot.
    assert (x ∈ symbols ∖ list_to_set (pp_name <$> projectparameter σ)) as Hin
      by (apply elem_of_difference; by split).
    rewrite Hmiss in Hin. by apply elem_of_empty in Hin. }
  apply bind_Ok in Hrest as (glo & σ2 & Hglo & Hrest).
  apply bind_Ok in Hrest as (data & ? & ->%ParameterSet_evaluate_Ok & Hrest).
  rewrite atomic_Ok in Hrest.
  assert (groupdependency σ' = groupdependency σ2) as ->.
  { revert Hrest. generalize σ2 at 1 2. intros σ3 Hrest.
    eapply (throughout_Ok (table_only kind_database)) in Hrest.
    - by destruct Hrest as (_ & _ & _ & _ & ? & _).
    - thru_bind.
      + apply throughout_for_items; [apply _|].
        apply throughout_table_only_DatabaseParameter_update_amount.
      + intros ?. thru_bind; [apply throughout_table_only_Group_get|].
        intros g. thru_bind; [apply throughout_table_only_Group_save|].
        intros ?. apply throughout_table_only_expire_downstream. }
  destruct (bool_decide (symbols = ∅)) eqn:Hempty; simpl negb in Hglo;
    cbv iota in Hglo.
  - apply bool_decide_eq_true in Hempty.
    apply bind_Ok in Hglo as ([] & σa & [= <-] & [= _ <-]).
    simpl. rewrite elem_of_filter. simpl.
    rewrite !bool_decide_eq_true_2 by done. naive_solver.
  - apply bool_decide_eq_false in Hempty.
    apply bind_Ok in Hglo as ([] & σa & Hgc & Hglo).
    apply bind_Ok in Hglo as (? & ? & [= <- <-] & [= _ <-]).
    apply GroupDependency_get_or_create_Ok in Hgc. done.
Qed.

(** ** The values a group's formulas see *)








(** ** Moving the parameters of an activity into a group *)

Lemma throughout_eq_add_exchanges_to_group group key :
  throughout eq (ParameterManager_add_exchanges_to_group group key).
Proof.
  unfold ParameterManager_add_exchanges_to_group.
  thru_bind.
  { intros σ. unfold get_activity. by destruct (filter _ _). }
  intros activity. apply throughout_for; [apply _|]. intros exc _.
  destruct (exc_formula exc); [|thru_pure].
  unfold ParameterizedExchange_link. thru_bind; [thru_pure|]. intros σ.
  destruct (filter _ _); thru_pure.
Qed.

Lemma get_activity_Ok key σ a σ' :
  get_activity key σ = Ok a σ' →
  σ' = σ ∧ (act_database a, act_code a) = key.
Proof.
  unfold get_activity.
  destruct (filter _ _) as [|b l] eqn:Hf; [done|]. intros [= <- <-].
  split; [done|].
  assert (b ∈ filter (λ a, (act_database a, act_code a) = key) (activities σ))
    as Hb by (rewrite Hf; left).
  by apply list_elem_of_filter in Hb as [? _].
Qed.

Lemma ActivityParameter_create_Ok o σ σ' :
  ActivityParameter_create o σ = Ok tt σ' →
  activityparameter σ' = activityparameter σ ++ [o] ∧
  activities σ' = activities σ.
Proof.
  unfold ActivityParameter_create.
  intros (g & σ1 & Hg & Hrest)%bind_Ok.
  apply bind_Ok in Hrest as ([] & σ2 & Hexp & Hins).
  destruct (throughout_Ok _ _ _ _ _
    (throughout_table_only_Group_get_or_create kind_project _) Hg)
    as (_ & _ & H1 & _ & _ & _ & _ & W1 & _).
  destruct (throughout_Ok _ _ _ _ _
    (throughout_table_only_Group_save kind_project _ _) Hexp)
    as (_ & _ & H2 & _ & _ & _ & _ & W2 & _).
  destruct (throughout_Ok _ _ _ _ _
    (throughout_table_only_ActivityParameter_insert _) Hins)
    as (_ & _ & _ & _ & _ & _ & _ & W3 & _).
  apply ActivityParameter_insert_Ok in Hins.
  rewrite Hins, H2, H1 by done. split; [done|]. by rewrite W3, W2.
Qed.

(** X19.  When [add_to_group(group, activity)] returns a count, the
    activity had a [parameters] list and the count is its length; the rows
    the activity had in [activityparameter] (in whatever group) are gone
    and one row per list entry has been appended, in list order, in
    [group], with amount 0 where the entry gave none; the other rows are
    untouched; and the activity is saved without its [parameters]. *)
Theorem add_to_group_moves_parameters (group : string) (key : string * string)
    (count : nat) (σ σ' : Store) :
  ParameterManager_add_to_group group key σ = Ok (Some count) σ' →
  ∃ activity parameters,
    get_activity key σ = Ok activity σ ∧
    act_parameters activity = Some parameters ∧
    count = length parameters ∧
    activityparameter σ' =
      filter (λ o, ¬ (ap_database o = key.1 ∧ ap_code o = key.2))
        (activityparameter σ) ++
      ((λ p, {| ap_group := group; ap_database := key.1; ap_code := key.2;
                ap_name := ep_variable p; ap_formula := ep_formula p;
                ap_amount := Some (default zero (ep_amount p));
                ap_data := ep_data p |}) <$> parameters) ∧
    activities σ' =
      (λ b, if bool_decide ((act_database b, act_code b) = key)
            then {| act_database := key.1; act_code := key.2;
                    act_parameters := None;
                    act_exchanges := act_exchanges activity |}
            else b) <$> activities σ.
Proof.
  destruct key as [db code]. cbn [fst snd].
  unfold ParameterManager_add_to_group.
  intros (g & σ1 & Hg & Hrest)%bind_Ok.
  apply bind_Ok in Hrest as (activity & ? & Hact & Hrest).
  destruct (get_activity_Ok _ _ _ _ Hact) as [-> Hkey].
  injection Hkey as <- <-.
  destruct (act_parameters activity) as [parameters|] eqn:Hpar; [|done].
  exists activity, parameters.
  destruct (throughout_Ok _ _ _ _ _
    (throughout_table_only_Group_get_or_create kind_project _) Hg)
    as (_ & _ & H1 & _ & _ & _ & _ & W1 & _).
  split.
  { revert Hact. unfold get_activity. rewrite W1.
    destruct (filter _ _); [done|]. by intros [= <-]. }
  split; [done|].
  cbv zeta in Hrest.
  apply bind_Ok in Hrest as ([] & σ2 & Hdel & Hrest).
  apply bind_Ok in Hrest as ([] & σ3 & Hins & Hrest).
  apply bind_Ok in Hrest as ([] & σ4 & [= <-] & Hrest).
  apply bind_Ok in Hrest as ([] & σ5 & Hexc & Hrest).
  apply bind_Ok in Hrest as (? & ? & [= <- <-] & [= <- <-]).
  pose proof (throughout_Ok _ _ _ _ _
    (throughout_eq_add_exchanges_to_group _ _) Hexc) as <-.
  destruct (throughout_Ok _ _ _ _ _
    (throughout_table_only_ActivityParameter_delete _) Hdel)
    as (_ & _ & _ & _ & _ & _ & _ & W2 & _).
  apply ActivityParameter_delete_Ok in Hdel.
  rewrite atomic_Ok in Hins.
  assert (activities σ3 = activities σ2) as W3.
  { revert Hins. apply (for_Ok_ind (λ σ σ', activities σ' = activities σ));
      [done|intros ??? Ha Hb; by rewrite Hb|].
    intros o ?? _ Ho. by apply ActivityParameter_create_Ok in Ho as [_ ?]. }
  apply (for_appends activityparameter (λ o, [o])) in Hins;
    [|intros o ?? Ho; by apply ActivityParameter_create_Ok in Ho as [? _]].
  rewrite concat_singletons in Hins.
  simpl.
  assert (activityparameter σ3 =
    filter (λ o, ¬ (ap_database o = act_database activity ∧
                    ap_code o = act_code activity))
      (activityparameter σ) ++
    ((λ p, {| ap_group := group; ap_database := act_database activity;
              ap_code := act_code activity;
              ap_name := ep_variable p; ap_formula := ep_formula p;
              ap_amount := Some (default zero (ep_amount p));
              ap_data := ep_data p |}) <$> parameters)) as Hrows.
  { rewrite Hins, Hdel, H1 by done. f_equal.
    apply list_filter_iff. intros o.
    rewrite andb_false_iff, !bool_decide_eq_false.
    destruct (decide (ap_database o = act_database activity));
      destruct (decide (ap_code o = act_code activity)); naive_solver. }
  split_and!.
  - rewrite Hrows, filter_app, length_app.
    rewrite (filter_none _ (filter _ _)), (filter_all _ (_ <$> _)).
    + by rewrite length_fmap.
    + apply Forall_forall. intros o (p & -> & _)%list_elem_of_fmap. done.
    + apply Forall_forall. by intros o [Ho _]%list_elem_of_filter.
  - exact Hrows.
  - by rewrite W3, W2, W1.
Qed.

(** ** A stale activity group without parameters *)

Lemma terminates_bind {A B} (m : Py A) (k : A → Py B) :
  terminates m → (∀ a, terminates (k a)) → terminates (bind m k).
Proof.
  intros Hm Hk σ. unfold bind. specialize (Hm σ).
  destruct (m σ) as [a σ'| |]; [apply Hk|done|done].
Qed.

Lemma terminates_atomic {A} (m : Py A) : terminates m → terminates (atomic m).
Proof. intros Hm σ. unfold atomic. specialize (Hm σ). by destruct (m σ). Qed.

Lemma terminates_for {A} (xs : list A) body :
  (∀ x, terminates (body x)) → terminates (for_ xs body).
Proof.
  intros Hb. induction xs as [|x xs IH]; [done|].
  simpl. apply terminates_bind; [apply Hb|]. intros _. exact IH.
Qed.

Lemma terminates_liftq {A} (q : Store → Exception + A) : terminates (liftq q).
Proof. intros σ. unfold liftq. by destruct (q σ). Qed.

Lemma terminates_update_values group :
  terminates (ActivityParameter_update_values group).
Proof.
  unfold ActivityParameter_update_values.
  apply terminates_bind; [done|]. intros σ0.
  apply terminates_bind; [apply terminates_liftq|]. intros static.
  apply terminates_bind.
  { intros σ. unfold ParameterSet_evaluate.
    by destruct (evaluate_and_set_amount_field _ _). }
  intros data. apply terminates_atomic, terminates_bind.
  { apply terminates_for. intros kv. by destruct (pd_amount kv.2). }
  intros _. apply terminates_bind.
  { intros σ. unfold Group_get. by destruct (group_table σ !! group). }
  intros g. apply terminates_bind; done.
Qed.

Lemma terminates_recalculate_exchanges group :
  terminates (ActivityParameter_recalculate_exchanges group).
Proof.
  unfold ActivityParameter_recalculate_exchanges.
  apply terminates_bind; [apply terminates_liftq|]. intros symtable.
  apply terminates_bind; [done|]. intros σ0.
  apply terminates_bind; [by apply terminates_for|]. intros _.
  apply terminates_bind; [apply terminates_liftq|]. done.
Qed.

Lemma recalculate_exchanges_needs_a_row group σ σ' :
  ActivityParameter_select σ group = [] →
  ActivityParameter_recalculate_exchanges group σ ≠ Ok tt σ'.
Proof.
  intros Hsel. unfold ActivityParameter_recalculate_exchanges.
  intros (symtable & ? & [_ ->]%liftq_Ok & Hrest)%bind_Ok.
  apply bind_Ok in Hrest as (σ0 & ? & [= <- <-] & Hrest).
  apply bind_Ok in Hrest as ([] & σ1 & Hloop & Hrest).
  assert (σ1 = σ) as ->.
  { revert Hloop. apply (for_Ok_ind (λ σ σ', σ' = σ)); [done|congruence|done]. }
  apply bind_Ok in Hrest as (o & ? & [Hget _]%liftq_Ok & _).
  unfold ActivityParameter_get in Hget. by rewrite Hsel in Hget.
Qed.

(** X20.  A stale activity group that has no parameter rows (its rows were
    deleted, or moved to another group by [add_to_group]) cannot be
    recalculated: [ActivityParameter.recalculate] raises, at the latest when
    [recalculate_exchanges] asks for the first row of the group to find the
    database to mark dirty. *)
Theorem recalculate_of_empty_stale_group_raises (fuel : nat) (group : string)
    (σ : Store) :
  ActivityParameter_expired σ group = true →
  ActivityParameter_select σ group = [] →
  ∃ e σ', ActivityParameter_recalculate (S fuel) group σ = Raise e σ'.
Proof.
  intros Hexp Hsel.
  assert (ActivityParameter_recalculate (S fuel) group σ =
          (ActivityParameter_update_values group ;;;
           ActivityParameter_recalculate_exchanges group) σ) as ->.
  { assert (ActivityParameter_dependency_chain σ group = inr []) as Hchain.
    { unfold ActivityParameter_dependency_chain. cbv zeta.
      by rewrite bool_decide_eq_true_2 by (by apply ActivityParameter_load_empty). }
    rewrite ActivityParameter_recalculate_S. unfold bind at 1, get.
    rewrite Hexp. change (negb true) with false. cbv iota beta.
    unfold bind at 1, liftq.
    rewrite Hchain. done. }
  destruct ((ActivityParameter_update_values group ;;;
             ActivityParameter_recalculate_exchanges group) σ)
    as [[] σ'|e σ'|] eqn:Hrun; [|by eauto|].
  - exfalso. apply bind_Ok in Hrun as ([] & σ1 & Hupd & Hexc).
    revert Hexc. apply recalculate_exchanges_needs_a_row.
    destruct (throughout_Ok _ _ _ _ _ (throughout_update_values group) Hupd)
      as [[(_ & _ & Hkeys & _) _] _].
    unfold ActivityParameter_select in *.
    apply (fmap_nil_inv ap_key).
    rewrite (fmap_filter_key ap_key _ _ (activityparameter σ)); [by rewrite Hsel| |done].
    intros x y Hxy Hx. unfold ap_key in Hxy. injection Hxy as Hg _ _ _ _ _.
    congruence.
  - exfalso. revert Hrun. apply terminates_bind.
    + apply terminates_update_values.
    + intros _. apply terminates_recalculate_exchanges.
Qed.

(** ** The dirty flag of the owning database *)

Lemma recalculate_exchanges_Ok group σ σ' :
  ActivityParameter_recalculate_exchanges group σ = Ok tt σ' →
  ∃ o, ActivityParameter_get σ group = inr o ∧
       σ' = set_dirty ({[ap_database o]} ∪ dirty σ) σ.
Proof.
  unfold ActivityParameter_recalculate_exchanges.
  intros (symtable & ? & [_ ->]%liftq_Ok & Hrest)%bind_Ok.
  apply bind_Ok in Hrest as (σ0 & ? & [= <- <-] & Hrest).
  apply bind_Ok in Hrest as ([] & σ1 & Hloop & Hrest).
  assert (σ1 = σ) as ->.
  { revert Hloop. apply (for_Ok_ind (λ σ σ', σ' = σ)); [done|congruence|done]. }
  apply bind_Ok in Hrest as (o & ? & [Hget ->]%liftq_Ok & [= <-]).
  by exists o.
Qed.

(** X21.  When [ActivityParameter.recalculate] of a stale group returns,
    the database that owns the group (the database of the group's first
    row) is marked dirty. *)
Theorem recalculate_marks_database_dirty (fuel : nat) (group : string)
    (σ σ' : Store) :
  ActivityParameter_expired σ group = true →
  ActivityParameter_recalculate fuel group σ = Ok tt σ' →
  ∃ o, ActivityParameter_get σ group = inr o ∧ ap_database o ∈ dirty σ'.
Proof.
  intros Hexp Hrun.
  destruct (throughout_Ok _ _ _ _ _
              (throughout_ActivityParameter_recalculate fuel group) Hrun)
    as [(_ & _ & Hkeys & _) _].
  destruct fuel as [|fuel].
  { simpl in Hrun. unfold bind, get in Hrun. by rewrite Hexp in Hrun. }
  destruct (ActivityParameter_recalculate_steps _ _ _ _ Hexp Hrun)
    as (chain & σ1 & σ2 & σ3 & _ & _ & _ & _ & Hexc).
  apply recalculate_exchanges_Ok in Hexc as (o3 & Hget & ->).
  unfold ActivityParameter_get, ActivityParameter_select in *.
  simpl in Hkeys.
  destruct (filter _ (activityparameter σ3)) as [|o3' rest3] eqn:H3; [done|].
  injection Hget as ->.
  pose proof (fmap_filter_key ap_key (λ o, ap_group o = group)
                (activityparameter σ3) (activityparameter σ)) as Hf.
  rewrite H3 in Hf.
  destruct (filter (λ o, ap_group o = group) (activityparameter σ))
    as [|o rest] eqn:H0.
  - exfalso. assert (ap_key <$> o3 :: rest3 = ap_key <$> []) as Hnil; [|done].
    apply Hf; [|done]. intros x y Hxy Hx. unfold ap_key in Hxy.
    injection Hxy as Hg _ _ _ _ _. congruence.
  - exists o. split; [done|].
    assert (ap_key <$> o3 :: rest3 = ap_key <$> o :: rest) as Hcons.
    { apply Hf; [|done]. intros x y Hxy Hx. unfold ap_key in Hxy.
      injection Hxy as Hg _ _ _ _ _. congruence. }
    rewrite !fmap_cons in Hcons. unfold ap_key in Hcons.
    assert (ap_database o3 = ap_database o) as <- by congruence.
    simpl. set_solver.
Qed.

End properties.

(** * Runs on concrete stores *)

(** C1.  An empty bulk replacement leaves the group of the project, and
    that of a database, stale and without parameters; the sweep then
    returns with both groups still stale: the two recalculations return at
    [if not data: return] before [freshen], and the final loop skips the
    rows of the project and of a database, which its comment takes to be
    fresh by then. *)
Theorem sweep_leaves_empty_scopes_stale :
  ∃ σ1 σ2 σ',
    ParameterManager_new_project_parameters no_names (bare_store ["db1"]) =
      Ok tt σ1 ∧
    ParameterManager_new_database_parameters no_names "db1" σ1 = Ok tt σ2 ∧
    ParameterManager_recalculate 1 σ2 = Ok tt σ' ∧
    is_stale σ' "project" ∧ is_stale σ' "db1".
Proof.
  eexists _, _, _. split; [vm_compute; reflexivity|].
  split; [vm_compute; reflexivity|]. split; [vm_compute; reflexivity|].
  split; eexists; split; vm_compute; reflexivity.
Qed.

(** C2 on [three_scope_store]: the group is registered and its three free
    symbols are defined on the path, so the chain is returned; [a] is
    resolved at the sibling although the database and the project define it
    too, [b] at the database although the project defines it too, [c] at
    the project. *)
Lemma dependency_chain_priority_witness :
  (is_Some (group_table three_scope_store !! "grp") ∧
   ({["a"; "b"; "c"]} : gset string) ⊆
     searched three_scope_store (search_path three_scope_store "grp")) ∧
  ActivityParameter_dependency_chain three_scope_store "grp" =
    inr three_scope_chain ∧
  (∀ e x, e ∈ three_scope_chain →
     x ∈ ce_names e ↔
     x ∈ ({["a"; "b"; "c"]} : gset string) ∧
     resolved_at three_scope_store (search_path three_scope_store "grp") x =
       Some (ce_key e)) ∧
  (∀ x, x ∈ ({["a"; "b"; "c"]} : gset string) →
     ∃ e, e ∈ three_scope_chain ∧ x ∈ ce_names e) ∧
  sublist (ce_key <$> three_scope_chain)
    (search_path three_scope_store "grp") ∧
  (∀ i j e1 e2 x, three_scope_chain !! i = Some e1 →
     three_scope_chain !! j = Some e2 →
     x ∈ ce_names e1 → x ∈ ce_names e2 → i = j).
Proof.
  assert (ActivityParameter_dependency_chain three_scope_store "grp" =
          inr three_scope_chain) as Hchain by (vm_compute; reflexivity).
  destruct (dependency_chain_first_match_wins three_scope_store "grp"
              {["a"; "b"; "c"]}) as [Hiff Hrows].
  - vm_compute. discriminate.
  - vm_compute. reflexivity.
  - vm_compute. discriminate.
  - split; [apply Hiff; by eexists|]. split; [exact Hchain|].
    exact (Hrows three_scope_chain Hchain).
Defined.

(** C3.  The recalculation of [grp] in [priority_store] writes the edges
    onto [sib] and [db1].  Its two formulas are then replaced by a
    constant: the chain of the recalculation that follows is empty, and
    the order of the group and its two edges stay as they were. *)
Theorem empty_chain_keeps_old_edges :
  ∃ σ1 σ',
    ActivityParameter_recalculate 2 "grp" priority_store = Ok tt σ1 ∧
    groupdependency σ1 = {[("grp", "sib"); ("grp", "db1")]} ∧
    ParameterManager_new_activity_parameters 2 constant_activity_names "grp" σ1 =
      Ok tt σ' ∧
    ActivityParameter_dependency_chain σ' "grp" = inr [] ∧
    groupdependency σ' = {[("grp", "sib"); ("grp", "db1")]} ∧
    order <$> group_table σ' !! "grp" = Some ["sib"] ∧
    is_fresh σ' "grp".
Proof.
  eexists _, _. split; [vm_compute; reflexivity|].
  split; [vm_compute; reflexivity|]. split; [vm_compute; reflexivity|].
  split; [vm_compute; reflexivity|]. split; [vm_compute; reflexivity|].
  split; [vm_compute; reflexivity|]. eexists; split; vm_compute; reflexivity.
Qed.

(** C4 on [missing_store], where both groups are stale, and on
    [fresh_missing_store], where every group is fresh: [dependency_chain]
    reports the missing name in both, [DatabaseParameter.recalculate] in
    the first only. *)
Lemma missing_variables_witness :
  ActivityParameter_dependency_chain missing_store "grp" =
    inl (MissingName {["unknown_var"]}) ∧
  (∃ σ', DatabaseParameter_recalculate "db1" missing_store =
           Raise (MissingName {["ghost"]}) σ') ∧
  ActivityParameter_dependency_chain fresh_missing_store "grp" =
    inl (MissingName {["unknown_var"]}) ∧
  DatabaseParameter_recalculate "db1" fresh_missing_store =
    Ok tt fresh_missing_store.
Proof.
  destruct (missing_variables_exactly missing_store missing_store "grp" "db1"
              {["unknown_var"]} {["ghost"]}) as (Hg & Hd & _).
  destruct (missing_variables_exactly fresh_missing_store fresh_missing_store
              "grp" "db1" {["unknown_var"]} {["ghost"]}) as (Hg' & _ & Hf').
  split; [|split; [|split]].
  - apply Hg; [vm_compute; eauto|vm_compute; reflexivity|].
    split; [vm_compute; reflexivity|vm_compute; discriminate].
  - apply Hd; [vm_compute; reflexivity..|].
    split; [vm_compute; reflexivity|vm_compute; discriminate].
  - apply Hg'; [vm_compute; eauto|vm_compute; reflexivity|].
    split; [vm_compute; reflexivity|vm_compute; discriminate].
  - apply Hf'; vm_compute; reflexivity.
Defined.

(** C4 does not hold as stated: a fresh database group is not looked at,
    so an undefined name in its formulas raises nothing. *)
Lemma fresh_database_never_reports_missing :
  database_free_symbols fresh_database_store "db1" = inr {["ghost"]} ∧
  ("ghost" ∉ defined_in fresh_database_store (kind_project, "project")) ∧
  DatabaseParameter_recalculate "db1" fresh_database_store =
    Ok tt fresh_database_store.
Proof.
  split; [vm_compute; reflexivity|]. split; [|vm_compute; reflexivity].
  vm_compute. discriminate.
Qed.

(** C6 on [fresh_store]. *)
Lemma recalculate_fresh_witness :
  ProjectParameter_recalculate fresh_store = Ok tt fresh_store ∧
  DatabaseParameter_recalculate "db1" fresh_store = Ok tt fresh_store ∧
  ActivityParameter_recalculate 0 "grp" fresh_store = Ok tt fresh_store.
Proof.
  apply (recalculate_fresh_is_noop fresh_store "db1" "grp" 0);
    exists fresh_group; split; vm_compute; reflexivity.
Defined.

(** C8 on three inputs that fail validation. *)
Lemma bulk_replace_validation_witness :
  (∃ msg, ParameterManager_new_project_parameters duplicate_names (bare_store ["db1"]) =
            Raise (AssertionError msg) (bare_store ["db1"])) ∧
  (∃ msg, ParameterManager_new_database_parameters duplicate_names "nodb" (bare_store ["db1"]) =
            Raise (AssertionError msg) (bare_store ["db1"])) ∧
  (∃ msg, ParameterManager_new_activity_parameters 1 two_databases "grp" (bare_store ["db1"]) =
            Raise (AssertionError msg) (bare_store ["db1"])).
Proof.
  apply (bulk_replace_validates_before_mutation (bare_store ["db1"]) 1
           duplicate_names duplicate_names "nodb" two_databases "grp").
  - vm_compute. intros Hnd. apply NoDup_cons in Hnd as [Hn _]. apply Hn. left.
  - left. vm_compute. intros Hin. apply list_elem_of_singleton in Hin. discriminate.
  - left. eexists _, _. split; [left|]. split; [right; left|]. vm_compute. discriminate.
Defined.

(** C10 on a store without any group. *)
Lemma recalculate_unregistered_witness :
  DatabaseParameter_expired (bare_store []) "project" = false ∧
  ActivityParameter_expired (bare_store []) "project" = false ∧
  ("project" = "project" →
     ProjectParameter_expired (bare_store []) = false ∧
     ProjectParameter_recalculate (bare_store []) = Ok tt (bare_store [])) ∧
  ActivityParameter_recalculate 0 "project" (bare_store []) = Ok tt (bare_store []) ∧
  (ProjectParameter_expired (bare_store []) = false →
     DatabaseParameter_recalculate "project" (bare_store []) = Ok tt (bare_store [])).
Proof.
  apply (recalculate_unregistered_group (bare_store []) "project" 0).
  vm_compute. reflexivity.
Defined.

(** C10 does not hold as stated: [db1] has no group, yet recalculating it
    writes the stale project scope. *)
Lemma database_recalculate_writes_project :
  group_table stale_project_with_parameter !! "db1" = None ∧
  is_stale stale_project_with_parameter "project" ∧
  ∃ σ', DatabaseParameter_recalculate "db1" stale_project_with_parameter = Ok tt σ' ∧
        is_fresh σ' "project" ∧ σ' ≠ stale_project_with_parameter.
Proof.
  split; [vm_compute; reflexivity|].
  split; [exists stale_group; split; vm_compute; reflexivity|].
  eexists. split; [vm_compute; reflexivity|]. split.
  - eexists. split; vm_compute; reflexivity.
  - intros Heq. apply (f_equal (λ σ, fresh <$> group_table σ !! "project")) in Heq.
    vm_compute in Heq. discriminate Heq.
Qed.

(** C7.  With the edges [A -> B] and [B -> C] in place, the edge [C -> A]
    is accepted by [save] and by [insert_many] alike, and the three edges
    form a cycle: the trigger looks for the direct back edge only. *)
Theorem three_group_cycle_is_accepted :
  ∃ σ', GroupDependency_save "C" "A" path_store = Ok tt σ' ∧
        GroupDependency_insert_many [("C", "A")] path_store = Ok tt σ' ∧
        groupdependency σ' = {[("A", "B"); ("B", "C"); ("C", "A")]}.
Proof.
  eexists. split; [vm_compute; reflexivity|].
  split; vm_compute; reflexivity.
Qed.

(** C9.  For an activity with a [parameters] list and an exchange that
    carries a formula, [add_to_group] raises from [add_exchanges_to_group]:
    no [ParameterizedExchange] row is written and the exchange keeps its
    formula. *)
Theorem add_to_group_raises_on_formula_exchange :
  ∃ e σ', ParameterManager_add_to_group "grp" ("db1", "act1") formula_store =
            Raise e σ' ∧
          parameterizedexchange σ' = [] ∧
          (exc_formula <$> (activities σ' ≫= act_exchanges)) = [Some "x"].
Proof.
  eexists _, _. split; [vm_compute; reflexivity|]. split; reflexivity.
Qed.

(** ** The further properties on concrete stores *)

(** X1 on [downstream_store]: the sweep that recalculates [A]. *)
Lemma recalculation_amounts_witness :
  ∃ σ', ends_in (run_recalculation (sweep 2)) downstream_store σ' ∧
    only_amounts downstream_store σ' ∧
    dom (group_table downstream_store) ⊆ dom (group_table σ') ∧
    dirty downstream_store ⊆ dirty σ' ∧
    ParameterManager_len σ' = ParameterManager_len downstream_store.
Proof.
  eexists. split; [left; exists tt; vm_compute; reflexivity|].
  apply (recalculation_only_rewrites_amounts (sweep 2) downstream_store).
  left. exists tt. vm_compute. reflexivity.
Defined.

(** X2 on [priority_store]: the recalculation of [grp] replaces the edge
    [grp -> old] by edges onto [sib] and [db1]. *)
Lemma recalculation_edges_witness :
  ∃ σ', no_direct_cycle (groupdependency priority_store) ∧
    ends_in (run_recalculation (of_activity_group 2 "grp")) priority_store σ' ∧
    no_direct_cycle (groupdependency σ').
Proof.
  assert (no_direct_cycle (groupdependency priority_store)) as Hnc.
  { change (groupdependency priority_store)
      with ({[("grp", "old")]} : gset (string * string)).
    intros a b Hab. apply elem_of_singleton in Hab. injection Hab as -> ->.
    split; [discriminate|]. intros Hba. apply elem_of_singleton in Hba.
    discriminate. }
  eexists. split; [exact Hnc|]. split; [left; exists tt; vm_compute; reflexivity|].
  apply (recalculation_keeps_edges_free_of_direct_cycles
           (of_activity_group 2 "grp") priority_store); [exact Hnc|].
  left. exists tt. vm_compute. reflexivity.
Defined.

(** X5: an edge from the registered database [db1] onto a group. *)
Lemma GroupDependency_save_cross_scope_witness :
  ("db1" ∈ databases (bare_store ["db1"]) ∧ "grp" ≠ "project") ∧
  ∃ msg, GroupDependency_save "db1" "grp" (bare_store ["db1"]) =
           Raise (ValueError msg) (bare_store ["db1"]).
Proof.
  assert ("db1" ∈ databases (bare_store ["db1"]) ∧ "grp" ≠ "project") as Hdb
    by (split; [left|discriminate]).
  split; [exact Hdb|].
  apply (GroupDependency_save_refuses_cross_scope "db1" "grp" (bare_store ["db1"])).
  right. exact Hdb.
Defined.

(** X7 on [fresh_store]. *)
Lemma sweep_noop_witness :
  ParameterManager_recalculate 3 fresh_store = Ok tt fresh_store.
Proof.
  apply (sweep_without_stale_group_is_noop 3 fresh_store).
  apply (bool_decide_unpack (map_Forall (λ _ g, fresh g = true)
                               (group_table fresh_store))).
  vm_compute. exact I.
Defined.

(** X8: the parameters of [db1] are replaced in an empty store. *)
Lemma writes_keep_constraints_witness :
  ∃ σ', schema (bare_store ["db1"]) ∧
    ends_in (run_write (new_database_parameters two_names "db1"))
      (bare_store ["db1"]) σ' ∧
    schema σ'.
Proof.
  assert (schema (bare_store ["db1"])) as Hs.
  { unfold schema, activity_schema. simpl.
    split_and!; try apply NoDup_nil_2; intros; by apply elem_of_nil in H. }
  eexists. split; [exact Hs|].
  split; [left; exists tt; vm_compute; reflexivity|].
  apply (writes_keep_table_constraints (new_database_parameters two_names "db1")
           (bare_store ["db1"])); [exact Hs|].
  left. exists tt. vm_compute. reflexivity.
Defined.

(** X9 on [stale_project_with_parameter]. *)
Lemma project_scope_witness :
  ∃ σ', ends_in ProjectParameter_recalculate stale_project_with_parameter σ' ∧
    project_frame stale_project_with_parameter σ'.
Proof.
  eexists. split; [left; exists tt; vm_compute; reflexivity|].
  apply (project_recalculate_stays_in_project_scope stale_project_with_parameter).
  left. exists tt. vm_compute. reflexivity.
Defined.

(** X10 on [database_formula_store]: the edge [db1 -> project] is the one
    thing written outside the rows of [db1] and the group table. *)
Lemma database_scope_witness :
  ∃ σ', ends_in (DatabaseParameter_recalculate "db1") database_formula_store σ' ∧
    database_frame "db1" database_formula_store σ'.
Proof.
  eexists. split; [left; exists tt; vm_compute; reflexivity|].
  apply (database_recalculate_stays_in_its_scope "db1" database_formula_store).
  left. exists tt. vm_compute. reflexivity.
Defined.

(** X11: [two_names] replaces the project parameter [a] of
    [stale_project_with_parameter]. *)
Lemma new_project_parameters_witness :
  ∃ σ', ParameterManager_new_project_parameters two_names
          stale_project_with_parameter = Ok tt σ' ∧
    pp_key <$> projectparameter σ' =
      (λ ds, (np_name ds, np_formula ds, np_data ds)) <$> two_names ∧
    table_only kind_project stale_project_with_parameter σ'.
Proof.
  eexists. split; [vm_compute; reflexivity|].
  apply (new_project_parameters_replaces_table two_names
           stale_project_with_parameter).
  vm_compute. reflexivity.
Defined.

(** X12: [two_names] replaces the parameter [b] of [db1] in
    [database_formula_store]. *)
Lemma new_database_parameters_witness :
  ∃ σ', ParameterManager_new_database_parameters two_names "db1"
          database_formula_store = Ok tt σ' ∧
    dp_key <$> DatabaseParameter_select σ' "db1" =
      (λ ds, ("db1", np_name ds, np_formula ds, np_data ds)) <$> two_names ∧
    database_scope "db1" database_formula_store σ'.
Proof.
  eexists. split; [vm_compute; reflexivity|].
  apply (new_database_parameters_replaces_rows two_names "db1"
           database_formula_store).
  vm_compute. reflexivity.
Defined.

(** X13: [two_activity_names] go into the new group [grp] of
    [plain_store], after the row of group [old]. *)
Lemma new_activity_parameters_witness :
  ∃ σ', ParameterManager_new_activity_parameters 2 two_activity_names "grp"
          plain_store = Ok tt σ' ∧
    ap_key <$> activityparameter σ' =
      (ap_key <$> filter (λ o, ap_group o ≠ "grp") (activityparameter plain_store)) ++
      ((λ ds, ("grp", nap_database ds, nap_code ds, nap_name ds,
               nap_formula ds, nap_data ds)) <$> two_activity_names) ∧
    pp_key <$> projectparameter σ' = pp_key <$> projectparameter plain_store ∧
    dp_key <$> databaseparameter σ' = dp_key <$> databaseparameter plain_store ∧
    parameterizedexchange σ' = parameterizedexchange plain_store.
Proof.
  eexists. split; [vm_compute; reflexivity|].
  apply (new_activity_parameters_replaces_group 2 two_activity_names "grp"
           plain_store).
  vm_compute. reflexivity.
Defined.

(** X14: the formula of [ghost_names] mentions a name that nothing
    defines, so the replacement of the parameters of [db1] fails after the
    old row was deleted and the new one inserted. *)
Lemma failed_bulk_replace_witness :
  ∃ e σ', ParameterManager_new_database_parameters ghost_names "db1"
            database_formula_store = Raise e σ' ∧
    e = MissingName {["ghost"]} ∧ σ' = database_formula_store.
Proof.
  eexists _, _. split; [vm_compute; reflexivity|]. split; [reflexivity|].
  eapply (failed_bulk_replace_restores_store ghost_names "db1"
            database_formula_store).
  right. vm_compute. reflexivity.
Defined.

(** X15: the same for an activity group; the row of [grp], created
    before the transaction, stays. *)
Lemma failed_new_activity_parameters_witness :
  ∃ e σ', ParameterManager_new_activity_parameters 2 ghost_activity_names "grp"
            plain_store = Raise e σ' ∧
    projectparameter σ' = projectparameter plain_store ∧
    databaseparameter σ' = databaseparameter plain_store ∧
    activityparameter σ' = activityparameter plain_store ∧
    parameterizedexchange σ' = parameterizedexchange plain_store ∧
    groupdependency σ' = groupdependency plain_store ∧
    (group_table σ' = group_table plain_store ∨
     (group_table plain_store !! "grp" = None ∧
      group_table σ' =
        <["grp" := {| fresh := true; updated := now plain_store; order := [] |}]>
          (group_table plain_store))) ∧
    world_grows plain_store σ'.
Proof.
  eexists _, _. split; [vm_compute; reflexivity|].
  eapply (failed_new_activity_parameters_restores_rows 2 ghost_activity_names
            "grp" plain_store).
  vm_compute. reflexivity.
Defined.

(** X16: [priority_store] has a fresh project group and a project
    parameter [a]; creating [a] again is refused and leaves the group
    stale. *)
Lemma create_expires_witness :
  ∃ e σ', ProjectParameter_create second_a priority_store = Raise e σ' ∧
    is_fresh priority_store "project" ∧ is_stale σ' "project".
Proof.
  eexists _, _. split; [vm_compute; reflexivity|].
  split; [exists fresh_group; split; vm_compute; reflexivity|].
  apply (create_expires_owning_group (create_project_parameter second_a)
           "project" priority_store); [reflexivity|].
  right. eexists. vm_compute. reflexivity.
Defined.

(** X17 on [database_formula_store]. *)
Lemma database_edge_witness :
  ∃ σ', DatabaseParameter_recalculate "db1" database_formula_store = Ok tt σ' ∧
    (("db1", "project") ∉ groupdependency database_formula_store) ∧
    ("db1", "project") ∈ groupdependency σ'.
Proof.
  eexists. split; [vm_compute; reflexivity|].
  split; [vm_compute; discriminate|].
  edestruct (database_recalculate_tracks_project_edge "db1"
               database_formula_store) as [_ Hedge].
  - vm_compute. reflexivity.
  - vm_compute. reflexivity.
  - vm_compute. discriminate.
  - vm_compute. reflexivity.
  - vm_compute. reflexivity.
  - apply Hedge. vm_compute. discriminate.
Defined.


(** X19 on [plain_store]: the two parameters of the activity go to [grp];
    its row in [old] goes. *)
Lemma add_to_group_witness :
  ∃ σ', ParameterManager_add_to_group "grp" ("db1", "act1") plain_store =
          Ok (Some 2) σ' ∧
    ∃ activity parameters,
      get_activity ("db1", "act1") plain_store = Ok activity plain_store ∧
      act_parameters activity = Some parameters ∧
      2 = length parameters ∧
      activityparameter σ' =
        filter (λ o, ¬ (ap_database o = "db1" ∧ ap_code o = "act1"))
          (activityparameter plain_store) ++
        ((λ p, {| ap_group := "grp"; ap_database := "db1"; ap_code := "act1";
                  ap_name := ep_variable p; ap_formula := ep_formula p;
                  ap_amount := Some (default zero (ep_amount p));
                  ap_data := ep_data p |}) <$> parameters) ∧
      activities σ' =
        (λ b, if bool_decide ((act_database b, act_code b) = ("db1", "act1"))
              then {| act_database := "db1"; act_code := "act1";
                      act_parameters := None;
                      act_exchanges := act_exchanges activity |}
              else b) <$> activities plain_store.
Proof.
  eexists. split; [vm_compute; reflexivity|].
  apply (add_to_group_moves_parameters "grp" ("db1", "act1") 2 plain_store).
  vm_compute. reflexivity.
Defined.

(** X20 on [empty_group_store]. *)
Lemma empty_stale_group_witness :
  ∃ e σ', ActivityParameter_recalculate 1 "grp" empty_group_store = Raise e σ'.
Proof.
  apply (recalculate_of_empty_stale_group_raises 0 "grp" empty_group_store);
    vm_compute; reflexivity.
Defined.

(** X21 on [priority_store]: [db1] owns [grp]. *)
Lemma recalculate_dirty_witness :
  ∃ σ', ActivityParameter_recalculate 2 "grp" priority_store = Ok tt σ' ∧
    ∃ o, ActivityParameter_get priority_store "grp" = inr o ∧
         ap_database o ∈ dirty σ'.
Proof.
  eexists. split; [vm_compute; reflexivity|].
  apply (recalculate_marks_database_dirty 2 "grp" priority_store);
    vm_compute; reflexivity.
Defined.
